(** * IAMP Sites Mapping Dashboard: the data pipeline of [assets/js/app.js]

    A shallow embedding of the pure part of the dashboard script: value
    coercion, the record normalizer with its QC rule list, the filter
    predicate, the share-link encoding, the CSV export and the
    coordinate inference engine; then the indicators and the data of
    the charts, the markup escaping, the sheet selection, the map view
    and the flow of a load through the state and the filter controls.

    Conventions of the embedding.
    - A JavaScript string is a [string]: the sequence of the bytes of its
      UTF-8 encoding.  Case folding and white space are the ASCII ones;
      bytes above 127 are carried through unchanged.
    - A JavaScript number is a [jsnum]: NaN, the two infinities, or an
      exact rational.  Rounding to binary64, overflow and the sign of zero
      are outside the model.
    - An object used as a row is the list of its own properties in
      [Object.keys] order.  Names that are array indices, which that order
      puts first, are not among the names the script sets.
    - A number is printed in positional notation; the exponent notation
      of very large and very small numbers is outside the model.  The
      query string decoder works on bytes and keeps a byte sequence that
      is no UTF-8. *)

From Stdlib Require Import String Ascii List ZArith QArith Qabs Qround Lia Lqa Bool.
From Stdlib Require Import DecimalString DecimalN.
From stdpp Require Import gmap strings list.
Import ListNotations.

Local Open Scope string_scope.
Local Open Scope list_scope.

(** ** The JavaScript runtime, as far as the script uses it *)

Module JS.

(** *** Strings *)

Definition code (c : ascii) : nat := nat_of_ascii c.

Definition isDigit (c : ascii) : bool := (48 <=? code c)%nat && (code c <=? 57)%nat.

Definition isUpper (c : ascii) : bool := (65 <=? code c)%nat && (code c <=? 90)%nat.

Definition isLower (c : ascii) : bool := (97 <=? code c)%nat && (code c <=? 122)%nat.

Definition isAlnum (c : ascii) : bool := isDigit c || isUpper c || isLower c.

(** White space and line terminators of the ASCII range:
    TAB, LF, VT, FF, CR and SPACE. *)
Definition isSpace (c : ascii) : bool :=
  ((9 <=? code c)%nat && (code c <=? 13)%nat) || (code c =? 32)%nat.

Definition lowerChar (c : ascii) : ascii :=
  if isUpper c then ascii_of_nat (code c + 32) else c.

Definition upperChar (c : ascii) : ascii :=
  if isLower c then ascii_of_nat (code c - 32) else c.

Fixpoint smap (f : ascii -> ascii) (s : string) : string :=
  match s with
  | EmptyString => EmptyString
  | String c r => String (f c) (smap f r)
  end.

Definition toLowerCase : string -> string := smap lowerChar.
Definition toUpperCase : string -> string := smap upperChar.

Fixpoint trimStart (s : string) : string :=
  match s with
  | String c r => if isSpace c then trimStart r else s
  | EmptyString => EmptyString
  end.

Fixpoint trimEnd (s : string) : string :=
  match s with
  | EmptyString => EmptyString
  | String c r =>
      match trimEnd r with
      | EmptyString => if isSpace c then EmptyString else String c EmptyString
      | t => String c t
      end
  end.

Definition trim (s : string) : string := trimEnd (trimStart s).

Fixpoint startsWith (p s : string) : bool :=
  match p, s with
  | EmptyString, _ => true
  | String a p', String b s' => Ascii.eqb a b && startsWith p' s'
  | String _ _, EmptyString => false
  end.

(** [s.includes(sub)] *)
Fixpoint includes (s sub : string) : bool :=
  startsWith sub s ||
  match s with
  | EmptyString => false
  | String _ r => includes r sub
  end.

Fixpoint existsb_char (p : ascii -> bool) (s : string) : bool :=
  match s with
  | EmptyString => false
  | String c r => p c || existsb_char p r
  end.

Fixpoint takeWhile (p : ascii -> bool) (s : string) : string :=
  match s with
  | String c r => if p c then String c (takeWhile p r) else EmptyString
  | EmptyString => EmptyString
  end.

Fixpoint dropWhile (p : ascii -> bool) (s : string) : string :=
  match s with
  | String c r => if p c then dropWhile p r else s
  | EmptyString => EmptyString
  end.

(** [parts.join(sep)] *)
Fixpoint join (sep : string) (parts : list string) : string :=
  match parts with
  | [] => EmptyString
  | [p] => p
  | p :: rest => p +:+ sep +:+ join sep rest
  end.

(** A string used as a condition: empty is falsy. *)
Definition nonEmpty (s : string) : bool :=
  match s with EmptyString => false | String _ _ => true end.

(** [a || b] on strings *)
Definition orElse (a b : string) : string := if nonEmpty a then a else b.

(** *** Numbers *)

Inductive jsnum : Type :=
  | NaN
  | Inf (negative : bool)
  | Fin (q : Q).

Definition isFinite (n : jsnum) : bool :=
  match n with Fin _ => true | _ => false end.

(** [n === k] for a rational constant [k] *)
Definition numEq (n : jsnum) (k : Q) : bool :=
  match n with Fin q => Qeq_bool q k | _ => false end.

Definition hexVal (c : ascii) : option Z :=
  if isDigit c then Some (Z.of_nat (code c - 48))
  else if (65 <=? code c)%nat && (code c <=? 70)%nat then Some (Z.of_nat (code c - 55))
  else if (97 <=? code c)%nat && (code c <=? 102)%nat then Some (Z.of_nat (code c - 87))
  else None.

(** The value of a digit string in a base, [None] when a character is
    not a digit of that base or the string is empty. *)
Fixpoint radixAcc (base : Z) (acc : Z) (s : string) : option Z :=
  match s with
  | EmptyString => Some acc
  | String c r =>
      match hexVal c with
      | Some d => if (d <? base)%Z then radixAcc base (acc * base + d) r else None
      | None => None
      end
  end.

Definition radixValue (base : Z) (s : string) : option Z :=
  match s with
  | EmptyString => None
  | _ => radixAcc base 0 s
  end.

Definition decValue (s : string) : Z :=
  match radixAcc 10 0 s with Some z => z | None => 0%Z end.

Definition pow10 (e : Z) : Q := Qpower (10 # 1) e.

(** The exponent part [e±ddd] of a decimal literal: the exponent and
    what follows it; [None] when an [e] is not followed by digits. *)
Definition exponentPart (s : string) : option (Z * string) :=
  match s with
  | String c r =>
      if Ascii.eqb c "e" || Ascii.eqb c "E" then
        let '(neg, r') :=
          match r with
          | String "+" t => (false, t)
          | String "-" t => (true, t)
          | _ => (false, r)
          end in
        let ds := takeWhile isDigit r' in
        if nonEmpty ds
        then Some (if neg then (- decValue ds)%Z else decValue ds, dropWhile isDigit r')
        else None
      else Some (0%Z, s)
  | EmptyString => Some (0%Z, s)
  end.

(** [StrUnsignedDecimalLiteral] *)
Definition unsignedDecimal (s : string) : jsnum :=
  if String.eqb s "Infinity" then Inf false
  else
    let ip := takeWhile isDigit s in
    let r1 := dropWhile isDigit s in
    let '(fp, r2) :=
      match r1 with
      | String "." t => (takeWhile isDigit t, dropWhile isDigit t)
      | _ => (EmptyString, r1)
      end in
    if nonEmpty ip || nonEmpty fp then
      match exponentPart r2 with
      | Some (e, EmptyString) =>
          Fin (((decValue ip # 1) + (decValue fp # 1) * pow10 (- Z.of_nat (String.length fp)))
               * pow10 e)
      | _ => NaN
      end
    else NaN.

Definition negate (n : jsnum) : jsnum :=
  match n with
  | NaN => NaN
  | Inf b => Inf (negb b)
  | Fin q => Fin (- q)
  end.

(** [Number(s)] for a string: the StringToNumber conversion. *)
Definition stringToNumber (s : string) : jsnum :=
  match trim s with
  | EmptyString => Fin 0
  | String "+" r => unsignedDecimal r
  | String "-" r => negate (unsignedDecimal r)
  | String "0" (String p r) as t =>
      let radix (b : Z) :=
        match radixValue b r with Some z => Fin (z # 1) | None => NaN end in
      if Ascii.eqb p "x" || Ascii.eqb p "X" then radix 16%Z
      else if Ascii.eqb p "o" || Ascii.eqb p "O" then radix 8%Z
      else if Ascii.eqb p "b" || Ascii.eqb p "B" then radix 2%Z
      else unsignedDecimal t
  | t => unsignedDecimal t
  end.

Definition digitChar (z : Z) : ascii :=
  match z with
  | 0 => "0" | 1 => "1" | 2 => "2" | 3 => "3" | 4 => "4"
  | 5 => "5" | 6 => "6" | 7 => "7" | 8 => "8" | _ => "9"
  end%Z%char.

(** The digits after the decimal point of [n/d] for [0 <= n < d], at most
    [fuel] of them. *)
Fixpoint fracDigits (fuel : nat) (n d : Z) : string :=
  match fuel with
  | O => EmptyString
  | S f =>
      if (n =? 0)%Z then EmptyString
      else String (digitChar (10 * n / d)) (fracDigits f ((10 * n) mod d) d)
  end.

(** [String(n)] for a number.  Integers print as in the runtime (below
    10^21); other rationals print their decimal expansion, cut after 17
    places, where the runtime prints the shortest decimal that reads back
    as the same binary64. *)
Definition numberToString (n : jsnum) : string :=
  match n with
  | NaN => "NaN"
  | Inf false => "Infinity"
  | Inf true => "-Infinity"
  | Fin q =>
      let a := Qabs q in
      let ip := Qfloor a in
      let body :=
        NilZero.string_of_uint (N.to_uint (Z.to_N ip)) +:+
        match fracDigits 17 (Qnum a - ip * Zpos (Qden a)) (Zpos (Qden a)) with
        | EmptyString => EmptyString
        | ds => "." +:+ ds
        end in
      if Qlt_le_dec q 0 then "-" +:+ body else body
  end.

(** *** Values held by a cell of a row: text, number, boolean or empty *)

Inductive value : Type :=
  | VUndefined
  | VNull
  | VBool (b : bool)
  | VNum (n : jsnum)
  | VStr (s : string).

(** [String(v)] *)
Definition toStr (v : value) : string :=
  match v with
  | VUndefined => "undefined"
  | VNull => "null"
  | VBool true => "true"
  | VBool false => "false"
  | VNum n => numberToString n
  | VStr s => s
  end.

(** [Number(v)] *)
Definition toNumber (v : value) : jsnum :=
  match v with
  | VUndefined => NaN
  | VNull => Fin 0
  | VBool true => Fin 1
  | VBool false => Fin 0
  | VNum n => n
  | VStr s => stringToNumber s
  end.

(** [v === null || v === undefined] *)
Definition isNullish (v : value) : bool :=
  match v with VUndefined | VNull => true | _ => false end.

(** [v === ""] *)
Definition isEmptyStr (v : value) : bool :=
  match v with VStr EmptyString => true | _ => false end.

(** [a ?? b] *)
Definition nullish (a b : value) : value := if isNullish a then b else a.

(** *** Objects used as rows *)

Definition obj : Type := list (string * value).

(** [o[k]] *)
Fixpoint get (o : obj) (k : string) : value :=
  match o with
  | [] => VUndefined
  | (k', v) :: r => if String.eqb k' k then v else get r k
  end.

(** [o[k] = v]: an existing property keeps its place, a new one goes last. *)
Fixpoint set (o : obj) (k : string) (v : value) : obj :=
  match o with
  | [] => [(k, v)]
  | (k', v') :: r => if String.eqb k' k then (k', v) :: r else (k', v') :: set r k v
  end.

(** [Object.keys(o)] *)
Definition keys (o : obj) : list string := List.map fst o.

End JS.

Import JS.

(** ** Regular expressions

    A backtracking matcher with the priorities of the runtime: a greedy
    star tries the longest repetition first, an alternative tries its
    left branch first, and [exec] returns the leftmost match.  No group
    of the script's expressions stands under a star. *)

Module Regex.

Inductive re : Type :=
  | Eps
  | Chr (p : ascii -> bool)
  | Seq (a b : re)
  | Alt (a b : re)
  | Star (a : re)
  | Grp (i : nat) (a : re).

Definition Plus (a : re) : re := Seq a (Star a).
Definition Opt (a : re) : re := Alt a Eps.

Definition captures : Type := list (nat * string).

(** What was consumed between the input [s] and its suffix [s']. *)
Definition consumed (s s' : string) : string :=
  substring 0 (String.length s - String.length s') s.

(** [run r s c k] matches [r] at the start of [s] and hands the rest of
    the input and the captures to [k].  A turn of a star has to consume a
    character, so the length of the input, plus one, bounds the turns. *)
Fixpoint run (r : re) (s : string) (c : captures)
    (k : string -> captures -> option captures) {struct r} : option captures :=
  match r with
  | Eps => k s c
  | Chr p =>
      match s with
      | String a t => if p a then k t c else None
      | EmptyString => None
      end
  | Seq a b => run a s c (fun s' c' => run b s' c' k)
  | Alt a b =>
      match run a s c k with
      | Some m => Some m
      | None => run b s c k
      end
  | Star a =>
      (fix loop (fuel : nat) (s : string) (c : captures) {struct fuel} : option captures :=
         match fuel with
         | O => k s c
         | S f =>
             match run a s c (fun s' c' =>
                     if (String.length s' <? String.length s)%nat then loop f s' c' else None) with
             | Some m => Some m
             | None => k s c
             end
         end) (S (String.length s)) s c
  | Grp i a => run a s c (fun s' c' => k s' ((i, consumed s s') :: c'))
  end.

(** [re.exec(s)] without the [g] flag: the captures of the leftmost match. *)
Fixpoint exec (r : re) (s : string) : option captures :=
  match run r s [] (fun _ c => Some c) with
  | Some c => Some c
  | None =>
      match s with
      | String _ t => exec r t
      | EmptyString => None
      end
  end.

(** [re.test(s)] *)
Definition test (r : re) (s : string) : bool :=
  match exec r s with Some _ => true | None => false end.

(** [m[i]], [None] for a group that took no part in the match. *)
Fixpoint group (i : nat) (c : captures) : option string :=
  match c with
  | [] => None
  | (j, s) :: r => if (j =? i)%nat then Some s else group i r
  end.

(** One literal character, under the [i] flag or without it. *)
Definition ch (c : ascii) : re := Chr (Ascii.eqb c).
Definition chi (c : ascii) : re := Chr (fun x => Ascii.eqb (lowerChar x) (lowerChar c)).

(** A literal word under the [i] flag. *)
Fixpoint word (w : string) : re :=
  match w with
  | EmptyString => Eps
  | String c r => Seq (chi c) (word r)
  end.

Definition digit : re := Chr isDigit.
Definition nonDigit : re := Chr (fun c => negb (isDigit c)).
Definition space : re := Chr isSpace.
Definition oneOfi (cs : string) : re :=
  Chr (fun x => existsb_char (fun c => Ascii.eqb (lowerChar x) (lowerChar c)) cs).

End Regex.

Import Regex.

(** ** Value coercion *)

(** [toNum]: empty cells and everything that is not a finite number give 0. *)
Definition toNum (v : value) : jsnum :=
  if isNullish v || isEmptyStr v then Fin 0
  else
    let n := toNumber v in
    if isFinite n then n else Fin 0.

(** [normText]: the trimmed text of a cell, empty for an empty cell. *)
Definition normText (v : value) : string :=
  if isNullish v then EmptyString else trim (toStr v).

(** [v === true] and [v === 1] *)
Definition isTrue (v : value) : bool :=
  match v with VBool true => true | _ => false end.

Definition isOne (v : value) : bool :=
  match v with VNum n => numEq n 1 | _ => false end.

(** [truthy]: the flag held by a cell. *)
Definition truthy (v : value) : bool :=
  if isTrue v then true
  else if isOne v then true
  else
    let s := toLowerCase (normText v) in
    String.eqb s "yes" || String.eqb s "true" || String.eqb s "1".

(** ** CSV export *)

Definition dquote : ascii := "034"%char.
Definition newline : ascii := "010"%char.
Definition comma : ascii := ","%char.

(** [str.replace(/x/g, by)] for a one-character class [x] *)
Fixpoint replaceAll (p : ascii -> bool) (by_ : string) (s : string) : string :=
  match s with
  | EmptyString => EmptyString
  | String c r => if p c then by_ +:+ replaceAll p by_ r else String c (replaceAll p by_ r)
  end.

(** The class of [esc]: double quote, line feed, comma. *)
Definition needsQuoting (c : ascii) : bool :=
  Ascii.eqb c dquote || Ascii.eqb c newline || Ascii.eqb c comma.

(** The local [esc] of [toCSV]. *)
Definition esc (s : value) : string :=
  let str := if isNullish s then EmptyString else toStr s in
  if test (Chr needsQuoting) str
  then String dquote (replaceAll (Ascii.eqb dquote) (String dquote (String dquote EmptyString)) str
                      +:+ String dquote EmptyString)
  else str.

Definition toCSV (rows : list obj) (columns : list string) : string :=
  let header := join "," (List.map (fun c => esc (VStr c)) columns) in
  let lines := List.map (fun r => join "," (List.map (fun c => esc (get r c)) columns)) rows in
  join (String newline EmptyString) (header :: lines).

(** ** Configuration *)

Definition NUM_FIELDS : list string :=
  [ "A- Number of Tents";
    "A1- Number of Households in Tents";
    "A2- Number of Individuals in Tents";
    "B- Number of Self-built Structures with Non-Concrete Roof";
    "B1- Number of Households in Self-built Structures with Non-Concrete Roof";
    "B2- Number of Individuals in Self-built Structures with Non-Concrete Roof";
    "C- Number of Prefab Structure";
    "C1- Number of Households in Prefab Structure";
    "C2- Number of Individuals in Prefab Structure";
    "D- Number of Self-built Structures with Concrete Roof";
    "D1- Number of Households in Self-built Structures with Concrete Roof";
    "D2- Number of Individuals in Self-built Structures with Concrete Roof";
    "Total number of Structures";
    "Total number of Households";
    "Total number of Individuals";
    "Number of Latrines";
    "E1- Number of Households came from Syria";
    "E2- Number of Individuals came from Syria";
    "F1- Number of Households came from Lebanon";
    "F2- Number of Individuals came from Lebanon";
    "G1- Number of Households left to Syria";
    "G2- Number of Individuals left to Syria";
    "QC - Issue count" ].

Record rule : Type := { col : string; label : string; help : string }.

Definition QC_RULES : list rule :=
  [ {| col := "QC - Missing assessment date";
       label := "Missing assessment date (status filled but date blank)";
       help := "Fill Date of phone assessment when Phone call status is set." |};
    {| col := "QC - Current phone length";
       label := "Current Shawish phone length not 8 digits";
       help := "Fix phone numbers (often missing leading 0) or confirm number is correct." |};
    {| col := "QC - Phone status/details mismatch";
       label := "Phone call status/details mismatch or invalid status value";
       help := "Ensure status is valid; if status is not Answer, No response details should be filled." |};
    {| col := "QC - Living status/new focal point mismatch";
       label := "Living status/new focal point mismatch or invalid value";
       help := "If living=No, new focal point name & phone must be filled. If living=Yes, new focal point fields should be blank." |};
    {| col := "QC - New focal point missing assessment date";
       label := "New focal point: status filled but assessment date blank";
       help := "Fill Date of phone assessment with New Focal point when New FP status is set." |};
    {| col := "QC - New FP status/details mismatch";
       label := "New focal point: status/details mismatch or invalid status value";
       help := "Ensure New FP status is valid; if status is not Answer, No response details should be filled." |};
    {| col := "QC - Record status mismatch";
       label := "Record status mismatch or invalid value";
       help := "Record status should be filled when phone call status is filled (Finish/Need Follow-up)." |};
    {| col := "QC - Totals mismatch";
       label := "Totals mismatch (structures/HH/IND vs components)";
       help := "Check totals (structures/HH/IND) match sum of components (Tents/Shelters/Prefab/etc)." |};
    {| col := "QC - HH size outlier (>10 ind/hh or ind<hh)";
       label := "Household size outlier (>10 ind/HH or ind < HH)";
       help := "Review Total households vs Total individuals for possible data entry errors." |};
    {| col := "QC - Latrines missing (HH>0 & latrines 0/blank)";
       label := "Latrines missing (HH>0 but latrines = 0/blank)";
       help := "Fill Number of Latrines when households exist (HH>0)." |};
    {| col := "QC - Latrines > HH";
       label := "Latrines greater than households";
       help := "Review latrine count relative to households." |};
    {| col := "QC - High population (>500 ind)";
       label := "High population outlier (>500 individuals)";
       help := "Confirm Total individuals — unusually high compared with most sites." |};
    {| col := "QC - Invalid Site Status";
       label := "Invalid Site Status";
       help := "Site Status should be one of: Active / Inactive / Fully Demolished." |};
    {| col := "QC - Invalid PCode format";
       label := "Invalid PCode format";
       help := "PCode should follow #####-##-###." |} ].

(** ** Record normalizer ([parseWorkbook]) *)

Record record : Type := {
  fields : obj;
  __assessed : bool;
  __siteStatus : string;
  __district : string;
  __cadaster : string;
  __phoneStatus : string;
  __qcAny : string;
  __qcIssueCount : jsnum;
  __qcFlags : list string;
  __search : string
}.

(** [for (const f of NUM_FIELDS) obj[f] = toNum(obj[f])] *)
Definition coerceNumFields (r : obj) : obj :=
  fold_left (fun o f => set o f (VNum (toNum (get o f)))) NUM_FIELDS r.

(** [for (const rule of QC_RULES) if (truthy(obj[rule.col])) qcFlags.push(rule.label)] *)
Definition collectFlags (o : obj) : list string :=
  fold_left (fun flags rl => if truthy (get o (col rl)) then flags ++ [label rl] else flags)
            QC_RULES [].

(** The body of [rows.map((r) => ...)]. *)
Definition normalizeRow (r : obj) : record :=
  let o := coerceNumFields r in
  let phoneStatus := normText (get o "Phone call status") in
  let siteStatus := normText (get o "Site Status") in
  let district := normText (get o "District") in
  let cadaster := normText (get o "Cadaster") in
  let assessed := negb (String.eqb phoneStatus "") in
  let siteStatusDisplay :=
    if nonEmpty siteStatus then siteStatus
    else if assessed then "Not recorded"
    else "Not assessed" in
  let qcAny := orElse (normText (get o "QC - Any issue")) "No" in
  let qcIssueCount := toNum (get o "QC - Issue count") in
  let qcFlags := collectFlags o in
  {| fields := o;
     __assessed := assessed;
     __siteStatus := siteStatusDisplay;
     __district := orElse district "—";
     __cadaster := orElse cadaster "—";
     __phoneStatus := if assessed then phoneStatus else "Not assessed";
     __qcAny := if String.eqb qcAny "Yes" then "Yes" else "No";
     __qcIssueCount := qcIssueCount;
     __qcFlags := qcFlags;
     __search :=
       toLowerCase
         (join " " [ normText (get o "PCode");
                     normText (get o "PCode Name");
                     normText (get o "Local Name");
                     district;
                     cadaster ]) |}.

(** [parseWorkbook], after the spreadsheet library has decoded the sheet
    into row objects. *)
Definition parseWorkbook (rows : list obj) : list record := List.map normalizeRow rows.

(** ** Filters *)

Record filters : Type := {
  q : string;
  district : string;
  cadaster : string;
  siteStatus : string;
  phoneStatus : string;
  qc : string
}.

(** The initial value of the script's [filters] object. *)
Definition defaultFilters : filters :=
  {| q := ""; district := "All"; cadaster := "All";
     siteStatus := "All"; phoneStatus := "All"; qc := "All" |}.

Definition differs (a b : string) : bool := negb (String.eqb a b).

(** The callback of [rows.filter] in [applyFilters], one early return
    after the other. *)
Definition keeps (f : filters) (query : string) (r : record) : bool :=
  if differs (district f) "All" && differs (__district r) (district f) then false
  else if differs (cadaster f) "All" && differs (__cadaster r) (cadaster f) then false
  else if differs (siteStatus f) "All" && differs (__siteStatus r) (siteStatus f) then false
  else if differs (phoneStatus f) "All" && differs (__phoneStatus r) (phoneStatus f) then false
  else if String.eqb (qc f) "Any issue" && differs (__qcAny r) "Yes" then false
  else if String.eqb (qc f) "No issues" && differs (__qcAny r) "No" then false
  else if nonEmpty query && negb (includes (__search r) query) then false
  else true.

Definition applyFilters (f : filters) (rows : list record) : list record :=
  let query := toLowerCase (trim (q f)) in
  List.filter (keeps f query) rows.

(** ** Share link: [URLSearchParams]

    The query string is the [application/x-www-form-urlencoded]
    serialization of the parameter list, byte by byte. *)

Module URLSearchParams.

Definition params : Type := list (string * string).

(** [params.set(name, value)] *)
Fixpoint set (ps : params) (name v : string) : params :=
  match ps with
  | [] => [(name, v)]
  | (n, v') :: r =>
      if String.eqb n name
      then (n, v) :: List.filter (fun p => differs (fst p) name) r
      else (n, v') :: set r name v
  end.

(** [params.get(name)], [None] for [null] *)
Fixpoint get (ps : params) (name : string) : option string :=
  match ps with
  | [] => None
  | (n, v) :: r => if String.eqb n name then Some v else get r name
  end.

Definition hexDigit (n : nat) : ascii :=
  match String.get n "0123456789ABCDEF" with Some c => c | None => "0"%char end.

Definition percentEncodeByte (c : ascii) : string :=
  String "%" (String (hexDigit (code c / 16)) (String (hexDigit (code c mod 16)) EmptyString)).

(** Bytes the serializer leaves as they are: ASCII letters and digits and [*-._]. *)
Definition unreserved (c : ascii) : bool := isAlnum c || existsb_char (Ascii.eqb c) "*-._".

Definition encodeByte (c : ascii) : string :=
  if unreserved c then String c EmptyString
  else if Ascii.eqb c " " then "+"
  else percentEncodeByte c.

Fixpoint encode (s : string) : string :=
  match s with
  | EmptyString => EmptyString
  | String c r => encodeByte c +:+ encode r
  end.

(** [params.toString()] *)
Definition toString (ps : params) : string :=
  join "&" (List.map (fun p => encode (fst p) +:+ "=" +:+ encode (snd p)) ps).

Definition byteOfHex (a b : Z) : ascii := ascii_of_nat (Z.to_nat (16 * a + b)).

Fixpoint percentDecode (s : string) : string :=
  match s with
  | EmptyString => EmptyString
  | String c r =>
      if Ascii.eqb c "%" then
        match r with
        | String h (String l r') =>
            match hexVal h, hexVal l with
            | Some a, Some b => String (byteOfHex a b) (percentDecode r')
            | _, _ => String c (percentDecode r)
            end
        | _ => String c (percentDecode r)
        end
      else String c (percentDecode r)
  end.

Definition plusToSpace : string -> string :=
  smap (fun c => if Ascii.eqb c "+" then " "%char else c).

Definition decode (s : string) : string := percentDecode (plusToSpace s).

(** [s.split(sep)] for a one-character separator *)
Fixpoint splitOn (sep : ascii) (s : string) : list string :=
  match s with
  | EmptyString => [EmptyString]
  | String c r =>
      if Ascii.eqb c sep then EmptyString :: splitOn sep r
      else
        match splitOn sep r with
        | h :: t => String c h :: t
        | [] => [String c EmptyString]
        end
  end.

(** A sequence cut at its first [=]; no [=] leaves an empty value. *)
Fixpoint cutAtEquals (s : string) : string * string :=
  match s with
  | EmptyString => (EmptyString, EmptyString)
  | String c r =>
      if Ascii.eqb c "=" then (EmptyString, r)
      else let '(n, v) := cutAtEquals r in (String c n, v)
  end.

Definition parsePair (piece : string) : string * string :=
  let '(n, v) := cutAtEquals piece in (decode n, decode v).

Definition parse (s : string) : params :=
  List.map parsePair (List.filter nonEmpty (splitOn "&" s)).

(** [new URLSearchParams(init)]: one leading [?] is dropped. *)
Definition ofString (init : string) : params :=
  match init with
  | String "?" r => parse r
  | _ => parse init
  end.

End URLSearchParams.

Module USP := URLSearchParams.

(** [if (cond) params.set(name, value)] *)
Definition setIf (cond : bool) (name v : string) (ps : USP.params) : USP.params :=
  if cond then USP.set ps name v else ps.

Definition encodeFiltersToQuery (f : filters) : string :=
  let ps := [] in
  let ps := setIf (nonEmpty (q f)) "q" (q f) ps in
  let ps := setIf (differs (district f) "All") "district" (district f) ps in
  let ps := setIf (differs (cadaster f) "All") "cadaster" (cadaster f) ps in
  let ps := setIf (differs (siteStatus f) "All") "siteStatus" (siteStatus f) ps in
  let ps := setIf (differs (phoneStatus f) "All") "phoneStatus" (phoneStatus f) ps in
  let ps := setIf (differs (qc f) "All") "qc" (qc f) ps in
  USP.toString ps.

(** [copyShareLink]: the search part of the shared address. *)
Definition shareSearch (f : filters) : string :=
  let query := encodeFiltersToQuery f in
  if nonEmpty query then "?" +:+ query else "".

(** ** The filter controls of the page *)

(** Modelled from the spec: the page markup that declares the controls
    ([searchInput], the four value selectors and [qcFilter]) is not part
    of the sources.  The selectors are taken to be single-choice lists: a
    fresh one shows its first option, assigning a value that is no option
    leaves nothing selected and reads back as the empty string. *)
Record select : Type := { options : list string; current : string }.

Definition setValue (sel : select) (v : string) : select :=
  {| options := options sel;
     current := if existsb (String.eqb v) (options sel) then v else "" |}.

(** LF and CR. *)
Definition isLineBreak (c : ascii) : bool := Ascii.eqb c "010" || Ascii.eqb c "013".

(** Modelled from the spec: the markup of [searchInput] is not part of the
    sources.  The search box is taken to be a single-line text control,
    which drops line breaks from an assigned value. *)
Definition setInput (v : string) : string := replaceAll isLineBreak "" v.

Record page : Type := {
  searchInput : string;
  districtFilter : select;
  cadasterFilter : select;
  siteStatusFilter : select;
  phoneStatusFilter : select;
  qcFilter : select
}.

(** [Array.from(new Set(values))]: the first occurrence of each value. *)
Fixpoint dedupe (l : list string) : list string :=
  match l with
  | [] => []
  | x :: r => x :: List.filter (differs x) (dedupe r)
  end.

Fixpoint insertSorted (cmp : string -> string -> comparison) (x : string) (l : list string)
    : list string :=
  match l with
  | [] => [x]
  | y :: r =>
      match cmp x y with
      | Lt => x :: l
      | _ => y :: insertSorted cmp x r
      end
  end.

(** [arr.sort(cmp)]: the sort is stable. *)
Definition sortBy (cmp : string -> string -> comparison) (l : list string) : list string :=
  fold_right (insertSorted cmp) [] l.

(** [uniqSorted]; [localeCompare] depends on the locale of the browser and
    is a parameter. *)
Definition uniqSorted (localeCompare : string -> string -> comparison)
    (values : list string) : list string :=
  sortBy localeCompare
    (dedupe (List.filter (fun v => nonEmpty v && differs v "—") values)).

Definition setSelectOptions (opts : list string) : select :=
  let all := "All" :: opts in
  {| options := all; current := hd "" all |}.

Definition populateFilterControls (localeCompare : string -> string -> comparison)
    (rows : list record) (pg : page) : page :=
  {| searchInput := searchInput pg;
     districtFilter := setSelectOptions (uniqSorted localeCompare (List.map __district rows));
     cadasterFilter := setSelectOptions (uniqSorted localeCompare (List.map __cadaster rows));
     siteStatusFilter := setSelectOptions (uniqSorted localeCompare (List.map __siteStatus rows));
     phoneStatusFilter := setSelectOptions (uniqSorted localeCompare (List.map __phoneStatus rows));
     qcFilter := {| options := ["All"; "Any issue"; "No issues"]; current := "All" |} |}.

Definition readFiltersFromUI (pg : page) : filters :=
  {| q := normText (VStr (searchInput pg));
     district := orElse (current (districtFilter pg)) "All";
     cadaster := orElse (current (cadasterFilter pg)) "All";
     siteStatus := orElse (current (siteStatusFilter pg)) "All";
     phoneStatus := orElse (current (phoneStatusFilter pg)) "All";
     qc := orElse (current (qcFilter pg)) "All" |}.

(** [if (p) control.value = p] *)
Definition assignSelect (p : option string) (sel : select) : select :=
  match p with
  | Some v => if nonEmpty v then setValue sel v else sel
  | None => sel
  end.

Definition assignInput (p : option string) (old : string) : string :=
  match p with
  | Some v => if nonEmpty v then setInput v else old
  | None => old
  end.

(** [applyQueryToFilters], with [window.location.search] as an argument:
    the page after the assignments and the filters read back from it. *)
Definition applyQueryToFilters (search : string) (pg : page) : page * filters :=
  let ps := USP.ofString search in
  let pg' :=
    {| searchInput := assignInput (USP.get ps "q") (searchInput pg);
       districtFilter := assignSelect (USP.get ps "district") (districtFilter pg);
       cadasterFilter := assignSelect (USP.get ps "cadaster") (cadasterFilter pg);
       siteStatusFilter := assignSelect (USP.get ps "siteStatus") (siteStatusFilter pg);
       phoneStatusFilter := assignSelect (USP.get ps "phoneStatus") (phoneStatusFilter pg);
       qcFilter := assignSelect (USP.get ps "qc") (qcFilter pg) |} in
  (pg', readFiltersFromUI pg').

(** ** Coordinates read from the spreadsheet *)

(** [/(\d+(?:\.\d+)?)\D+(\d+(?:\.\d+)?)\D+(\d+(?:\.\d+)?)(?:\D*([NSEW]))?/i] *)
Definition decimalRe : re := Seq (Plus digit) (Opt (Seq (ch ".") (Plus digit))).

Definition dmsRe : re :=
  Seq (Grp 1 decimalRe)
   (Seq (Plus nonDigit)
     (Seq (Grp 2 decimalRe)
       (Seq (Plus nonDigit)
         (Seq (Grp 3 decimalRe)
              (Opt (Seq (Star nonDigit) (Grp 4 (oneOfi "NSEW")))))))).

(** [Number(m[i])] *)
Definition groupNumber (i : nat) (m : captures) : jsnum :=
  match group i m with
  | Some s => stringToNumber s
  | None => NaN
  end.

(** The [if (dms) { ... }] block: [None] when control falls through. *)
Definition parseDms (raw : string) : option jsnum :=
  match exec dmsRe raw with
  | Some dms =>
      match groupNumber 1 dms, groupNumber 2 dms, groupNumber 3 dms with
      | Fin deg, Fin min, Fin sec =>
          let out := (deg + (min / 60) + (sec / 3600))%Q in
          let hemi := toUpperCase (match group 4 dms with Some h => orElse h "" | None => "" end) in
          Some (Fin (if String.eqb hemi "S" || String.eqb hemi "W" then (out * -1)%Q else out))
      | _, _, _ => None
      end
  | None => None
  end.

(** [/[^0-9.+\-]/] *)
Definition notNumeric (c : ascii) : bool :=
  negb (isDigit c || existsb_char (Ascii.eqb c) ".+-").

(** [.replace(/(\+)(?=.)/g, "")]: a plus sign goes when a character other
    than a line terminator follows it. *)
Fixpoint dropLeadingPlus (s : string) : string :=
  match s with
  | EmptyString => EmptyString
  | String c r =>
      if Ascii.eqb c "+" &&
         match r with String d _ => negb (isLineBreak d) | EmptyString => false end
      then dropLeadingPlus r
      else String c (dropLeadingPlus r)
  end.

Definition looseDecimal (raw : string) : jsnum :=
  let cleaned :=
    dropLeadingPlus (replaceAll notNumeric "" (replaceAll (Ascii.eqb ",") "." raw)) in
  let n := stringToNumber cleaned in
  if isFinite n then n else NaN.

(** [parseCoordinate]: a finite number, or NaN. *)
Definition parseCoordinate (v : value) : jsnum :=
  if isNullish v || isEmptyStr v then NaN
  else
    match v with
    | VNum n => if isFinite n then n else NaN
    | _ =>
        let raw := trim (toStr v) in
        if negb (nonEmpty raw) then NaN
        else
          match parseDms raw with
          | Some out => out
          | None => looseDecimal raw
          end
    end.

(** [inferPcodeKey]: the column named pcode, else the first one that
    matches [/p\s*code/i] or [/pcode/i], else the literal PCode. *)
Definition inferPcodeKey (keys : list string) : string :=
  let exact := find (fun k => String.eqb (toLowerCase (trim k)) "pcode") keys in
  match exact with
  | Some k => k
  | None =>
      let fuzzy :=
        find (fun k => test (Seq (chi "p") (Seq (Star space) (word "code"))) k
                       || test (word "pcode") k) keys in
      match fuzzy with
      | Some k => orElse k "PCode"
      | None => "PCode"
      end
  end.

(** One turn of the sampling loop of [scoreKeyInRange] on the counters
    [(ok, valid)]. *)
Definition sampleStep (rows : list obj) (key : string) (min max : Q)
    (acc : nat * nat) (i : nat) : nat * nat :=
  let '(ok, valid) := acc in
  let v := parseCoordinate (match nth_error rows i with
                            | Some r => get r key
                            | None => VUndefined
                            end) in
  match v with
  | Fin x => (if Qle_bool min x && Qle_bool x max then S ok else ok, S valid)
  | _ => (ok, valid)
  end.

(** [scoreKeyInRange]: [ok / valid], an exact quotient of two counts of
    at most 1200; rounding it to binary64 changes no comparison the
    script makes with it. *)
Definition scoreKeyInRange (rows : list obj) (key : string) (min max : Q) : Q :=
  let sampleN := Nat.min 1200 (List.length rows) in
  let '(ok, valid) := fold_left (sampleStep rows key min max) (seq 0 sampleN) (0, 0)%nat in
  match valid with
  | O => 0%Q
  | S _ => Z.of_nat ok # Pos.of_nat valid
  end.

Record scoredKey : Type := { key : string; latScore : Q; lngScore : Q }.

(** [arr.sort(cmp)] for a numeric comparator: [x] goes before the first
    element it does not have to follow, so equal elements keep their order. *)
Fixpoint insertBy {A : Type} (cmp : A -> A -> Q) (x : A) (l : list A) : list A :=
  match l with
  | [] => [x]
  | y :: r => if Qle_bool (cmp x y) 0%Q then x :: l else y :: insertBy cmp x r
  end.

Definition sortNum {A : Type} (cmp : A -> A -> Q) (l : list A) : list A :=
  fold_right (insertBy cmp) [] l.

(** [a || b] where [a] is a string or [null] *)
Definition orKey (a b : option string) : option string :=
  match a with
  | Some s => if nonEmpty s then Some s else b
  | None => b
  end.

(** [/lat|latitude/i.test(k) && !/latrine/i.test(k)] and
    [/lon|lng|longitude/i.test(k)] *)
Definition latName (k : string) : bool :=
  test (Alt (word "lat") (word "latitude")) k && negb (test (word "latrine") k).

Definition lngName (k : string) : bool :=
  test (Alt (word "lon") (Alt (word "lng") (word "longitude"))) k.

(** The bands of [inferLatLngKeys].  Their upper ends 35.9 and 37.9 are
    no binary64 numbers; the binary64 the script compares with lies just
    below, with no binary64 in between, so that for a binary64 [x] the
    test [x <= 35.9] comes out the same on both. *)
Definition scoreKeys (rows : list obj) (keys : list string) : list scoredKey :=
  List.map (fun k => {| key := k;
                        latScore := scoreKeyInRange rows k 32.0%Q 35.9%Q;
                        lngScore := scoreKeyInRange rows k 34.0%Q 37.9%Q |}) keys.

(** The local [pickBestNamed] of [inferLatLngKeys]. *)
Definition pickBestNamed (scored : list scoredKey) (arr : list string)
    (scoreProp : scoredKey -> Q) : option string :=
  match arr with
  | [] => None
  | _ =>
      let ranked :=
        sortNum (fun a b => (snd b - snd a)%Q)
          (List.map (fun k => (k, match find (fun x => String.eqb (key x) k) scored with
                                  | Some x => scoreProp x
                                  | None => 0%Q
                                  end)) arr) in
      match ranked with
      | (k, s) :: _ => if Qle_bool 0.25%Q s then Some k else None
      | [] => None
      end
  end.

Record keyNames : Type := { pcodeKey : string; latKey : option string; lngKey : option string }.

Definition inferLatLngKeys (rows : list obj) : keyNames :=
  match rows with
  | [] => {| pcodeKey := "PCode"; latKey := None; lngKey := None |}
  | first :: _ =>
      let keys := JS.keys first in
      let nameLat := List.filter latName keys in
      let nameLng := List.filter lngName keys in
      let scored := scoreKeys rows keys in
      let bestLat :=
        find (fun x => Qle_bool 0.65%Q (latScore x))
             (sortNum (fun a b => (latScore b - latScore a)%Q) scored) in
      let bestLng :=
        find (fun x => Qle_bool 0.65%Q (lngScore x) &&
                       match bestLat with
                       | None => true
                       | Some b => differs (key x) (key b)
                       end)
             (sortNum (fun a b => (lngScore b - lngScore a)%Q) scored) in
      {| pcodeKey := inferPcodeKey keys;
         latKey := orKey (pickBestNamed scored nameLat latScore) (orKey (option_map key bestLat) None);
         lngKey := orKey (pickBestNamed scored nameLng lngScore) (orKey (option_map key bestLng) None) |}
  end.

Record coordsMeta : Type := {
  source : string;
  names : keyNames;
  mapped : nat;
  total : nat
}.

(** The identifier of a row: [String(r[pcodeKey] ?? r["PCode"] ?? "").trim()] *)
Definition rowPcode (pk : string) (r : obj) : string :=
  trim (toStr (nullish (nullish (get r pk) (get r "PCode")) (VStr ""))).

(** One turn of [for (const r of rows)] on the index and the counter. *)
Definition indexStep (pk lat lng : string) (acc : gmap string (Q * Q) * nat) (r : obj)
    : gmap string (Q * Q) * nat :=
  let p := rowPcode pk r in
  if negb (nonEmpty p) then acc
  else
    match parseCoordinate (get r lat), parseCoordinate (get r lng) with
    | Fin a, Fin b => (<[p := (a, b)]> (fst acc), S (snd acc))
    | _, _ => acc
    end.

(** [buildCoordsMapFromRows]; [src] is the [source] of [state.coordsMeta]. *)
Definition buildCoordsMapFromRows (src : string) (rows : list obj)
    : gmap string (Q * Q) * coordsMeta :=
  let meta := inferLatLngKeys rows in
  match latKey meta, lngKey meta with
  | Some lat, Some lng =>
      let '(mp, n) := fold_left (indexStep (pcodeKey meta) lat lng) rows (∅, 0%nat) in
      (mp, {| source := src; names := meta; mapped := n; total := List.length rows |})
  | _, _ =>
      (∅, {| source := src; names := meta; mapped := 0; total := List.length rows |})
  end.

(** A normalized record as the row object it is in the script: the
    coerced cells followed by the derived properties.  The flag list is
    an array there; to the coordinate code, which looks at a cell through
    [String(v)], an array is the text of its items joined by commas. *)
Definition rowObject (r : record) : obj :=
  let o := fields r in
  let o := JS.set o "__assessed" (VBool (__assessed r)) in
  let o := JS.set o "__siteStatus" (VStr (__siteStatus r)) in
  let o := JS.set o "__district" (VStr (__district r)) in
  let o := JS.set o "__cadaster" (VStr (__cadaster r)) in
  let o := JS.set o "__phoneStatus" (VStr (__phoneStatus r)) in
  let o := JS.set o "__qcAny" (VStr (__qcAny r)) in
  let o := JS.set o "__qcIssueCount" (VNum (__qcIssueCount r)) in
  let o := JS.set o "__qcFlags" (VStr (join "," (__qcFlags r))) in
  JS.set o "__search" (VStr (__search r)).

(** [setCoordsFromSpreadsheet]: the index and its description as stored
    in the state on every load. *)
Definition setCoordsFromSpreadsheet (rows : list record)
    : gmap string (Q * Q) * coordsMeta :=
  buildCoordsMapFromRows "sheet" (List.map rowObject rows).

(** ** Notions used to state the properties *)

(** [t] occurs in [s]. *)
Definition isSubstring (t s : string) : Prop := exists a b, s = a +:+ t +:+ b.

(** A discrete criterion is met verbatim, or is ["All"]. *)
Definition meets (criterion actual : string) : Prop :=
  criterion = "All" \/ actual = criterion.

(** The filter predicate in the words of the specification. *)
Definition passes (f : filters) (r : record) : Prop :=
  meets (district f) (__district r) /\
  meets (cadaster f) (__cadaster r) /\
  meets (siteStatus f) (__siteStatus r) /\
  meets (phoneStatus f) (__phoneStatus r) /\
  (qc f = "Any issue" -> __qcAny r = "Yes") /\
  (qc f = "No issues" -> __qcAny r = "No") /\
  (toLowerCase (trim (q f)) = "" \/ isSubstring (toLowerCase (trim (q f))) (__search r)).

(** Every character of [s] satisfies [p]. *)
Fixpoint allChars (p : ascii -> bool) (s : string) : bool :=
  match s with
  | EmptyString => true
  | String c r => p c && allChars p r
  end.

(** The characters of a printed finite number. *)
Definition plainChar (c : ascii) : bool :=
  isDigit c || Ascii.eqb c "." || Ascii.eqb c "-".

(** The three spellings of a set flag. *)
Definition yesText (s : string) : bool :=
  String.eqb s "yes" || String.eqb s "true" || String.eqb s "1".

(** A set flag in the words of the specification: the boolean true, the
    number 1, or one of the three spellings in any letter case. *)
Definition flaggedVerbatim (v : value) : bool :=
  match v with
  | VBool b => b
  | VNum n => numEq n 1
  | VStr s => yesText (toLowerCase s)
  | _ => false
  end.

(** The same, with the text compared after trimming white space. *)
Definition flaggedValue (v : value) : bool :=
  match v with
  | VBool b => b
  | VNum n => numEq n 1
  | VStr s => yesText (toLowerCase (trim s))
  | _ => false
  end.

(** Reading CSV back by the standard rules (RFC 4180): a field is quoted
    or not; inside quotes a doubled quote stands for one quote and
    commas, carriage returns and line feeds are data; outside, a comma
    ends the field, and a line feed, alone or after a carriage return,
    ends the record.  A carriage return that no line feed follows is
    kept as data. *)
Inductive csvState : Type := FieldStart | Unquoted | Quoted | QuoteSeen.

Definition carriageReturn : ascii := "013"%char.

Definition snoc (s : string) (c : ascii) : string := s +:+ String c EmptyString.

Fixpoint csvRun (st : csvState) (field : string) (row : list string)
    (done : list (list string)) (s : string) : list (list string) :=
  match s with
  | EmptyString => done ++ [row ++ [field]]
  | String c r =>
      let endField := csvRun FieldStart EmptyString (row ++ [field]) done r in
      let endRecord := csvRun FieldStart EmptyString [] (done ++ [row ++ [field]]) r in
      let data := csvRun Unquoted (snoc field c) row done r in
      let outside :=
        if Ascii.eqb c comma then endField
        else if Ascii.eqb c newline then endRecord
        else
          match r with
          | String d r' =>
              if Ascii.eqb c carriageReturn && Ascii.eqb d newline
              then csvRun FieldStart EmptyString [] (done ++ [row ++ [field]]) r'
              else data
          | EmptyString => data
          end in
      match st with
      | FieldStart =>
          if Ascii.eqb c dquote then csvRun Quoted field row done r else outside
      | Unquoted => outside
      | Quoted =>
          if Ascii.eqb c dquote then csvRun QuoteSeen field row done r
          else csvRun Quoted (snoc field c) row done r
      | QuoteSeen =>
          if Ascii.eqb c dquote then csvRun Quoted (snoc field c) row done r else outside
      end
  end.

Definition parseCsv (s : string) : list (list string) :=
  csvRun FieldStart EmptyString [] [] s.

(** The text of a cell as [esc] sees it. *)
Definition cellText (v : value) : string :=
  if isNullish v then EmptyString else toStr v.

Definition quoted (body : string) : string :=
  String dquote (body +:+ String dquote EmptyString).

(** The example field of the specification: He said, followed by hi in
    double quotes. *)
Definition heSaidHi : string :=
  "He said, " +:+ String dquote ("hi" +:+ String dquote EmptyString).

(** The rows that [scoreKeyInRange] samples: the first 1200 at most. *)
Definition sampledRows (rows : list obj) : list obj :=
  firstn (Nat.min 1200 (List.length rows)) rows.

Fixpoint finiteValues (vs : list jsnum) : list Q :=
  match vs with
  | [] => []
  | Fin x :: r => x :: finiteValues r
  | _ :: r => finiteValues r
  end.

(** The sampled values of a column that parse as a coordinate. *)
Definition parsedSample (rows : list obj) (key : string) : list Q :=
  finiteValues (List.map (fun r => parseCoordinate (get r key)) (sampledRows rows)).

Definition inBand (lo hi x : Q) : bool := Qle_bool lo x && Qle_bool x hi.

(** Number of elements as a rational. *)
Definition count {A : Type} (l : list A) : Q := inject_Z (Z.of_nat (List.length l)).

(** The first element of greatest score, [None] for an empty list. *)
Fixpoint firstMax {A : Type} (s : A -> Q) (l : list A) : option A :=
  match l with
  | [] => None
  | x :: r =>
      match firstMax s r with
      | None => Some x
      | Some y => if Qle_bool (s y) (s x) then Some x else Some y
      end
  end.

(** [x] stands in [l] after smaller scores only and before no greater one. *)
Definition firstBest {A : Type} (s : A -> Q) (l : list A) (x : A) : Prop :=
  exists l1 l2, l = l1 ++ x :: l2 /\
    (forall y, In y l1 -> (s y < s x)%Q) /\ (forall y, In y l2 -> (s y <= s x)%Q).

(** The best-scoring candidate among those that reach a threshold. *)
Definition bestAbove (thr : Q) (s : string -> Q) (cands : list string) : option string :=
  firstMax s (List.filter (fun k => Qle_bool thr (s k)) cands).

(** A list in descending order of score. *)
Fixpoint descending {A : Type} (s : A -> Q) (l : list A) : Prop :=
  match l with
  | [] => True
  | y :: r => (forall z, In z r -> (s z <= s y)%Q) /\ descending s r
  end.

(** [w] occurs in [s], letter case aside. *)
Definition containsCI (w s : string) : bool := includes (toLowerCase s) (toLowerCase w).

(** The two band scores of a column. *)
Definition latBand (rows : list obj) (k : string) : Q := scoreKeyInRange rows k 32.0%Q 35.9%Q.
Definition lngBand (rows : list obj) (k : string) : Q := scoreKeyInRange rows k 34.0%Q 37.9%Q.

(** The continuation that accepts a match. *)
Definition ok_ (_ : string) (c : captures) : option captures := Some c.

(** The entry of a column in the score table. *)
Definition scoreEntry (rows : list obj) (k : string) : scoredKey :=
  {| key := k; latScore := latBand rows k; lngScore := lngBand rows k |}.

(** The columns left for the longitude when [b] is the column that scores
    best for the latitude. *)
Definition otherThan (b : option string) (ks : list string) : list string :=
  match b with
  | Some k => List.filter (fun x => differs x k) ks
  | None => ks
  end.

(** The longitude column in the words of the specification: chosen like
    the latitude column, among the columns other than the one chosen for
    the latitude. *)
Definition lngKeyAsStated (rows : list obj) : option string :=
  match rows with
  | [] => None
  | first :: _ =>
      let ks := otherThan (latKey (inferLatLngKeys rows)) (JS.keys first) in
      orKey (bestAbove 0.25 (lngBand rows) (List.filter lngName ks))
            (orKey (bestAbove 0.65 (lngBand rows) ks) None)
  end.

(** The columns of a row set: the properties of its first row. *)
Definition columns (rows : list obj) : list string :=
  match rows with
  | [] => []
  | first :: _ => JS.keys first
  end.

(** The two coordinates of a row, when both parse to finite numbers. *)
Definition coordsOf (lat lng : string) (r : obj) : option (Q * Q) :=
  match parseCoordinate (get r lat), parseCoordinate (get r lng) with
  | Fin a, Fin b => Some (a, b)
  | _, _ => None
  end.

Definition hasCoords (lat lng : string) (r : obj) : bool :=
  match coordsOf lat lng r with Some _ => true | None => false end.

(** A row that enters the index: identifier not empty after trimming,
    both coordinates finite. *)
Definition mappable (pk lat lng : string) (r : obj) : bool :=
  nonEmpty (rowPcode pk r) && hasCoords lat lng r.

(** The coordinates of the last row with identifier [p] and two finite
    coordinates. *)
Definition lastWith (pk lat lng : string) (rows : list obj) (p : string) : option (Q * Q) :=
  match find (fun r => String.eqb (rowPcode pk r) p && hasCoords lat lng r) (rev rows) with
  | Some r => coordsOf lat lng r
  | None => None
  end.

(** A character that is no digit, point, comma or sign. *)
Definition wordChar (c : ascii) : bool :=
  negb (isDigit c || existsb_char (Ascii.eqb c) ".,+-").

(** The criteria that differ from their default, as query parameters in
    the order of [encodeFiltersToQuery]. *)
Definition nonDefaults (f : filters) : USP.params :=
  (if nonEmpty (q f) then [("q", q f)] else []) ++
  (if differs (district f) "All" then [("district", district f)] else []) ++
  (if differs (cadaster f) "All" then [("cadaster", cadaster f)] else []) ++
  (if differs (siteStatus f) "All" then [("siteStatus", siteStatus f)] else []) ++
  (if differs (phoneStatus f) "All" then [("phoneStatus", phoneStatus f)] else []) ++
  (if differs (qc f) "All" then [("qc", qc f)] else []).

(** A criterion the selector can hold: ["All"], or a value of the loaded
    records that is shown as an option. *)
Definition offered (v : string) (values : list string) : Prop :=
  v = "All" \/ (In v values /\ v <> "" /\ v <> "—").

(** A character that separates nothing in a query string. *)
Definition plainQueryChar (c : ascii) : bool :=
  negb (Ascii.eqb c "&" || Ascii.eqb c "=").

(** The parameter a criterion contributes to the query. *)
Definition paramOf (cond : bool) (v : string) : option string :=
  if cond then Some v else None.

(** [getCoordForRow] on the index and its description in the state:
    the index entry of the row's PCode cell when there is one, else the
    row's own cells under the detected columns. *)
Definition getCoordForRow (coordsByPcode : gmap string (Q * Q)) (meta : coordsMeta) (row : obj)
    : option (Q * Q) :=
  let pcode := trim (toStr (nullish (get row "PCode") (VStr ""))) in
  match (if nonEmpty pcode then coordsByPcode !! pcode else None) with
  | Some c => Some c
  | None =>
      match latKey (names meta), lngKey (names meta) with
      | Some lat, Some lng =>
          if nonEmpty lat && nonEmpty lng then
            match parseCoordinate (get row lat), parseCoordinate (get row lng) with
            | Fin a, Fin b => Some (a, b)
            | _, _ => None
            end
          else None
      | _, _ => None
      end
  end.

(** ** Indicators and charts *)

(** [r[k]] on a normalized record. *)
Definition cell (r : record) (k : string) : value := get (rowObject r) k.

(** [a + b] on two numbers. *)
Definition jsAdd (a b : jsnum) : jsnum :=
  match a, b with
  | Fin x, Fin y => Fin (x + y)
  | NaN, _ => NaN
  | _, NaN => NaN
  | Inf s, Inf t => if Bool.eqb s t then Inf s else NaN
  | Inf s, Fin _ => Inf s
  | Fin _, Inf t => Inf t
  end.

(** [n || 0] on a number: zero and NaN are falsy. *)
Definition orZero (n : jsnum) : jsnum :=
  match n with
  | Fin x => if Qeq_bool x 0 then Fin 0 else n
  | NaN => Fin 0
  | Inf _ => n
  end.

(** The property names every object literal inherits.  Under one of
    them [out[k]] is no number before the first write, and what
    [countBy] and [groupSum] then store is text, or nothing at all. *)
Definition objectPrototype : list string :=
  ["constructor"; "hasOwnProperty"; "isPrototypeOf"; "propertyIsEnumerable";
   "toLocaleString"; "toString"; "valueOf"; "__proto__";
   "__defineGetter__"; "__defineSetter__"; "__lookupGetter__"; "__lookupSetter__"].

Definition inherited (k : string) : bool := existsb (String.eqb k) objectPrototype.

(** [countBy]: the counts by key, [None] when a key is an inherited
    property name. *)
Definition countBy {A : Type} (rows : list A) (fnKey : A -> string)
    : option (gmap string nat) :=
  fold_left (fun out r =>
               match out with
               | Some m =>
                   let k := orElse (fnKey r) "—" in
                   if inherited k then None
                   else Some (<[k := S (match m !! k with Some n => n | None => 0%nat end)]> m)
               | None => None
               end) rows (Some ∅).

(** [groupSum]: the sums by key, [None] when a key is an inherited
    property name. *)
Definition groupSum {A : Type} (rows : list A) (fnKey : A -> string) (fnVal : A -> jsnum)
    : option (gmap string jsnum) :=
  fold_left (fun out r =>
               match out with
               | Some m =>
                   let k := orElse (fnKey r) "—" in
                   if inherited k then None
                   else Some (<[k := jsAdd (match m !! k with
                                            | Some v => orZero v
                                            | None => Fin 0
                                            end) (orZero (fnVal r))]> m)
               | None => None
               end) rows (Some ∅).

(** [rows.reduce((s, r) => s + toNum(r[col]), 0)] *)
Definition sumColumn (col : string) (rows : list record) : jsnum :=
  fold_left (fun s r => jsAdd s (toNum (cell r col))) rows (Fin 0).

(** [whole ? part / whole : 0] on two counts. *)
Definition ratio (part : Z) (whole : nat) : Q :=
  match whole with
  | O => 0%Q
  | S _ => part # Pos.of_nat whole
  end.

(** [(r) => r.__siteStatus === "Active"] and [(r) => r.__qcAny === "Yes"] *)
Definition isActive (r : record) : bool := String.eqb (__siteStatus r) "Active".
Definition hasIssue (r : record) : bool := String.eqb (__qcAny r) "Yes".

Module Kpi.

(** The numbers [updateKpis] computes before it formats them. *)
Record kpis : Type := {
  total : nat; totalRaw : nat;
  assessed : nat; assessedRaw : nat;
  active : nat; activeRaw : nat;
  qcRecords : nat; qcRaw : nat;
  hh : jsnum; ind : jsnum; structures : jsnum; latrines : jsnum;
  assessedShare : Q; activeShare : Q; qcShare : Q;
  pending : Z; pendingPct : Q
}.

End Kpi.

Definition updateKpis (rows rawRows : list record) : Kpi.kpis :=
  let total := List.length rows in
  let assessed := List.length (List.filter __assessed rows) in
  let active := List.length (List.filter isActive rows) in
  let qcRecords := List.length (List.filter hasIssue rows) in
  let pending := (Z.of_nat total - Z.of_nat assessed)%Z in
  {| Kpi.total := total;
     Kpi.totalRaw := List.length rawRows;
     Kpi.assessed := assessed;
     Kpi.assessedRaw := List.length (List.filter __assessed rawRows);
     Kpi.active := active;
     Kpi.activeRaw := List.length (List.filter isActive rawRows);
     Kpi.qcRecords := qcRecords;
     Kpi.qcRaw := List.length (List.filter hasIssue rawRows);
     Kpi.hh := sumColumn "Total number of Households" (List.filter isActive rows);
     Kpi.ind := sumColumn "Total number of Individuals" (List.filter isActive rows);
     Kpi.structures := sumColumn "Total number of Structures" (List.filter isActive rows);
     Kpi.latrines := sumColumn "Number of Latrines" (List.filter isActive rows);
     Kpi.assessedShare := ratio (Z.of_nat assessed) total;
     Kpi.activeShare := ratio (Z.of_nat active) total;
     Kpi.qcShare := ratio (Z.of_nat qcRecords) total;
     Kpi.pending := pending;
     Kpi.pendingPct := ratio pending total |}.

(** The data of the QC chart in [updateQualitySection]: one count per
    rule. *)
Definition qcCounts (rows : list record) : list nat :=
  List.map (fun rule =>
              fold_left (fun s r => (s + (if truthy (cell r (col rule)) then 1 else 0))%nat)
                        rows 0%nat)
           QC_RULES.

(** The sum of a list of rationals, and the rational a finite number
    stands for. *)
Fixpoint sumQ (l : list Q) : Q :=
  match l with
  | [] => 0%Q
  | x :: r => (x + sumQ r)%Q
  end.

Definition numQ (n : jsnum) : Q :=
  match n with Fin x => x | _ => 0%Q end.

(** The names of the derived properties of a record. *)
Definition derivedNames : list string :=
  ["__assessed"; "__siteStatus"; "__district"; "__cadaster"; "__phoneStatus";
   "__qcAny"; "__qcIssueCount"; "__qcFlags"; "__search"].

(** ** Markup and colours *)

(** [escapeHtml]: five passes, the ampersand first. *)
Definition escapeHtml (str : value) : string :=
  let s := toStr (nullish str (VStr "")) in
  let s := replaceAll (Ascii.eqb "&") "&amp;" s in
  let s := replaceAll (Ascii.eqb "<") "&lt;" s in
  let s := replaceAll (Ascii.eqb ">") "&gt;" s in
  let s := replaceAll (Ascii.eqb dquote) "&quot;" s in
  replaceAll (Ascii.eqb "'") "&#039;" s.

(** [x | 0]: the signed 32-bit integer congruent to [x]. *)
Definition toInt32 (x : Z) : Z := ((x + 2 ^ 31) mod 2 ^ 32 - 2 ^ 31)%Z.

(** [hashCode] on the UTF-16 code units of [String(str ?? "")].  The
    shift works on the 32-bit integer of [h]; the subtraction and the
    addition are those of numbers, which are exact here as long as the
    text has fewer than two million units. *)
Definition hashCode (units : list Z) : Z :=
  toInt32 (fold_left (fun h c => (toInt32 (toInt32 h * 2 ^ 5) - h + c)%Z) units 0%Z).

(** The hue [colorForKey] gives a category without a fixed colour:
    [Math.abs(hashCode(k)) % 360]. *)
Definition hue (units : list Z) : Z := (Z.abs (hashCode units) mod 360)%Z.

(** The text of a character after escaping, and of a text escaped
    character by character. *)
Definition escapeChar (c : ascii) : string :=
  if Ascii.eqb c "&" then "&amp;"
  else if Ascii.eqb c "<" then "&lt;"
  else if Ascii.eqb c ">" then "&gt;"
  else if Ascii.eqb c dquote then "&quot;"
  else if Ascii.eqb c "'" then "&#039;"
  else String c EmptyString.

Fixpoint escapeEach (s : string) : string :=
  match s with
  | EmptyString => EmptyString
  | String c r => escapeChar c +:+ escapeEach r
  end.

(** A character that opens or closes a tag or an attribute value. *)
Definition markupChar (c : ascii) : bool :=
  Ascii.eqb c "<" || Ascii.eqb c ">" || Ascii.eqb c dquote || Ascii.eqb c "'".

(** The polynomial hash with multiplier 31. *)
Definition polyHash (units : list Z) : Z :=
  fold_left (fun h c => (31 * h + c)%Z) units 0%Z.

(** ** Sheet selection *)

Definition PREFERRED_SHEET_NAME : string := "IAMP sites mapping".

(** A workbook as the spreadsheet library hands it over: the sheet
    names in order and the sheets by name. *)
Record workbook (sheet : Type) : Type := {
  SheetNames : list string;
  Sheets : gmap string sheet
}.

Arguments SheetNames {sheet} _.
Arguments Sheets {sheet} _.

(** [arr.indexOf(x)], [None] for -1 *)
Fixpoint indexOf (l : list string) (x : string) : option nat :=
  match l with
  | [] => None
  | y :: r => if String.eqb y x then Some 0%nat else option_map S (indexOf r x)
  end.

(** [pickSheet], [None] for [undefined]. *)
Definition pickSheet {sheet : Type} (wb : workbook sheet) : option string :=
  match Sheets wb !! PREFERRED_SHEET_NAME with
  | Some _ => Some PREFERRED_SHEET_NAME
  | None =>
      let names := SheetNames wb in
      let lower := List.map toLowerCase names in
      match indexOf lower (toLowerCase PREFERRED_SHEET_NAME) with
      | Some idx => nth_error names idx
      | None => nth_error names 0
      end
  end.

(** ** Application state *)

Module App.

(** The parts of [state], the module-level [filters] and the controls
    of the page that the data flow goes through. *)
Record state : Type := {
  raw : list record;
  filtered : list record;
  coordsByPcode : gmap string (Q * Q);
  coordsMeta : coordsMeta;
  filters : filters;
  dom : page
}.

End App.

(** [updateAll], as far as the state goes: the criteria are read from
    the controls and the view is computed from them. *)
Definition updateAll (st : App.state) : App.state :=
  let f := readFiltersFromUI (App.dom st) in
  {| App.raw := App.raw st;
     App.filtered := applyFilters f (App.raw st);
     App.coordsByPcode := App.coordsByPcode st;
     App.coordsMeta := App.coordsMeta st;
     App.filters := f;
     App.dom := App.dom st |}.

(** [onDataLoaded], with the collation of the browser and
    [window.location.search] as arguments. *)
Definition onDataLoaded (localeCompare : string -> string -> comparison) (search : string)
    (rows : list record) (st : App.state) : App.state :=
  let '(mp, meta) := setCoordsFromSpreadsheet rows in
  let pg := populateFilterControls localeCompare rows (App.dom st) in
  let '(pg', f) := applyQueryToFilters search pg in
  updateAll {| App.raw := rows;
               App.filtered := App.filtered st;
               App.coordsByPcode := mp;
               App.coordsMeta := meta;
               App.filters := f;
               App.dom := pg' |}.

(** [resetFilters] *)
Definition resetFilters (st : App.state) : App.state :=
  let pg := App.dom st in
  let pg' :=
    {| searchInput := setInput "";
       districtFilter := setValue (districtFilter pg) "All";
       cadasterFilter := setValue (cadasterFilter pg) "All";
       siteStatusFilter := setValue (siteStatusFilter pg) "All";
       phoneStatusFilter := setValue (phoneStatusFilter pg) "All";
       qcFilter := setValue (qcFilter pg) "All" |} in
  updateAll {| App.raw := App.raw st;
               App.filtered := App.filtered st;
               App.coordsByPcode := App.coordsByPcode st;
               App.coordsMeta := App.coordsMeta st;
               App.filters := readFiltersFromUI pg';
               App.dom := pg' |}.

(** [Math.max(1, n)] *)
Definition max1 (n : jsnum) : jsnum :=
  match n with
  | NaN => NaN
  | Inf true => Fin 1
  | Inf false => Inf false
  | Fin x => if Qle_bool 1 x then Fin x else Fin 1
  end.

(** [n * k] for a positive constant [k] *)
Definition times (n : jsnum) (k : Q) : jsnum :=
  match n with
  | Fin x => Fin (x * k)
  | _ => n
  end.

(** [applyRefresh]: the value stored in [state.refreshEveryMs], from
    the text of the minutes box and [state.sourceUrl]. *)
Definition applyRefresh (refreshMinutes sourceUrl : string) : jsnum :=
  let mins := toNum (VStr refreshMinutes) in
  if negb (nonEmpty sourceUrl) then Fin 0
  else times (times (max1 mins) 60) 1000.

(** ** Map *)

Definition getCategory (row : record) (mode : string) : string :=
  if String.eqb mode "QC"
  then (if String.eqb (__qcAny row) "Yes" then "QC issue" else "No QC issue")
  else if String.eqb mode "Phone call status" then orElse (__phoneStatus row) "—"
  else orElse (__siteStatus row) "—".

(** The two lists [updateMap] fills. *)
Record mapView : Type := {
  mappedPoints : list (record * (Q * Q) * string);
  missing : list record
}.

(** One turn of [for (const r of rows)] in [updateMap]. *)
Definition placeRow (st : App.state) (mode : string) (v : mapView) (r : record) : mapView :=
  match getCoordForRow (App.coordsByPcode st) (App.coordsMeta st) (rowObject r) with
  | Some coord =>
      {| mappedPoints := mappedPoints v ++ [(r, coord, getCategory r mode)];
         missing := missing v |}
  | None => {| mappedPoints := mappedPoints v; missing := missing v ++ [r] |}
  end.

(** [updateMap] once the map widget exists: [None] when the hint is
    shown in place of markers, else the rows with and without a
    coordinate. *)
Definition updateMap (st : App.state) (mode : string) (rows : list record) : option mapView :=
  if negb (0 <? size (App.coordsByPcode st))%nat then None
  else Some (fold_left (placeRow st mode) rows {| mappedPoints := []; missing := [] |}).

(** ** Export *)

Definition exportColumns : list string :=
  ["PCode"; "PCode Name"; "Governorate"; "District"; "Cadaster"; "Local Name";
   "Site Status"; "Phone call status"; "No response details";
   "Are you still living in this site"; "Record status";
   "Total number of Structures"; "Total number of Households";
   "Total number of Individuals"; "Number of Latrines";
   "QC - Any issue"; "QC - Issue count"; "__qcFlagsText"].

(** [sanitizeForExport]: the row object with the flags as one text. *)
Definition sanitizeForExport (r : record) : obj :=
  JS.set (rowObject r) "__qcFlagsText" (VStr (join "; " (__qcFlags r))).

(** The text the export buttons hand to [downloadText]. *)
Definition exportCsv (rows : list record) : string :=
  toCSV (List.map sanitizeForExport rows) exportColumns.

(** What the CSV reader does with the field [field] when it is followed
    by [tl]: by nothing, by a comma or by a line feed. *)
Definition fieldEnd (row : list string) (done : list (list string)) (field tl : string)
    : list (list string) :=
  match tl with
  | EmptyString => done ++ [row ++ [field]]
  | String c r =>
      if Ascii.eqb c comma then csvRun FieldStart EmptyString (row ++ [field]) done r
      else csvRun FieldStart EmptyString [] (done ++ [row ++ [field]]) r
  end.

Definition terminator (tl : string) : Prop :=
  match tl with
  | EmptyString => True
  | String c _ => c = comma \/ c = newline
  end.

(** A text that [esc] writes without quotes although it holds a
    carriage return. *)
Definition unquotedCR (t : string) : bool :=
  existsb_char (Ascii.eqb carriageReturn) t && negb (existsb_char needsQuoting t).

(** A character that may stand in the query of an address as it is:
    what the serializer leaves alone, and the marks it writes itself. *)
Definition urlSafe (c : ascii) : bool :=
  USP.unreserved c || existsb_char (Ascii.eqb c) "+%&=?".

(** * Properties *)

(** ** Strings *)

Lemma differs_true a b : differs a b = true <-> a <> b.
Proof.
  unfold differs. rewrite negb_true_iff. split.
  - intros H ->. now rewrite String.eqb_refl in H.
  - intros H. now apply String.eqb_neq.
Qed.

Lemma differs_false a b : differs a b = false <-> a = b.
Proof.
  unfold differs. rewrite negb_false_iff. apply String.eqb_eq.
Qed.

Lemma nonEmpty_false s : nonEmpty s = false <-> s = "".
Proof. destruct s; simpl; split; congruence. Qed.

Lemma nonEmpty_true s : nonEmpty s = true <-> s <> "".
Proof. destruct s; simpl; split; congruence. Qed.

Lemma startsWith_spec p s : startsWith p s = true <-> exists b, s = p +:+ b.
Proof.
  revert s. induction p as [|a p IH]; intros s; simpl.
  - split; [intros _; now exists s | reflexivity].
  - destruct s as [|c s].
    + split; [discriminate | intros [b Hb]; discriminate].
    + rewrite andb_true_iff, IH. split.
      * intros [Hc [b ->]]. apply Ascii.eqb_eq in Hc as ->. now exists b.
      * intros [b Hb]. injection Hb as -> ->. split; [apply Ascii.eqb_refl | now exists b].
Qed.

Lemma includes_spec s t : includes s t = true <-> isSubstring t s.
Proof.
  unfold isSubstring. induction s as [|c s IH].
  - simpl. rewrite orb_false_r, startsWith_spec. split.
    + intros [b Hb]. now exists "", b.
    + intros [a [b Hab]]. destruct a; [now exists b | discriminate].
  - cbn [includes]. rewrite orb_true_iff, startsWith_spec, IH. split.
    + intros [[b Hb] | [a [b Hab]]].
      * now exists "", b.
      * exists (String c a), b. simpl. now rewrite Hab.
    + intros [a [b Hab]]. destruct a as [|c' a].
      * left. now exists b.
      * right. injection Hab as _ ->. now exists a, b.
Qed.

(** ** Filter engine *)

Lemma early_return (c rest : bool) : (if c then false else rest) = negb c && rest.
Proof. now destruct c. Qed.

Lemma meets_iff crit act : differs crit "All" && differs act crit = false <-> meets crit act.
Proof.
  unfold meets. rewrite andb_false_iff, !differs_false. reflexivity.
Qed.

Lemma selector_iff sel k got want :
  String.eqb sel k && differs got want = false <-> (sel = k -> got = want).
Proof.
  rewrite andb_false_iff, differs_false. split.
  - intros [H | H] Hk; [|exact H]. apply String.eqb_neq in H. contradiction.
  - intros H. destruct (String.eqb sel k) eqn:E; [|now left].
    right. apply H. now apply String.eqb_eq.
Qed.

Lemma query_iff query blob :
  nonEmpty query && negb (includes blob query) = false <->
  query = "" \/ isSubstring query blob.
Proof.
  rewrite andb_false_iff, nonEmpty_false, negb_false_iff, includes_spec. reflexivity.
Qed.

Lemma keeps_passes f r :
  keeps f (toLowerCase (trim (q f))) r = true <-> passes f r.
Proof.
  unfold keeps, passes. rewrite !early_return, andb_true_r.
  rewrite !andb_true_iff, !negb_true_iff.
  rewrite !meets_iff, !selector_iff, query_iff. reflexivity.
Qed.

Lemma filter_sublist_of {A} (p : A -> bool) (l : list A) : List.filter p l `sublist_of` l.
Proof.
  induction l as [|x l IH]; simpl.
  - constructor.
  - destruct (p x); [now apply sublist_skip | now apply sublist_cons].
Qed.

Lemma filter_all {A} (p : A -> bool) (l : list A) :
  (forall x, p x = true) -> List.filter p l = l.
Proof.
  intros H. induction l as [|x l IH]; simpl; [reflexivity|].
  now rewrite H, IH.
Qed.

Lemma applyFilters_keeps (f : filters) (R : list record) :
  applyFilters f R `sublist_of` R /\
  (forall r, r ∈ applyFilters f R <-> r ∈ R /\ passes f r).
Proof.
  unfold applyFilters. split; [apply filter_sublist_of|].
  intros r. rewrite !list_elem_of_In, filter_In, keeps_passes. reflexivity.
Qed.

(** C5.  [applyFilters] returns a subsequence of the records in their
    original order; it keeps a record exactly when the record meets every
    discrete criterion (verbatim or ["All"]), the QC selector (["Any
    issue"] needs qcAny = Yes, ["No issues"] needs qcAny = No) and the
    trimmed, case-folded query (empty, or a substring of the search blob);
    the default criteria return the list unchanged. *)
Theorem applyFilters_spec (f : filters) (R : list record) :
  applyFilters f R `sublist_of` R /\
  (forall r, r ∈ applyFilters f R <-> r ∈ R /\ passes f r) /\
  (forall r R', passes f r -> applyFilters f (r :: R') = r :: applyFilters f R') /\
  (forall r R', ~ passes f r -> applyFilters f (r :: R') = applyFilters f R') /\
  (forall R1 R2, applyFilters f (R1 ++ R2) = applyFilters f R1 ++ applyFilters f R2) /\
  applyFilters defaultFilters R = R.
Proof.
  split; [apply applyFilters_keeps|].
  split; [apply applyFilters_keeps|].
  unfold applyFilters.
  split.
  { intros r R' Hp. simpl. apply keeps_passes in Hp. now rewrite Hp. }
  split.
  { intros r R' Hp. simpl.
    destruct (keeps f (toLowerCase (trim (q f))) r) eqn:K; [|reflexivity].
    now apply keeps_passes in K. }
  split.
  { intros R1 R2. apply List.filter_app. }
  apply filter_all. intros x. reflexivity.
Qed.

(** ** Record normalizer *)

Lemma get_set_other (o : obj) k k' v : k <> k' -> get (JS.set o k v) k' = get o k'.
Proof.
  intros Hne. induction o as [|[k0 v0] o IH]; simpl.
  - apply String.eqb_neq in Hne. now rewrite Hne.
  - destruct (String.eqb k0 k) eqn:E; simpl.
    + apply String.eqb_eq in E as ->.
      apply String.eqb_neq in Hne. now rewrite Hne.
    + destruct (String.eqb k0 k'); [reflexivity | exact IH].
Qed.

Lemma get_coerce_fields (fs : list string) (o : obj) k :
  ~ In k fs ->
  get (fold_left (fun o f => JS.set o f (VNum (toNum (get o f)))) fs o) k = get o k.
Proof.
  revert o. induction fs as [|f fs IH]; intros o Hk; simpl; [reflexivity|].
  rewrite IH by (intros H; apply Hk; now right).
  apply get_set_other. intros ->. apply Hk. now left.
Qed.

Lemma notIn_forallb (k : string) (l : list string) :
  forallb (differs k) l = true -> ~ In k l.
Proof.
  intros H Hin. rewrite forallb_forall in H. apply H in Hin.
  apply differs_true in Hin. congruence.
Qed.

(** The columns the derived fields read are no numeric fields, so the
    numeric coercion leaves them as they were. *)
Lemma get_coerced (r : obj) k :
  forallb (differs k) NUM_FIELDS = true -> get (coerceNumFields r) k = get r k.
Proof. intros H. apply get_coerce_fields. now apply notIn_forallb. Qed.

Ltac raw_cell := rewrite get_coerced by (vm_compute; reflexivity).

Lemma assessed_eq r :
  __assessed (normalizeRow r) = negb (String.eqb (normText (get r "Phone call status")) "").
Proof. unfold normalizeRow. cbn [__assessed]. now raw_cell. Qed.

Lemma siteStatus_eq r :
  __siteStatus (normalizeRow r) =
  if nonEmpty (normText (get r "Site Status")) then normText (get r "Site Status")
  else if __assessed (normalizeRow r) then "Not recorded" else "Not assessed".
Proof. rewrite assessed_eq. unfold normalizeRow. cbn [__siteStatus]. now repeat raw_cell. Qed.

Lemma phoneStatus_eq r :
  __phoneStatus (normalizeRow r) =
  if __assessed (normalizeRow r) then normText (get r "Phone call status") else "Not assessed".
Proof. rewrite assessed_eq. unfold normalizeRow. cbn [__phoneStatus]. now repeat raw_cell. Qed.

Lemma qcAny_eq r :
  __qcAny (normalizeRow r) =
  if String.eqb (orElse (normText (get r "QC - Any issue")) "No") "Yes" then "Yes" else "No".
Proof. unfold normalizeRow. cbn [__qcAny]. now raw_cell. Qed.

Lemma normText_cellText v : normText v = trim (cellText v).
Proof. unfold normText, cellText. now destruct (isNullish v). Qed.

(** C7.  [assessed] holds exactly when the text of the phone-call
    status cell, trimmed, is not empty; [siteStatus] is the trimmed text
    of the Site Status cell when that is not empty, else ["Not
    recorded"] for an assessed record and ["Not assessed"] otherwise;
    [phoneStatus] is the trimmed phone-call status of an assessed record
    and ["Not assessed"] otherwise.  A status padded with white space is
    taken without the padding, a status of white space only counts as
    empty. *)
Theorem normalizeRow_status (r : obj) :
  let phone := trim (cellText (get r "Phone call status")) in
  let site := trim (cellText (get r "Site Status")) in
  let rec := normalizeRow r in
  (__assessed rec = true <-> phone <> "") /\
  (site <> "" -> __siteStatus rec = site) /\
  (site = "" -> __assessed rec = true -> __siteStatus rec = "Not recorded") /\
  (site = "" -> __assessed rec = false -> __siteStatus rec = "Not assessed") /\
  (__assessed rec = true -> __phoneStatus rec = phone) /\
  (__assessed rec = false -> __phoneStatus rec = "Not assessed") /\
  (let padded := normalizeRow [("Phone call status", VStr "  Answer ");
                               ("Site Status", VStr " Active ")] in
   __assessed padded = true /\ __phoneStatus padded = "Answer" /\
   __siteStatus padded = "Active") /\
  (let blank := normalizeRow [("Phone call status", VStr "   "); ("Site Status", VStr "")] in
   __assessed blank = false /\ __phoneStatus blank = "Not assessed" /\
   __siteStatus blank = "Not assessed") /\
  (let noSite := normalizeRow [("Phone call status", VStr "No answer");
                               ("Site Status", VStr " ")] in
   __assessed noSite = true /\ __phoneStatus noSite = "No answer" /\
   __siteStatus noSite = "Not recorded").
Proof.
  intros phone site rec. subst rec.
  assert (Hp : normText (get r "Phone call status") = phone) by apply normText_cellText.
  assert (Hs : normText (get r "Site Status") = site) by apply normText_cellText.
  split.
  { rewrite assessed_eq, Hp. rewrite negb_true_iff. split.
    - intros H E. rewrite E in H. discriminate.
    - intros H. now apply String.eqb_neq. }
  rewrite siteStatus_eq, phoneStatus_eq, Hp, Hs.
  split; [intros H; apply nonEmpty_true in H; now rewrite H|].
  split; [intros H Ha; apply nonEmpty_false in H; now rewrite H, Ha|].
  split; [intros H Ha; apply nonEmpty_false in H; now rewrite H, Ha|].
  split; [intros Ha; now rewrite Ha|].
  split; [intros Ha; now rewrite Ha|].
  repeat split; reflexivity.
Qed.

Lemma normalizeRow_status_witness :
  let r := [("PCode", VStr "0001-01-001"); ("Phone call status", VStr " Answer ");
            ("Site Status", VStr "")] in
  __assessed (normalizeRow r) = true /\
  __siteStatus (normalizeRow r) = "Not recorded" /\
  __phoneStatus (normalizeRow r) = "Answer".
Proof.
  intros r.
  destruct (normalizeRow_status r) as (Ha & _ & Hs & _ & Hp & _).
  assert (A : __assessed (normalizeRow r) = true) by (apply Ha; discriminate).
  split; [exact A|]. split; [apply Hs; [reflexivity | exact A] | apply (Hp A)].
Defined.

(** C8.  [qcAny] is ["Yes"] exactly when the text of the "QC - Any
    issue" cell, trimmed, is the string ["Yes"], letter for letter, as
    for the cells [Yes] and [Yes] padded with white space; every other
    cell, among them [yes], [YES], [TRUE], [1], the boolean true, the
    number 1 and the empty cell, gives ["No"], and the criterion ["Any
    issue"] then drops the record whatever its QC flags are. *)
Theorem qcAny_exact (r : obj) :
  let cell := trim (cellText (get r "QC - Any issue")) in
  let rec := normalizeRow r in
  (__qcAny rec = "Yes" <-> cell = "Yes") /\
  (cell <> "Yes" -> __qcAny rec = "No") /\
  (In (get r "QC - Any issue") [VStr "Yes"; VStr "  Yes "] -> __qcAny rec = "Yes") /\
  (In (get r "QC - Any issue")
      [VStr "yes"; VStr "YES"; VStr "TRUE"; VStr "1"; VStr "true"; VStr "Y"; VStr "Yes.";
       VBool true; VNum (Fin 1); VStr ""; VStr "  "; VNull; VUndefined] ->
   __qcAny rec = "No") /\
  (forall f R, qc f = "Any issue" -> __qcAny rec = "No" -> rec ∉ applyFilters f R) /\
  (forall f R, qc f = "Any issue" -> In rec R -> __qcAny rec = "Yes" ->
     meets (district f) (__district rec) -> meets (cadaster f) (__cadaster rec) ->
     meets (siteStatus f) (__siteStatus rec) -> meets (phoneStatus f) (__phoneStatus rec) ->
     trim (q f) = "" -> rec ∈ applyFilters f R) /\
  (exists r0 : obj,
     __qcFlags (normalizeRow r0) <> [] /\
     get r0 "QC - Any issue" = VStr "yes" /\
     forall f, qc f = "Any issue" -> applyFilters f [normalizeRow r0] = []).
Proof.
  intros cell rec. subst rec.
  assert (Hc : normText (get r "QC - Any issue") = cell) by apply normText_cellText.
  assert (Hcase : forall t, __qcAny (normalizeRow r) = t ->
            (t = "Yes" /\ cell = "Yes") \/ (t = "No" /\ cell <> "Yes")).
  { intros t <-. rewrite qcAny_eq, Hc. unfold orElse.
    destruct cell as [|c s] eqn:E; simpl nonEmpty; cbv iota.
    - right. split; [reflexivity | discriminate].
    - destruct (String.eqb (String c s) "Yes") eqn:Y.
      + apply String.eqb_eq in Y. left. now split.
      + apply String.eqb_neq in Y. right. now split. }
  split; [|split; [|split; [|split; [|split; [|split]]]]].
  - destruct (Hcase _ eq_refl) as [[H1 H2] | [H1 H2]]; rewrite H1; split; congruence.
  - intros Hn. destruct (Hcase _ eq_refl) as [[H1 H2] | [H1 H2]]; congruence.
  - intros Hin. destruct (Hcase _ eq_refl) as [[H1 H2] | [H1 H2]]; [assumption|].
    exfalso. apply H2. subst cell. simpl in Hin.
    destruct Hin as [<- | [<- | []]]; reflexivity.
  - intros Hin. destruct (Hcase _ eq_refl) as [[H1 H2] | [H1 H2]]; [|assumption].
    exfalso. subst cell. simpl in Hin.
    repeat (destruct Hin as [Hin | Hin]; [rewrite <- Hin in H2; vm_compute in H2; discriminate|]).
    contradiction.
  - intros f R Hqc Hno Hin.
    apply (proj2 (applyFilters_keeps f R)) in Hin.
    destruct Hin as [_ (_ & _ & _ & _ & Hany & _)].
    specialize (Hany Hqc). congruence.
  - intros f R Hqc Hin Hyes Hd Hca Hs Hp Hq.
    apply (proj2 (applyFilters_keeps f R)). split; [now apply list_elem_of_In|].
    unfold passes. repeat split; try assumption.
    + intros _. exact Hyes.
    + intros Hno. rewrite Hqc in Hno. discriminate.
    + left. now rewrite Hq.
  - exists [("QC - Any issue", VStr "yes"); ("QC - Totals mismatch", VStr "Yes")].
    split; [vm_compute; discriminate|]. split; [reflexivity|].
    intros f Hqc. unfold applyFilters. simpl List.filter.
    destruct (keeps f _ _) eqn:K; [|reflexivity].
    apply keeps_passes in K. destruct K as (_ & _ & _ & _ & Hany & _).
    specialize (Hany Hqc). vm_compute in Hany. discriminate.
Qed.

Lemma qcAny_exact_witness :
  let r := [("PCode", VStr "0001-01-001"); ("QC - Any issue", VStr " Yes")] in
  __qcAny (normalizeRow r) = "Yes" /\
  normalizeRow r ∈ applyFilters {| q := ""; district := "All"; cadaster := "All";
                                   siteStatus := "All"; phoneStatus := "All";
                                   qc := "Any issue" |} [normalizeRow r].
Proof.
  intros r.
  destruct (qcAny_exact r) as (Hyes & _ & _ & _ & _ & Hkeep & _).
  assert (Y : __qcAny (normalizeRow r) = "Yes") by (apply Hyes; reflexivity).
  split; [exact Y|].
  apply Hkeep; try reflexivity; try (now left); exact Y.
Defined.

(** ** Printed numbers *)

Lemma allChars_app p a b :
  allChars p (a +:+ b) = allChars p a && allChars p b.
Proof. induction a as [|c a IH]; simpl; [reflexivity|]. now rewrite IH, andb_assoc. Qed.

Lemma allChars_weaken (p p' : ascii -> bool) s :
  (forall c, p c = true -> p' c = true) -> allChars p s = true -> allChars p' s = true.
Proof.
  intros H. induction s as [|c s IH]; simpl; [reflexivity|].
  rewrite !andb_true_iff. intros [Hc Hs]. split; [now apply H | now apply IH].
Qed.

Lemma plain_not_space c : plainChar c = true -> isSpace c = false.
Proof. destruct c as [[] [] [] [] [] [] [] []]; vm_compute; congruence. Qed.

Lemma plain_not_upper c : plainChar c = true -> isUpper c = false.
Proof. destruct c as [[] [] [] [] [] [] [] []]; vm_compute; congruence. Qed.

Lemma trimEnd_plain s : allChars plainChar s = true -> trimEnd s = s.
Proof.
  induction s as [|c s IH]; simpl; [reflexivity|].
  rewrite andb_true_iff. intros [Hc Hs]. rewrite (IH Hs).
  destruct s; [|reflexivity]. now rewrite (plain_not_space c Hc).
Qed.

Lemma trim_plain s : allChars plainChar s = true -> trim s = s.
Proof.
  intros H. unfold trim.
  assert (trimStart s = s) as ->.
  { destruct s as [|c s]; [reflexivity|]. simpl in *.
    apply andb_true_iff in H as [Hc _]. now rewrite (plain_not_space c Hc). }
  now apply trimEnd_plain.
Qed.

Lemma toLowerCase_plain s : allChars plainChar s = true -> toLowerCase s = s.
Proof.
  unfold toLowerCase. induction s as [|c s IH]; simpl; [reflexivity|].
  rewrite andb_true_iff. intros [Hc Hs]. rewrite (IH Hs).
  unfold lowerChar. now rewrite (plain_not_upper c Hc).
Qed.

Lemma uint_digits d : allChars isDigit (NilEmpty.string_of_uint d) = true.
Proof. induction d; simpl; auto. Qed.

Lemma nz_uint_digits d : allChars isDigit (NilZero.string_of_uint d) = true.
Proof. destruct d; try apply uint_digits. reflexivity. Qed.

Lemma digitChar_digit z : isDigit (digitChar z) = true.
Proof.
  destruct z as [|p|p]; try reflexivity;
    do 4 (try destruct p as [p|p|]; try reflexivity).
Qed.

Lemma fracDigits_digits fuel n d : allChars isDigit (fracDigits fuel n d) = true.
Proof.
  revert n. induction fuel as [|f IH]; intros n; simpl; [reflexivity|].
  destruct (n =? 0)%Z; [reflexivity|]. simpl. now rewrite digitChar_digit, IH.
Qed.

Lemma fracDigits_empty fuel n d : fracDigits (S fuel) n d = "" -> n = 0%Z.
Proof.
  cbn [fracDigits]. destruct (n =? 0)%Z eqn:E; [|discriminate].
  intros _. now apply Z.eqb_eq.
Qed.

Lemma digit_plain c : isDigit c = true -> plainChar c = true.
Proof. unfold plainChar. now intros ->. Qed.

Lemma numberToString_plain q : allChars plainChar (numberToString (Fin q)) = true.
Proof.
  unfold numberToString.
  assert (Hbody : forall fd, allChars isDigit fd = true ->
            allChars plainChar
              (NilZero.string_of_uint (N.to_uint (Z.to_N (Qfloor (Qabs q)))) +:+
               match fd with EmptyString => EmptyString | String a r => "." +:+ String a r end)
            = true).
  { intros fd Hfd. rewrite allChars_app, andb_true_iff. split.
    - apply (allChars_weaken isDigit); [apply digit_plain | apply nz_uint_digits].
    - apply (allChars_weaken isDigit _ _ digit_plain) in Hfd.
      destruct fd; [reflexivity|]. exact Hfd. }
  destruct (Qlt_le_dec q 0).
  - change (allChars plainChar (String "-" ?b)) with (allChars plainChar b).
    apply Hbody, fracDigits_digits.
  - apply Hbody, fracDigits_digits.
Qed.

Lemma append_one (a b : string) : a <> "" -> a +:+ b = "1" -> a = "1" /\ b = "".
Proof.
  destruct a as [|c [|c' a]]; intros Hne H; [congruence | |].
  - change (String c b = "1") in H. injection H as -> ->. now split.
  - change (String c (String c' (a +:+ b)) = "1") in H. discriminate.
Qed.

(** A number prints as [1] only if it is 1. *)
Lemma numberToString_one q : numberToString (Fin q) = "1" -> (q == 1)%Q.
Proof.
  unfold numberToString.
  destruct (Qlt_le_dec q 0) as [Hneg|Hpos]; [discriminate|].
  set (ip := Qfloor (Qabs q)).
  set (d := N.to_uint (Z.to_N ip)).
  intros H.
  assert (Hd : NilZero.string_of_uint d = "1" /\
               fracDigits 17 (Qnum (Qabs q) - ip * Z.pos (Qden (Qabs q)))
                             (Z.pos (Qden (Qabs q))) = "").
  { revert H. generalize (fracDigits 17 (Qnum (Qabs q) - ip * Z.pos (Qden (Qabs q)))
                                        (Z.pos (Qden (Qabs q)))).
    intros fd H.
    apply append_one in H; [|destruct d; discriminate].
    destruct H as [H1 H2]. split; [exact H1|].
    destruct fd; [reflexivity | discriminate]. }
  destruct Hd as [Hd Hf].
  assert (Hip : ip = 1%Z).
  { assert (Hu : d = Decimal.D1 Decimal.Nil).
    { destruct (NilZero.usu_gen d) as [Hu|Hu]; rewrite Hd in Hu; simpl in Hu; congruence. }
    assert (HN : Z.to_N ip = 1%N) by (apply DecimalN.Unsigned.to_uint_inj; exact Hu).
    destruct ip; simpl in HN; try discriminate. now injection HN as ->. }
  apply (fracDigits_empty 16) in Hf. rename Hf into Z0. rewrite Hip in Z0.
  rewrite <- (Qabs_pos q Hpos).
  unfold Qeq. simpl. lia.
Qed.

Lemma truthy_number n : truthy (VNum n) = numEq n 1.
Proof.
  unfold truthy. simpl isTrue. cbv iota. simpl isOne.
  destruct (numEq n 1) eqn:E; [reflexivity|].
  unfold normText. simpl isNullish. cbv iota. simpl toStr.
  destruct n as [| [] | q]; try reflexivity.
  rewrite (trim_plain _ (numberToString_plain q)).
  rewrite (toLowerCase_plain _ (numberToString_plain q)).
  destruct (String.eqb (numberToString (Fin q)) "1") eqn:E1.
  - apply String.eqb_eq, numberToString_one in E1.
    simpl in E. apply Qeq_bool_iff in E1. congruence.
  - rewrite orb_false_r.
    pose proof (numberToString_plain q) as Hp.
    destruct (String.eqb _ "yes") eqn:Ey;
      [apply String.eqb_eq in Ey; rewrite Ey in Hp; discriminate|].
    destruct (String.eqb _ "true") eqn:Et;
      [apply String.eqb_eq in Et; rewrite Et in Hp; discriminate|].
    reflexivity.
Qed.

(** ** QC rule evaluation *)

Lemma truthy_flaggedValue v : truthy v = flaggedValue v.
Proof.
  destruct v as [| | [] | n | s]; try reflexivity.
  apply truthy_number.
Qed.

Lemma fold_push {A B} (p : A -> bool) (g : A -> B) (l : list A) (acc : list B) :
  fold_left (fun flags x => if p x then flags ++ [g x] else flags) l acc =
  acc ++ List.map g (List.filter p l).
Proof.
  revert acc. induction l as [|x l IH]; intros acc; simpl.
  - now rewrite app_nil_r.
  - rewrite IH. destruct (p x); simpl; [|reflexivity].
    now rewrite <- app_assoc.
Qed.

Lemma collectFlags_eq (o : obj) :
  collectFlags o = List.map label (List.filter (fun rl => truthy (get o (col rl))) QC_RULES).
Proof. unfold collectFlags. now rewrite fold_push. Qed.

Lemma filter_ext_in {A} (p p' : A -> bool) (l : list A) :
  (forall x, In x l -> p x = p' x) -> List.filter p l = List.filter p' l.
Proof.
  induction l as [|x l IH]; intros H; simpl; [reflexivity|].
  rewrite (H x) by now left. rewrite IH; [reflexivity|].
  intros y Hy. apply H. now right.
Qed.

Lemma qcFlags_eq (r : obj) :
  __qcFlags (normalizeRow r) =
  List.map label (List.filter (fun rl => flaggedValue (get r (col rl))) QC_RULES).
Proof.
  unfold normalizeRow. cbn [__qcFlags]. rewrite collectFlags_eq. f_equal.
  apply filter_ext_in. intros rl Hin.
  rewrite truthy_flaggedValue. f_equal.
  apply get_coerce_fields.
  revert rl Hin. apply List.Forall_forall.
  repeat (constructor; [apply notIn_forallb; vm_compute; reflexivity|]). constructor.
Qed.

(** C6 (as amended).  [qcFlags] is the list, in rule order over the 14
    rules, of the labels of the rules whose cell is the boolean true, the
    number 1, or a text that after trimming white space is [yes], [true]
    or [1] in any letter case.  With all rule cells [No], [false] or 0 the
    list is empty; with only "QC - Totals mismatch" set to [Yes] it holds
    exactly the label of that rule. *)
Theorem qcFlags_spec (r : obj) :
  __qcFlags (normalizeRow r) =
    List.map label (List.filter (fun rl => flaggedValue (get r (col rl))) QC_RULES) /\
  List.length QC_RULES = 14%nat /\
  ((forall rl, In rl QC_RULES ->
      In (get r (col rl)) [VStr "No"; VBool false; VNum (Fin 0)]) ->
   __qcFlags (normalizeRow r) = []) /\
  (get r "QC - Totals mismatch" = VStr "Yes" ->
   (forall rl, In rl QC_RULES -> col rl <> "QC - Totals mismatch" ->
      flaggedValue (get r (col rl)) = false) ->
   __qcFlags (normalizeRow r) = ["Totals mismatch (structures/HH/IND vs components)"]).
Proof.
  split; [apply qcFlags_eq|]. split; [reflexivity|]. split.
  - intros Hall. rewrite qcFlags_eq.
    rewrite (filter_ext_in _ (fun _ => false)); [reflexivity|].
    intros rl Hin. specialize (Hall rl Hin). simpl in Hall.
    destruct Hall as [<-|[<-|[<-|[]]]]; reflexivity.
  - intros Hyes Hrest. rewrite qcFlags_eq.
    rewrite (filter_ext_in _ (fun rl => String.eqb (col rl) "QC - Totals mismatch"));
      [reflexivity|].
    intros rl Hin. destruct (String.eqb (col rl) "QC - Totals mismatch") eqn:E.
    + apply String.eqb_eq in E. now rewrite E, Hyes.
    + apply String.eqb_neq in E. now apply Hrest.
Qed.

(** C6, as stated, fails on a padded text: the cell [" yes "] sets the
    flag although it is none of the three spellings. *)
Lemma qcFlags_padded_text :
  let r := [("QC - Totals mismatch", VStr " yes ")] in
  __qcFlags (normalizeRow r) = ["Totals mismatch (structures/HH/IND vs components)"] /\
  List.map label (List.filter (fun rl => flaggedVerbatim (get r (col rl))) QC_RULES) = [] /\
  __qcFlags (normalizeRow r) <>
    List.map label (List.filter (fun rl => flaggedVerbatim (get r (col rl))) QC_RULES).
Proof. vm_compute. repeat split; discriminate. Qed.

(** ** CSV export *)

Lemma test_class (p : ascii -> bool) (s : string) : test (Chr p) s = existsb_char p s.
Proof.
  unfold test. induction s as [|c s IH]; simpl; [reflexivity|].
  destruct (p c); simpl; [reflexivity | exact IH].
Qed.

Lemma append_cons c (a b : string) : String c a +:+ b = String c (a +:+ b).
Proof. reflexivity. Qed.

Lemma append_nil_l (b : string) : "" +:+ b = b.
Proof. reflexivity. Qed.

Lemma append_assoc_s (a b c : string) : (a +:+ b) +:+ c = a +:+ (b +:+ c).
Proof. induction a as [|x a IH]; [reflexivity|]. rewrite !append_cons. now rewrite IH. Qed.

Lemma append_nil_r (a : string) : a +:+ "" = a.
Proof. induction a as [|x a IH]; [reflexivity|]. rewrite append_cons. now rewrite IH. Qed.

Lemma snoc_append (a : string) c (b : string) : snoc a c +:+ b = a +:+ String c b.
Proof. unfold snoc. now rewrite append_assoc_s. Qed.

Lemma not_needsQuoting c :
  needsQuoting c = false ->
  Ascii.eqb c dquote = false /\ Ascii.eqb c comma = false /\ Ascii.eqb c newline = false.
Proof.
  unfold needsQuoting. intros H. apply orb_false_iff in H as [H Hc].
  apply orb_false_iff in H as [Hq Hn]. auto.
Qed.

(** Outside quotes a character that is no quote, comma or line feed is
    data, unless it is a carriage return before a line feed. *)
Lemma csv_data_char st c r field row done :
  st = FieldStart \/ st = Unquoted \/ st = QuoteSeen ->
  needsQuoting c = false ->
  Ascii.eqb c carriageReturn = false \/
    (forall d r', r = String d r' -> Ascii.eqb d newline = false) ->
  csvRun st field row done (String c r) = csvRun Unquoted (snoc field c) row done r.
Proof.
  intros Hst Hc Hcr. apply not_needsQuoting in Hc as (Hq & Hcomma & Hn).
  assert (Hout : (if Ascii.eqb c comma
                  then csvRun FieldStart "" (row ++ [field]) done r
                  else if Ascii.eqb c newline
                  then csvRun FieldStart "" [] (done ++ [row ++ [field]]) r
                  else match r with
                       | String d r' =>
                           if Ascii.eqb c carriageReturn && Ascii.eqb d newline
                           then csvRun FieldStart "" [] (done ++ [row ++ [field]]) r'
                           else csvRun Unquoted (snoc field c) row done r
                       | EmptyString => csvRun Unquoted (snoc field c) row done r
                       end) = csvRun Unquoted (snoc field c) row done r).
  { rewrite Hcomma, Hn. destruct r as [|d r']; [reflexivity|].
    destruct Hcr as [Hcr | Hcr].
    - now rewrite Hcr.
    - now rewrite (Hcr d r' eq_refl), andb_false_r. }
  destruct Hst as [-> | [-> | ->]]; cbn [csvRun]; rewrite ?Hq; exact Hout.
Qed.

Lemma csv_unquoted_tail (acc s : string) :
  existsb_char needsQuoting s = false ->
  csvRun Unquoted acc [] [] s = [[acc +:+ s]].
Proof.
  revert acc. induction s as [|c s IH]; intros acc H.
  - cbn [csvRun app]. now rewrite append_nil_r.
  - cbn [existsb_char] in H. apply orb_false_iff in H as [Hc Hs].
    rewrite csv_data_char; [| auto | exact Hc |].
    + rewrite IH by assumption. now rewrite snoc_append.
    + right. intros d r' ->. cbn [existsb_char] in Hs.
      apply orb_false_iff in Hs as [Hd _]. now apply not_needsQuoting in Hd.
Qed.

Lemma csv_unquoted_field (s : string) :
  existsb_char needsQuoting s = false -> parseCsv s = [[s]].
Proof.
  unfold parseCsv. destruct s as [|c s]; intros H; [reflexivity|].
  cbn [existsb_char] in H. apply orb_false_iff in H as [Hc Hs].
  rewrite csv_data_char; [| auto | exact Hc |].
  - now rewrite csv_unquoted_tail.
  - right. intros d r' ->. cbn [existsb_char] in Hs.
    apply orb_false_iff in Hs as [Hd _]. now apply not_needsQuoting in Hd.
Qed.

Lemma csv_quoted_tail (acc s : string) :
  csvRun Quoted acc [] []
    (replaceAll (Ascii.eqb dquote) (String dquote (String dquote "")) s +:+ String dquote "")
  = [[acc +:+ s]].
Proof.
  revert acc. induction s as [|c s IH]; intros acc.
  - cbn [replaceAll]. rewrite append_nil_l. cbn [csvRun app].
    rewrite Ascii.eqb_refl. now rewrite append_nil_r.
  - cbn [replaceAll]. destruct (Ascii.eqb dquote c) eqn:E.
    + apply Ascii.eqb_eq in E as <-. rewrite !append_cons, append_nil_l.
      cbn [csvRun]. rewrite Ascii.eqb_refl.
      rewrite IH. now rewrite snoc_append.
    + rewrite append_cons. cbn [csvRun]. rewrite Ascii.eqb_sym, E.
      rewrite IH. now rewrite snoc_append.
Qed.

Lemma esc_cases (v : value) :
  esc v = if existsb_char needsQuoting (cellText v)
          then quoted (replaceAll (Ascii.eqb dquote) (String dquote (String dquote ""))
                                  (cellText v))
          else cellText v.
Proof. unfold esc. fold (cellText v). now rewrite test_class. Qed.

(** C10.  [toCSV] joins the escaped header and the escaped cells of each
    row with commas and the lines with line feeds; a field without quote,
    comma or line feed is emitted unchanged, any other one is wrapped in
    quotes with its quotes doubled; read back by the standard rules a
    field gives the original text; the example field (He said, then hi
    in quotes) is written in quotes with the inner quotes doubled. *)
Theorem toCSV_spec (rows : list obj) (columns : list string) :
  toCSV rows columns =
    join (String newline "")
      (List.map (join ",")
         (List.map (fun c => esc (VStr c)) columns ::
          List.map (fun r => List.map (fun c => esc (get r c)) columns) rows)) /\
  (forall v, existsb_char needsQuoting (cellText v) = false -> esc v = cellText v) /\
  (forall v, existsb_char needsQuoting (cellText v) = true ->
     esc v = quoted (replaceAll (Ascii.eqb dquote) (String dquote (String dquote ""))
                                (cellText v))) /\
  (forall v, parseCsv (esc v) = [[cellText v]]) /\
  esc (VStr heSaidHi) =
    quoted ("He said, " +:+ String dquote (String dquote
              ("hi" +:+ String dquote (String dquote "")))) /\
  parseCsv (esc (VStr heSaidHi)) = [[heSaidHi]].
Proof.
  split.
  { unfold toCSV. cbn [List.map]. f_equal. f_equal.
    now rewrite List.map_map. }
  split; [intros v H; now rewrite esc_cases, H|].
  split; [intros v H; now rewrite esc_cases, H|].
  split; [|split; reflexivity].
  intros v. rewrite esc_cases.
  destruct (existsb_char needsQuoting (cellText v)) eqn:E.
  - unfold quoted, parseCsv. cbn [csvRun]. rewrite Ascii.eqb_refl.
    apply csv_quoted_tail.
  - now apply csv_unquoted_field.
Qed.

(** ** Coordinate band scoring *)

Lemma sample_loop (rows pre l : list obj) key lo hi (n : nat) acc :
  rows = pre ++ l -> (n <= List.length l)%nat ->
  fold_left (sampleStep rows key lo hi) (seq (List.length pre) n) acc =
  fold_left (fun a r =>
               match parseCoordinate (get r key) with
               | Fin x => (if inBand lo hi x then S (fst a) else fst a, S (snd a))
               | _ => a
               end) (firstn n l) acc.
Proof.
  revert pre l acc. induction n as [|n IH]; intros pre l acc Hrows Hn; [reflexivity|].
  destruct l as [|r l]; [simpl in Hn; lia|].
  cbn [seq firstn fold_left].
  assert (Hstep : sampleStep rows key lo hi acc (List.length pre) =
                  match parseCoordinate (get r key) with
                  | Fin x => (if inBand lo hi x then S (fst acc) else fst acc, S (snd acc))
                  | _ => acc
                  end).
  { unfold sampleStep. destruct acc as [ok valid].
    rewrite Hrows, nth_error_app2 by lia. rewrite Nat.sub_diag. reflexivity. }
  rewrite Hstep.
  replace (S (List.length pre)) with (List.length (pre ++ [r]))
    by (rewrite length_app; simpl; lia).
  apply IH; [now rewrite <- app_assoc | simpl in Hn; lia].
Qed.

Lemma sample_counts (l : list obj) key lo hi (ok valid : nat) :
  fold_left (fun a r =>
               match parseCoordinate (get r key) with
               | Fin x => (if inBand lo hi x then S (fst a) else fst a, S (snd a))
               | _ => a
               end) l (ok, valid) =
  let vs := finiteValues (List.map (fun r => parseCoordinate (get r key)) l) in
  ((ok + List.length (List.filter (inBand lo hi) vs))%nat, (valid + List.length vs)%nat).
Proof.
  revert ok valid. induction l as [|r l IH]; intros ok valid; simpl.
  - now rewrite !Nat.add_0_r.
  - destruct (parseCoordinate (get r key)) as [| b | x]; try apply IH.
    rewrite IH. simpl. destruct (inBand lo hi x); simpl; f_equal; lia.
Qed.

Lemma score_counts rows key lo hi :
  scoreKeyInRange rows key lo hi =
  match List.length (parsedSample rows key) with
  | O => 0%Q
  | S _ => Z.of_nat (List.length (List.filter (inBand lo hi) (parsedSample rows key)))
           # Pos.of_nat (List.length (parsedSample rows key))
  end.
Proof.
  unfold scoreKeyInRange.
  rewrite (sample_loop rows [] rows key lo hi _ (0, 0)%nat eq_refl) by lia.
  rewrite sample_counts. reflexivity.
Qed.

Lemma Zpos_of_nat_S n : Z.pos (Pos.of_nat (S n)) = Z.of_nat (S n).
Proof. rewrite <- Pos.of_nat_succ, Zpos_P_of_succ_nat. lia. Qed.

Lemma filter_length_le {A} (p : A -> bool) (l : list A) :
  (List.length (List.filter p l) <= List.length l)%nat.
Proof. induction l as [|x l IH]; simpl; [lia|]. destruct (p x); simpl; lia. Qed.

Lemma score_range rows key lo hi :
  (0 <= scoreKeyInRange rows key lo hi <= 1)%Q.
Proof.
  rewrite score_counts.
  pose proof (filter_length_le (inBand lo hi) (parsedSample rows key)) as Hle.
  destruct (List.length (parsedSample rows key)) as [|v] eqn:E.
  - split; unfold Qle; simpl; lia.
  - split; unfold Qle; cbn [Qnum Qden]; rewrite ?Zpos_of_nat_S; lia.
Qed.

(** C2.  The score of a column for a band is the share of in-band values
    among the values, taken from the first 1200 rows at most, that parse
    as a coordinate; it is 0 when no sampled value parses, and always lies
    between 0 and 1.  The latitude band is [32.0, 35.9], the longitude
    band [34.0, 37.9]. *)
Theorem scoreKeyInRange_spec (rows : list obj) (k : string) (lo hi : Q) :
  let parsed := parsedSample rows k in
  let score := scoreKeyInRange rows k lo hi in
  List.length (sampledRows rows) = Nat.min 1200 (List.length rows) /\
  (parsed = [] -> score == 0)%Q /\
  (parsed <> [] -> score == count (List.filter (inBand lo hi) parsed) / count parsed)%Q /\
  (0 <= score <= 1)%Q /\
  (forall x, inBand lo hi x = true <-> lo <= x <= hi)%Q /\
  (forall keys, scoreKeys rows keys =
     List.map (fun k => {| key := k;
                           latScore := scoreKeyInRange rows k 32.0 35.9;
                           lngScore := scoreKeyInRange rows k 34.0 37.9 |}) keys)%Q.
Proof.
  intros parsed score. subst parsed score.
  split.
  { unfold sampledRows. rewrite length_firstn. lia. }
  split.
  { intros H. rewrite score_counts, H. reflexivity. }
  split.
  { intros H. rewrite score_counts. unfold count.
    destruct (parsedSample rows k) as [|x l] eqn:E; [congruence|].
    set (okn := List.length (List.filter (inBand lo hi) (x :: l))).
    cbn [List.length]. unfold Qeq, Qdiv, Qmult, Qinv, inject_Z.
    cbn [Qnum Qden]. rewrite Zpos_of_nat_S.
    change (Z.of_nat (S (List.length l))) with (Z.pos (Pos.of_succ_nat (List.length l))).
    cbn [Qnum Qden]. lia. }
  split; [apply score_range|].
  split.
  { intros x. unfold inBand. rewrite andb_true_iff, !Qle_bool_iff. reflexivity. }
  reflexivity.
Qed.

(** ** Sorting by score and taking the first hit *)

Ltac qprop :=
  repeat match goal with
  | H : Qle_bool _ _ = true |- _ => apply Qle_bool_iff in H
  | H : Qle_bool ?a ?b = false |- _ =>
      assert (b < a)%Q by (apply Qnot_le_lt; rewrite <- Qle_bool_iff; congruence); clear H
  end.

Section Sorting.
Context {A : Type} (s : A -> Q).

Local Abbreviation cmp := (fun a b : A => (s b - s a)%Q).

Lemma In_insertBy x y (l : list A) : In y (insertBy cmp x l) <-> y = x \/ In y l.
Proof.
  induction l as [|z l IH]; simpl.
  - intuition.
  - destruct (Qle_bool (cmp x z) 0); simpl; rewrite ?IH; intuition.
Qed.

Lemma descending_insertBy x (l : list A) :
  descending s l -> descending s (insertBy cmp x l).
Proof.
  induction l as [|z l IH]; simpl; [intuition|].
  intros [Hz Hl]. destruct (Qle_bool (cmp x z) 0) eqn:E; cbv beta in E; qprop.
  - simpl. split; [|split; assumption].
    intros y [<- | Hy]; [lra|]. specialize (Hz y Hy). lra.
  - simpl. split; [|now apply IH].
    intros y Hy. apply In_insertBy in Hy as [-> | Hy]; [lra | now apply Hz].
Qed.

Lemma descending_sortNum (l : list A) : descending s (sortNum cmp l).
Proof.
  induction l as [|x l IH]; simpl; [exact I|]. now apply descending_insertBy.
Qed.

Lemma find_first_In (P : A -> bool) (l : list A) y :
  find P l = Some y -> In y l.
Proof. intros H. now apply find_some in H. Qed.

(** Inserting [x] into a sorted list changes the first hit only when [x]
    is a hit that does not score less than the old first hit. *)
Lemma find_insertBy (P : A -> bool) x (l : list A) :
  descending s l ->
  find P (insertBy cmp x l) =
  match find P l with
  | None => if P x then Some x else None
  | Some y => if P x && Qle_bool (s y) (s x) then Some x else Some y
  end.
Proof.
  induction l as [|z l IH]; [reflexivity|].
  intros [Hz Hl]. cbn [insertBy].
  destruct (Qle_bool (cmp x z) 0) eqn:E; cbv beta in E.
  - cbn [find]. destruct (P x);
      [|cbn [andb]; destruct (P z); [reflexivity | now destruct (find P l)]].
    destruct (P z) eqn:Pz.
    + assert (Qle_bool (s z) (s x) = true) as -> by (apply Qle_bool_iff; qprop; lra).
      now destruct (find P l).
    + destruct (find P l) as [y|] eqn:F; [|now rewrite ?F].
      assert (Qle_bool (s y) (s x) = true) as ->; [|reflexivity].
      apply Qle_bool_iff. apply find_first_In in F. specialize (Hz y F). qprop. lra.
  - cbn [find]. destruct (P z) eqn:Pz.
    + assert (Qle_bool (s z) (s x) = false) as ->.
      { destruct (Qle_bool (s z) (s x)) eqn:E'; [|reflexivity]. qprop. lra. }
      now rewrite andb_false_r.
    + now apply IH.
Qed.

Lemma find_sortNum (P : A -> bool) (l : list A) :
  find P (sortNum cmp l) = firstMax s (List.filter P l).
Proof.
  induction l as [|x l IH]; [reflexivity|].
  cbn [sortNum fold_right]. fold (sortNum cmp l).
  rewrite find_insertBy by apply descending_sortNum. rewrite IH.
  cbn [List.filter]. destruct (P x); cbn [firstMax andb];
    now destruct (firstMax s (List.filter P l)).
Qed.

Lemma head_sortNum (l : list A) : hd_error (sortNum cmp l) = firstMax s l.
Proof.
  rewrite <- (filter_all (fun _ => true) l) at 2 by reflexivity.
  rewrite <- find_sortNum. now destruct (sortNum cmp l).
Qed.

(** Taking the best and then checking the threshold, or taking the best
    of those that reach the threshold, is the same. *)
Lemma firstMax_above thr (l : list A) :
  firstMax s (List.filter (fun x => Qle_bool thr (s x)) l) =
  match firstMax s l with
  | Some m => if Qle_bool thr (s m) then Some m else None
  | None => None
  end.
Proof.
  induction l as [|x l IH]; [reflexivity|].
  cbn [List.filter firstMax].
  destruct (Qle_bool thr (s x)) eqn:Ex.
  - cbn [firstMax]. rewrite IH.
    destruct (firstMax s l) as [y|]; [|now rewrite Ex].
    destruct (Qle_bool thr (s y)) eqn:Ey.
    + destruct (Qle_bool (s y) (s x)); now rewrite ?Ex, ?Ey.
    + assert (Qle_bool (s y) (s x) = true) as -> by (apply Qle_bool_iff; qprop; lra).
      now rewrite Ex.
  - rewrite IH. destruct (firstMax s l) as [y|]; [|now rewrite Ex].
    destruct (Qle_bool (s y) (s x)) eqn:Eyx.
    + rewrite Ex.
      destruct (Qle_bool thr (s y)) eqn:Ey; [|reflexivity]. qprop. lra.
    + reflexivity.
Qed.

Lemma firstMax_firstBest (l : list A) x : firstMax s l = Some x -> firstBest s l x.
Proof.
  revert x. induction l as [|z l IH]; intros x; [discriminate|].
  cbn [firstMax]. destruct (firstMax s l) as [y|] eqn:F.
  - destruct (IH y eq_refl) as (l1 & l2 & -> & H1 & H2).
    destruct (Qle_bool (s y) (s z)) eqn:E; intros [= <-]; qprop.
    + exists [], (l1 ++ y :: l2). split; [reflexivity|]. split; [intros ? []|].
      intros w Hw. apply in_app_or in Hw as [Hw | [<- | Hw]].
      * specialize (H1 w Hw). lra.
      * assumption.
      * specialize (H2 w Hw). lra.
    + exists (z :: l1), l2. split; [reflexivity|]. split; [|assumption].
      intros w [<- | Hw]; [assumption | now apply H1].
  - intros [= <-]. destruct l; [|simpl in F; destruct (firstMax s l); [destruct (Qle_bool _ _)|]; discriminate].
    exists [], []. repeat split; intros ? [].
Qed.

Lemma firstBest_unique (l : list A) x y :
  firstBest s l x -> firstBest s l y -> x = y.
Proof.
  intros (l1 & l2 & E1 & A1 & B1) (k1 & k2 & E2 & A2 & B2).
  rewrite E1 in E2. clear E1. revert k1 E2 A2.
  induction l1 as [|a l1 IH]; intros k1 E2 A2.
  - destruct k1 as [|b k1]; simpl in E2.
    + now injection E2.
    + injection E2 as -> ->.
      assert (s y <= s b)%Q by (apply B1, in_or_app; right; now left).
      assert (s b < s y)%Q by (apply A2; now left). lra.
  - destruct k1 as [|b k1]; simpl in E2.
    + injection E2 as -> <-.
      assert (s x <= s y)%Q by (apply B2, in_or_app; right; now left).
      assert (s y < s x)%Q by (apply A1; now left). lra.
    + injection E2 as -> E2. apply (IH (fun w Hw => A1 w (or_intror Hw)) k1 E2).
      intros w Hw. apply A2. now right.
Qed.

Lemma firstMax_iff (l : list A) x : firstMax s l = Some x <-> firstBest s l x.
Proof.
  split; [apply firstMax_firstBest|].
  intros H. destruct (firstMax s l) as [y|] eqn:F.
  - apply firstMax_firstBest in F. f_equal. now apply (firstBest_unique l).
  - destruct H as (l1 & l2 & -> & _). destruct l1; simpl in F;
      destruct (firstMax s _); try destruct (Qle_bool _ _); discriminate.
Qed.

End Sorting.

(** ** Name patterns *)

Lemma run_word (w t : string) (c : captures) k :
  run (word w) t c k =
  if startsWith (toLowerCase w) (toLowerCase t)
  then run (word w) t c k else None.
Proof.
  revert t. induction w as [|a w IH]; intros t; [reflexivity|].
  destruct t as [|b t]; [reflexivity|].
  cbn [word run chi toLowerCase smap startsWith].
  rewrite (Ascii.eqb_sym (lowerChar a)).
  destruct (Ascii.eqb (lowerChar b) (lowerChar a)); [|reflexivity].
  cbn [andb]. apply IH.
Qed.

Lemma run_word_hit (w t : string) (c : captures) :
  startsWith (toLowerCase w) (toLowerCase t) = true ->
  exists m, run (word w) t c ok_ = Some m.
Proof.
  revert t. induction w as [|a w IH]; intros t H.
  - now exists c.
  - destruct t as [|b t]; [discriminate|].
    cbn [word run chi toLowerCase smap startsWith] in *.
    apply andb_true_iff in H as [Hc Ht].
    rewrite Ascii.eqb_sym, Hc. now apply IH.
Qed.

Lemma test_word (w s : string) : test (word w) s = containsCI w s.
Proof.
  unfold test, containsCI. induction s as [|b s IH].
  - change (toLowerCase "") with "". cbn [exec includes]. fold ok_. rewrite run_word.
    change (toLowerCase "") with "". rewrite orb_false_r.
    destruct (startsWith (toLowerCase w) "") eqn:E; [|reflexivity].
    now destruct (run_word_hit w "" [] E) as [m ->].
  - cbn [exec]. fold ok_. rewrite run_word.
    change (toLowerCase (String b s)) with (String (lowerChar b) (toLowerCase s)).
    cbn [includes].
    change (String (lowerChar b) (toLowerCase s)) with (toLowerCase (String b s)).
    destruct (startsWith (toLowerCase w) (toLowerCase (String b s))) eqn:E.
    + now destruct (run_word_hit w (String b s) [] E) as [m ->].
    + exact IH.
Qed.

Lemma test_alt (a b : re) (s : string) : test (Alt a b) s = test a s || test b s.
Proof.
  unfold test. induction s as [|c s IH]; cbn [exec run].
  - destruct (run a "" [] _); [reflexivity|]. now destruct (run b "" [] _).
  - destruct (run a (String c s) [] _); [reflexivity|].
    destruct (run b (String c s) [] _).
    + now rewrite orb_true_r.
    + exact IH.
Qed.

Lemma latName_spec k :
  latName k = (containsCI "lat" k || containsCI "latitude" k) && negb (containsCI "latrine" k).
Proof. unfold latName. now rewrite test_alt, !test_word. Qed.

Lemma lngName_spec k :
  lngName k = containsCI "lon" k || containsCI "lng" k || containsCI "longitude" k.
Proof. unfold lngName. rewrite !test_alt, !test_word. now rewrite orb_assoc. Qed.

(** ** Column inference *)

Lemma firstMax_map {A B} (f : A -> B) (s : B -> Q) (l : list A) :
  firstMax s (List.map f l) = option_map f (firstMax (fun x => s (f x)) l).
Proof.
  induction l as [|x l IH]; [reflexivity|].
  cbn [List.map firstMax]. rewrite IH.
  destruct (firstMax _ l); cbn [option_map]; [|reflexivity].
  now destruct (Qle_bool _ _).
Qed.

Lemma filter_map_comm {A B} (f : A -> B) (P : B -> bool) (l : list A) :
  List.filter P (List.map f l) = List.map f (List.filter (fun x => P (f x)) l).
Proof.
  induction l as [|x l IH]; [reflexivity|].
  cbn [List.map List.filter]. rewrite IH. now destruct (P (f x)).
Qed.

Lemma filter_and {A} (P Q : A -> bool) (l : list A) :
  List.filter (fun x => P x && Q x) l = List.filter P (List.filter Q l).
Proof.
  induction l as [|x l IH]; [reflexivity|].
  cbn [List.filter]. rewrite IH.
  destruct (Q x); cbn [List.filter]; [|now rewrite andb_false_r].
  rewrite andb_true_r. now destruct (P x).
Qed.

Lemma firstMax_ext {A} (s s' : A -> Q) (l : list A) :
  (forall x, In x l -> s x = s' x) -> firstMax s l = firstMax s' l.
Proof.
  induction l as [|x l IH]; intros H; [reflexivity|].
  cbn [firstMax]. rewrite IH by (intros y Hy; apply H; now right).
  destruct (firstMax s' l) as [y|] eqn:F; [|reflexivity].
  rewrite (H x) by now left.
  assert (In y l) as Hy.
  { apply firstMax_firstBest in F. destruct F as (l1 & l2 & -> & _).
    apply in_or_app. right. now left. }
  rewrite (H y) by now right. reflexivity.
Qed.

Lemma scoreKeys_entries rows ks : scoreKeys rows ks = List.map (scoreEntry rows) ks.
Proof. reflexivity. Qed.

Lemma find_entry rows (ks : list string) k :
  In k ks ->
  find (fun x => String.eqb (key x) k) (List.map (scoreEntry rows) ks) = Some (scoreEntry rows k).
Proof.
  induction ks as [|k' ks IH]; intros Hin; [destruct Hin|].
  cbn [List.map find scoreEntry key]. destruct (String.eqb k' k) eqn:E.
  - apply String.eqb_eq in E. now subst.
  - apply IH. destruct Hin as [->|H]; [|exact H].
    now rewrite String.eqb_refl in E.
Qed.

Lemma pickBestNamed_best rows (ks arr : list string) (prop : scoredKey -> Q) :
  incl arr ks ->
  pickBestNamed (scoreKeys rows ks) arr prop =
  bestAbove 0.25 (fun k => prop (scoreEntry rows k)) arr.
Proof.
  intros Hincl. unfold bestAbove. rewrite firstMax_above.
  unfold pickBestNamed. rewrite scoreKeys_entries.
  set (pairOf := fun k : string =>
         (k, match find (fun x => String.eqb (key x) k) (List.map (scoreEntry rows) ks) with
             | Some x => prop x
             | None => 0%Q
             end)).
  assert (Hhd : hd_error (sortNum (fun a b => (snd b - snd a)%Q) (List.map pairOf arr)) =
                option_map pairOf (firstMax (fun k => prop (scoreEntry rows k)) arr)).
  { rewrite (head_sortNum snd), firstMax_map. f_equal.
    apply firstMax_ext. intros k Hk. unfold pairOf. cbn [snd].
    now rewrite find_entry by now apply Hincl. }
  destruct arr as [|a arr]; [reflexivity|].
  destruct (firstMax _ (a :: arr)) as [m|] eqn:F;
    destruct (sortNum _ (List.map pairOf (a :: arr))) as [|[k0 s0] ranked];
    cbn [hd_error option_map] in Hhd; try discriminate; [|reflexivity].
  injection Hhd as -> ->. cbn [snd].
  assert (In m (a :: arr)) as Hm.
  { apply firstMax_firstBest in F. destruct F as (l1 & l2 & -> & _).
    apply in_or_app. right. now left. }
  now rewrite find_entry by now apply Hincl.
Qed.

Lemma bestAbove_entries rows (sc : scoredKey -> Q) (P : scoredKey -> bool) (ks : list string) :
  option_map key (firstMax sc (List.filter P (List.map (scoreEntry rows) ks))) =
  firstMax (fun k => sc (scoreEntry rows k)) (List.filter (fun k => P (scoreEntry rows k)) ks).
Proof.
  rewrite filter_map_comm, firstMax_map. now destruct (firstMax _ _).
Qed.

(** The selection made by [inferLatLngKeys], without sorting. *)
Lemma inferLatLngKeys_eq (first : obj) (rest : list obj) :
  let rows := first :: rest in
  let ks := JS.keys first in
  let statLat := bestAbove 0.65 (latBand rows) ks in
  latKey (inferLatLngKeys rows) =
    orKey (bestAbove 0.25 (latBand rows) (List.filter latName ks)) (orKey statLat None) /\
  lngKey (inferLatLngKeys rows) =
    orKey (bestAbove 0.25 (lngBand rows) (List.filter lngName ks))
          (orKey (bestAbove 0.65 (lngBand rows) (otherThan statLat ks)) None).
Proof.
  intros rows ks statLat. subst rows ks statLat.
  unfold inferLatLngKeys. cbv zeta. cbn [latKey lngKey].
  set (rows := first :: rest). set (ks := JS.keys first).
  set (statLat := bestAbove 0.65 (latBand rows) ks).
  rewrite !pickBestNamed_best by apply incl_filter.
  rewrite scoreKeys_entries, !(find_sortNum latScore), !(find_sortNum lngScore).
  assert (Hlat : firstMax latScore
                   (List.filter (fun x => Qle_bool 0.65 (latScore x))
                                (List.map (scoreEntry rows) ks)) =
                 option_map (scoreEntry rows) statLat).
  { rewrite filter_map_comm, firstMax_map. reflexivity. }
  rewrite Hlat. split.
  - f_equal. f_equal. now destruct statLat.
  - f_equal. f_equal. rewrite bestAbove_entries.
    unfold bestAbove. destruct statLat as [b|]; cbn [option_map otherThan].
    + rewrite <- filter_and. reflexivity.
    + apply f_equal, filter_ext_in. intros k _. cbn [scoreEntry lngScore]. apply andb_true_r.
Qed.

Lemma bestAbove_iff thr (s : string -> Q) (cands : list string) k :
  bestAbove thr s cands = Some k <-> firstBest s cands k /\ (thr <= s k)%Q.
Proof.
  unfold bestAbove. rewrite firstMax_above. split.
  - destruct (firstMax s cands) as [m|] eqn:F; [|discriminate].
    destruct (Qle_bool thr (s m)) eqn:E; [|discriminate]. intros [= <-].
    split; [now apply firstMax_iff | now apply Qle_bool_iff].
  - intros [Hb Hthr]. apply firstMax_iff in Hb. rewrite Hb.
    apply Qle_bool_iff in Hthr. now rewrite Hthr.
Qed.

Lemma named_nonEmpty k : latName k = true \/ lngName k = true -> k <> "".
Proof. intros [H|H] ->; vm_compute in H; discriminate. Qed.

(** What [inferLatLngKeys] selects.  The latitude column is the
    best-scoring name-matched column (name with lat or latitude, without
    latrine) when its latitude score is at least 0.25, else the
    best-scoring column with latitude score at least 0.65, else none.  The
    longitude column is the best-scoring name-matched column (lon, lng,
    longitude) when its longitude score is at least 0.25, else the
    best-scoring column with longitude score at least 0.65 among the
    columns other than the best-scoring column with latitude score at
    least 0.65, else none.  Best means greatest score, the first such
    column in column order; a column without a name is not selected by its
    score. *)
Lemma inferLatLngKeys_selection (first : obj) (rest : list obj) :
  let rows := first :: rest in
  let ks := JS.keys first in
  let statLat := bestAbove 0.65 (latBand rows) ks in
  latKey (inferLatLngKeys rows) =
    orKey (bestAbove 0.25 (latBand rows) (List.filter latName ks)) (orKey statLat None) /\
  lngKey (inferLatLngKeys rows) =
    orKey (bestAbove 0.25 (lngBand rows) (List.filter lngName ks))
          (orKey (bestAbove 0.65 (lngBand rows) (otherThan statLat ks)) None) /\
  (forall thr s cands k,
     bestAbove thr s cands = Some k <-> firstBest s cands k /\ (thr <= s k)%Q) /\
  (forall k, latName k =
     (containsCI "lat" k || containsCI "latitude" k) && negb (containsCI "latrine" k)) /\
  (forall k, lngName k = containsCI "lon" k || containsCI "lng" k || containsCI "longitude" k) /\
  (forall k o, latName k = true \/ lngName k = true -> orKey (Some k) o = Some k) /\
  (forall k o, orKey (Some k) o = if nonEmpty k then Some k else o) /\
  (forall o, orKey None o = o).
Proof.
  intros rows ks statLat.
  split; [apply inferLatLngKeys_eq|]. split; [apply inferLatLngKeys_eq|].
  split; [apply bestAbove_iff|]. split; [apply latName_spec|]. split; [apply lngName_spec|].
  split; [|split; reflexivity].
  intros k o H. apply named_nonEmpty, nonEmpty_true in H. unfold orKey. now rewrite H.
Qed.

(** C1.  The longitude pick leaves out the column that scores best for
    the latitude, not the column chosen for the latitude.  With a column
    [X] = 33 before a column [Latitude] = 35, [Latitude] is chosen for
    both axes; with [X] = 35.5 before [Latitude] = 33.5, [Latitude] is
    chosen by its name, [X] is left out of the longitude pick and no
    longitude column is found, where the stated rule finds [X]. *)
Theorem inferLatLngKeys_axis_clash :
  let rows1 := [[("X", VNum (Fin 33)); ("Latitude", VNum (Fin 35))]] in
  let rows2 := [[("X", VNum (Fin 35.5)); ("Latitude", VNum (Fin 33.5))]] in
  (latKey (inferLatLngKeys rows1) = Some "Latitude" /\
   lngKey (inferLatLngKeys rows1) = Some "Latitude" /\
   lngKeyAsStated rows1 = None) /\
  (latKey (inferLatLngKeys rows2) = Some "Latitude" /\
   lngKey (inferLatLngKeys rows2) = None /\
   lngKeyAsStated rows2 = Some "X" /\
   fst (buildCoordsMapFromRows "sheet" rows2) = ∅).
Proof. vm_compute. repeat split; reflexivity. Qed.

(** ** Coordinate index *)

Lemma indexStep_cases pk lat lng (acc : gmap string (Q * Q) * nat) (r : obj) :
  indexStep pk lat lng acc r =
  if mappable pk lat lng r
  then match coordsOf lat lng r with
       | Some v => (<[rowPcode pk r := v]> (fst acc), S (snd acc))
       | None => acc
       end
  else acc.
Proof.
  unfold indexStep, mappable, hasCoords, coordsOf.
  destruct (nonEmpty (rowPcode pk r)); cbn [negb andb]; [|reflexivity].
  destruct (parseCoordinate (get r lat)) as [| |a]; try reflexivity.
  destruct (parseCoordinate (get r lng)) as [| |b]; reflexivity.
Qed.

Lemma index_fold pk lat lng (rows : list obj) :
  let res := fold_left (indexStep pk lat lng) rows (∅, 0%nat) in
  (forall p, fst res !! p = if nonEmpty p then lastWith pk lat lng rows p else None) /\
  snd res = List.length (List.filter (mappable pk lat lng) rows).
Proof.
  induction rows as [|r rows IH] using rev_ind.
  - split; [|reflexivity]. intros p. cbn [fold_left fst]. rewrite lookup_empty.
    now destruct (nonEmpty p).
  - cbv zeta in *. rewrite fold_left_app. cbn [fold_left].
    destruct IH as [IHm IHn]. rewrite indexStep_cases.
    rewrite List.filter_app, length_app. cbn [List.filter].
    unfold lastWith in *. rewrite rev_unit. cbn [find].
    unfold mappable in *.
    destruct (coordsOf lat lng r) as [v|] eqn:Ec.
    + assert (Hh : hasCoords lat lng r = true) by (unfold hasCoords; now rewrite Ec).
      rewrite !Hh.
      destruct (nonEmpty (rowPcode pk r)) eqn:Ne; cbn [andb fst snd List.length].
      * split; [|rewrite IHn; lia].
        intros p. rewrite lookup_insert.
        destruct (String.eqb (rowPcode pk r) p) eqn:E.
        -- apply String.eqb_eq in E. subst p. rewrite decide_True by reflexivity.
           rewrite Ne. cbn [andb]. now rewrite Ec.
        -- apply String.eqb_neq in E. rewrite decide_False by assumption.
           cbn [andb]. apply IHm.
      * split; [|rewrite IHn; cbn [List.length]; lia].
        intros p. rewrite IHm. rewrite andb_true_r. destruct (nonEmpty p) eqn:Np; [|reflexivity].
        destruct (String.eqb (rowPcode pk r) p) eqn:E; [|reflexivity].
        apply String.eqb_eq in E. rewrite E in Ne. congruence.
    + assert (Hh : hasCoords lat lng r = false) by (unfold hasCoords; now rewrite Ec).
      rewrite !Hh, ?andb_false_r. cbn [List.length]. split; [|rewrite IHn; lia].
      intros p. now rewrite IHm, andb_false_r.
Qed.

Lemma bestAbove_none thr (s : string -> Q) (l : list string) :
  (forall k, In k l -> (s k < thr)%Q) -> bestAbove thr s l = None.
Proof.
  intros H. destruct (bestAbove thr s l) as [k|] eqn:E; [|reflexivity].
  apply bestAbove_iff in E as [(l1 & l2 & -> & _) Hk].
  assert (In k (l1 ++ k :: l2)) as Hin by (apply in_or_app; right; now left).
  specialize (H k Hin). lra.
Qed.

Lemma latKey_none (rows : list obj) :
  (forall k, In k (columns rows) -> (latBand rows k < 0.25)%Q) ->
  latKey (inferLatLngKeys rows) = None.
Proof.
  destruct rows as [|first rest]; [reflexivity|]. intros H.
  rewrite (proj1 (inferLatLngKeys_eq first rest)).
  rewrite !bestAbove_none; [reflexivity| |].
  - intros k Hk. specialize (H k Hk). lra.
  - intros k Hk. apply filter_In in Hk as [Hk _]. now apply H.
Qed.

Lemma lngKey_none (rows : list obj) :
  (forall k, In k (columns rows) -> (lngBand rows k < 0.25)%Q) ->
  lngKey (inferLatLngKeys rows) = None.
Proof.
  destruct rows as [|first rest]; [reflexivity|]. intros H.
  rewrite (proj2 (inferLatLngKeys_eq first rest)).
  rewrite !bestAbove_none; [reflexivity| |].
  - intros k Hk. assert (In k (JS.keys first)) as Hk'.
    { unfold otherThan in Hk. destruct (bestAbove _ _ _); [|exact Hk].
      now apply filter_In in Hk as [Hk _]. }
    specialize (H k Hk'). lra.
  - intros k Hk. apply filter_In in Hk as [Hk _]. now apply H.
Qed.

(** What [buildCoordsMapFromRows] does with the columns that
    [inferLatLngKeys] returns.  When one of them is missing, in
    particular when no column reaches the score 0.25 in one of the bands,
    the index is empty and the mapped count is 0.  When both are there,
    the index maps every non-empty trimmed identifier to the coordinates
    of the last row that carries it with two finite coordinates, and
    holds nothing else. *)
Lemma buildCoordsMapFromRows_index (src : string) (rows : list obj) :
  let res := buildCoordsMapFromRows src rows in
  let ks := inferLatLngKeys rows in
  (latKey ks = None \/ lngKey ks = None -> fst res = ∅ /\ mapped (snd res) = 0%nat) /\
  ((forall k, In k (columns rows) -> (latBand rows k < 0.25)%Q) \/
   (forall k, In k (columns rows) -> (lngBand rows k < 0.25)%Q) ->
   fst res = ∅ /\ mapped (snd res) = 0%nat) /\
  (forall lat lng, latKey ks = Some lat -> lngKey ks = Some lng ->
     (forall p, fst res !! p =
                if nonEmpty p then lastWith (pcodeKey ks) lat lng rows p else None) /\
     mapped (snd res) = List.length (List.filter (mappable (pcodeKey ks) lat lng) rows)) /\
  names (snd res) = ks /\ total (snd res) = List.length rows.
Proof.
  intros res ks. subst res ks.
  assert (Hnone : latKey (inferLatLngKeys rows) = None \/ lngKey (inferLatLngKeys rows) = None ->
            fst (buildCoordsMapFromRows src rows) = ∅ /\
            mapped (snd (buildCoordsMapFromRows src rows)) = 0%nat).
  { unfold buildCoordsMapFromRows. cbv zeta.
    intros [H|H]; rewrite H; [now split|].
    destruct (latKey (inferLatLngKeys rows)); now split. }
  split; [exact Hnone|]. split.
  { intros [H|H]; apply Hnone; [left; now apply latKey_none | right; now apply lngKey_none]. }
  split.
  { intros lat lng Hlat Hlng. unfold buildCoordsMapFromRows. cbv zeta.
    rewrite Hlat, Hlng.
    pose proof (index_fold (pcodeKey (inferLatLngKeys rows)) lat lng rows) as Hf.
    cbv zeta in Hf.
    destruct (fold_left _ rows (∅, 0%nat)) as [mp n]. exact Hf. }
  unfold buildCoordsMapFromRows. cbv zeta.
  destruct (latKey (inferLatLngKeys rows)); [|now split].
  destruct (lngKey (inferLatLngKeys rows)); [|now split].
  destruct (fold_left _ rows (∅, 0%nat)). now split.
Qed.

(** C4.  A guessed pair is indexed.  In the sheet with the single row
    PCode = A, X = 33, Latitude = 35 the rule as stated takes [Latitude]
    for the latitude and finds no column for the longitude: the only
    candidate with a longitude score, [Latitude], is the column already
    chosen.  The code takes [Latitude] for both axes and indexes A at
    (35, 35) with a mapped count of 1, on the raw row and on the
    normalized record alike, where an empty index is stated.  The
    defect is that of C1: the longitude pick leaves out the column that
    scores best for the latitude, [X], not the chosen one. *)
Theorem buildCoordsMapFromRows_guessed_pair :
  let raw := [[("PCode", VStr "A"); ("X", VNum (Fin 33)); ("Latitude", VNum (Fin 35))]] in
  let res := buildCoordsMapFromRows "sheet" raw in
  let recs := parseWorkbook raw in
  let res' := setCoordsFromSpreadsheet recs in
  (latKey (names (snd res)) = Some "Latitude" /\
   lngKey (names (snd res)) = Some "Latitude" /\
   lngKeyAsStated raw = None /\
   map_to_list (fst res) = [("A", (35%Q, 35%Q))] /\
   mapped (snd res) = 1%nat) /\
  (latKey (names (snd res')) = Some "Latitude" /\
   lngKey (names (snd res')) = Some "Latitude" /\
   lngKeyAsStated (List.map rowObject recs) = None /\
   map_to_list (fst res') = [("A", (35%Q, 35%Q))] /\
   mapped (snd res') = 1%nat).
Proof. vm_compute. repeat split; reflexivity. Qed.

(** ** Coordinate parsing *)

Lemma allChars_trimStart p s : allChars p s = true -> allChars p (trimStart s) = true.
Proof.
  induction s as [|c s IH]; [reflexivity|]. intros H. cbn [trimStart].
  destruct (isSpace c); [|exact H].
  simpl in H. apply andb_true_iff in H as [_ H]. now apply IH.
Qed.

Lemma allChars_trimEnd p s : allChars p s = true -> allChars p (trimEnd s) = true.
Proof.
  induction s as [|c s IH]; [reflexivity|]. cbn [allChars trimEnd].
  rewrite andb_true_iff. intros [Hc Hs]. specialize (IH Hs).
  destruct (trimEnd s).
  - destruct (isSpace c); [reflexivity|]. simpl. now rewrite Hc.
  - cbn [allChars] in *. now rewrite Hc, IH.
Qed.

Lemma allChars_trim p s : allChars p s = true -> allChars p (trim s) = true.
Proof. intros H. now apply allChars_trimEnd, allChars_trimStart. Qed.

Lemma dms_needs_digit t :
  allChars (fun c => negb (isDigit c)) t = true -> exec dmsRe t = None.
Proof.
  induction t as [|a t IH]; [reflexivity|].
  cbn [allChars]. rewrite andb_true_iff, negb_true_iff. intros [Ha Ht].
  cbn [exec]. rewrite (IH Ht).
  unfold dmsRe, decimalRe, Plus, digit. cbn [run]. now rewrite Ha.
Qed.

Lemma replaceAll_none p by_ s :
  allChars (fun c => negb (p c)) s = true -> replaceAll p by_ s = s.
Proof.
  induction s as [|c s IH]; [reflexivity|]. cbn [allChars replaceAll].
  rewrite andb_true_iff, negb_true_iff. intros [Hc Hs]. now rewrite Hc, IH.
Qed.

Lemma replaceAll_all p s :
  allChars p s = true -> replaceAll p "" s = "".
Proof.
  induction s as [|c s IH]; [reflexivity|]. cbn [allChars replaceAll].
  rewrite andb_true_iff. intros [Hc Hs]. now rewrite Hc, IH.
Qed.

Lemma wordChar_facts c :
  wordChar c = true ->
  isDigit c = false /\ Ascii.eqb "," c = false /\ notNumeric c = true.
Proof. destruct c as [[] [] [] [] [] [] [] []]; vm_compute; intuition congruence. Qed.

(** C3.  A text without any digit, point, comma or sign, for instance
    [abc] or [N/A], does not parse to not-a-number: after the cleaning
    nothing is left, the empty string converts to 0, and 0 is returned as
    a finite coordinate. *)
Theorem parseCoordinate_word (s : string) :
  allChars wordChar s = true -> trim s <> "" ->
  parseCoordinate (VStr s) = Fin 0.
Proof.
  intros Hall Hne.
  assert (Hraw : allChars wordChar (trim s) = true) by now apply allChars_trim.
  unfold parseCoordinate. cbn [isNullish orb toStr].
  destruct s as [|c s]; [now elim Hne|]. cbn [isEmptyStr].
  apply nonEmpty_true in Hne. rewrite Hne. cbn [negb].
  unfold parseDms. rewrite dms_needs_digit.
  2:{ apply (allChars_weaken wordChar); [|exact Hraw].
      intros a Ha. apply wordChar_facts in Ha as (-> & _). reflexivity. }
  unfold looseDecimal.
  rewrite (replaceAll_none (Ascii.eqb ",")).
  2:{ apply (allChars_weaken wordChar); [|exact Hraw].
      intros a Ha. apply wordChar_facts in Ha as (_ & -> & _). reflexivity. }
  rewrite replaceAll_all.
  2:{ apply (allChars_weaken wordChar); [|exact Hraw].
      intros a Ha. now apply wordChar_facts in Ha as (_ & _ & ->). }
  reflexivity.
Qed.

Lemma parseCoordinate_word_witness :
  allChars wordChar "N/A" = true /\ trim "N/A" <> "" /\ parseCoordinate (VStr "N/A") = Fin 0.
Proof.
  split; [reflexivity|]. split; [discriminate|].
  apply (parseCoordinate_word "N/A"); [reflexivity | discriminate].
Defined.

(** What such a cell does further on: it counts as a parsed value in the
    band score, and a row whose two coordinate cells are such texts is
    indexed at (0, 0). *)
Lemma word_cell_effects :
  let rows := [ [("PCode", VStr "A"); ("Latitude", VNum (Fin 33.5)); ("Longitude", VNum (Fin 35.5))];
                [("PCode", VStr "B"); ("Latitude", VStr "N/A"); ("Longitude", VStr "unknown")] ] in
  parseCoordinate (VStr "abc") = Fin 0 /\
  parseCoordinate (VStr "unknown") = Fin 0 /\
  parseCoordinate (VBool true) = Fin 0 /\
  parsedSample rows "Latitude" = [33.5%Q; 0%Q] /\
  (latBand rows "Latitude" == 1 # 2)%Q /\
  fst (buildCoordsMapFromRows "sheet" rows) !! "B" = Some (0%Q, 0%Q) /\
  mapped (snd (buildCoordsMapFromRows "sheet" rows)) = 2%nat.
Proof. vm_compute. repeat split; reflexivity. Qed.

(** The branches of [parseCoordinate] that work as described. *)
Lemma parseCoordinate_examples :
  (forall x, parseCoordinate (VNum (Fin x)) = Fin x) /\
  parseCoordinate (VNum NaN) = NaN /\
  parseCoordinate (VNum (Inf false)) = NaN /\
  parseCoordinate (VStr "") = NaN /\
  parseCoordinate VNull = NaN /\
  parseCoordinate (VStr "-") = NaN /\
  (exists x, parseCoordinate (VStr "33,875") = Fin x /\ x == 33.875)%Q /\
  (exists x, parseCoordinate (VStr "35 52 10 E") = Fin x /\ x == 35 + 52 / 60 + 10 / 3600)%Q /\
  (exists x, parseCoordinate (VStr "33 54 12.3 s") = Fin x /\
             x == - (33 + 54 / 60 + 12.3 / 3600))%Q.
Proof.
  repeat split; try reflexivity;
    eexists; (split; [vm_compute; reflexivity | vm_compute; reflexivity]).
Qed.

(** ** Share link *)

Lemma encodeByte_shape c :
  (USP.encodeByte c = String c "" /\ Ascii.eqb c "+" = false /\ Ascii.eqb c "%" = false) \/
  (c = " "%char /\ USP.encodeByte c = "+") \/
  (exists h l a b,
     USP.encodeByte c = String "%" (String h (String l "")) /\
     hexVal h = Some a /\ hexVal l = Some b /\ USP.byteOfHex a b = c /\
     Ascii.eqb h "+" = false /\ Ascii.eqb l "+" = false).
Proof.
  destruct c as [[] [] [] [] [] [] [] []];
    first [ left; repeat split; reflexivity
          | right; left; split; reflexivity
          | right; right; do 4 eexists; repeat split; reflexivity ].
Qed.

Lemma encodeByte_plain c : allChars plainQueryChar (USP.encodeByte c) = true.
Proof. destruct c as [[] [] [] [] [] [] [] []]; vm_compute; reflexivity. Qed.

Lemma encode_plain s : allChars plainQueryChar (USP.encode s) = true.
Proof.
  induction s as [|c s IH]; [reflexivity|].
  cbn [USP.encode]. now rewrite allChars_app, encodeByte_plain, IH.
Qed.

Lemma decode_encodeByte c rest :
  USP.decode (USP.encodeByte c +:+ rest) = String c (USP.decode rest).
Proof.
  unfold USP.decode.
  destruct (encodeByte_shape c) as [(-> & Hp & Hq) | [(-> & ->) | (h & l & a & b & -> & Hh & Hl & <- & Ph & Pl)]].
  - rewrite append_cons, append_nil_l. unfold USP.plusToSpace. cbn [smap].
    rewrite Hp. cbn [USP.percentDecode]. now rewrite Hq.
  - reflexivity.
  - rewrite !append_cons, append_nil_l. unfold USP.plusToSpace. cbn [smap].
    rewrite Ph, Pl. change (Ascii.eqb "%" "+") with false. cbv iota.
    cbn [USP.percentDecode]. change (Ascii.eqb "%" "%") with true. cbv iota.
    now rewrite Hh, Hl.
Qed.

Lemma decode_encode s : USP.decode (USP.encode s) = s.
Proof.
  induction s as [|c s IH]; [reflexivity|].
  cbn [USP.encode]. now rewrite decode_encodeByte, IH.
Qed.

Lemma cutAtEquals_plain (n v : string) :
  allChars plainQueryChar n = true -> USP.cutAtEquals (n +:+ "=" +:+ v) = (n, v).
Proof.
  induction n as [|c n IH]; intros H.
  - reflexivity.
  - cbn [allChars] in H. apply andb_true_iff in H as [Hc Hn].
    rewrite append_cons. cbn [USP.cutAtEquals].
    unfold plainQueryChar in Hc. apply negb_true_iff, orb_false_iff in Hc as [_ Hc].
    rewrite Hc. now rewrite IH.
Qed.

Lemma splitOn_plain sep (a : string) :
  allChars (fun c => negb (Ascii.eqb c sep)) a = true -> USP.splitOn sep a = [a].
Proof.
  induction a as [|c a IH]; [reflexivity|].
  cbn [allChars USP.splitOn]. rewrite andb_true_iff, negb_true_iff. intros [Hc Ha].
  now rewrite Hc, IH.
Qed.

Lemma splitOn_app sep (a b : string) :
  allChars (fun c => negb (Ascii.eqb c sep)) a = true ->
  USP.splitOn sep (a +:+ String sep b) = a :: USP.splitOn sep b.
Proof.
  induction a as [|c a IH].
  - intros _. rewrite append_nil_l. cbn [USP.splitOn]. now rewrite Ascii.eqb_refl.
  - cbn [allChars]. rewrite andb_true_iff, negb_true_iff. intros [Hc Ha].
    rewrite append_cons. cbn [USP.splitOn]. now rewrite Hc, IH.
Qed.

Lemma splitOn_join sep (pieces : list string) :
  pieces <> [] ->
  (forall x, In x pieces -> allChars (fun c => negb (Ascii.eqb c sep)) x = true) ->
  USP.splitOn sep (join (String sep "") pieces) = pieces.
Proof.
  induction pieces as [|x pieces IH]; [congruence|]. intros _ H.
  destruct pieces as [|y pieces].
  - cbn [join]. apply splitOn_plain, H. now left.
  - change (join (String sep "") (x :: y :: pieces))
      with (x +:+ String sep "" +:+ join (String sep "") (y :: pieces)).
    rewrite append_cons, append_nil_l.
    rewrite splitOn_app by (apply H; now left).
    rewrite IH; [reflexivity | discriminate | intros z Hz; apply H; now right].
Qed.

Lemma pair_plain (n v : string) :
  allChars (fun c => negb (Ascii.eqb c "&")) (USP.encode n +:+ "=" +:+ USP.encode v) = true.
Proof.
  assert (H : forall x, allChars (fun c => negb (Ascii.eqb c "&")) (USP.encode x) = true).
  { intros x. apply (allChars_weaken plainQueryChar); [|apply encode_plain].
    intros c. unfold plainQueryChar. rewrite !negb_true_iff, orb_false_iff. tauto. }
  rewrite !allChars_app, !H. reflexivity.
Qed.

Lemma append_nonEmpty (a b : string) : nonEmpty b = true -> nonEmpty (a +:+ b) = true.
Proof. destruct a; [now rewrite append_nil_l | reflexivity]. Qed.

(** Parsing a serialized parameter list gives the list back. *)
Lemma parse_toString (ps : USP.params) : USP.parse (USP.toString ps) = ps.
Proof.
  unfold USP.parse, USP.toString.
  destruct ps as [|p0 ps]; [reflexivity|].
  set (pieces := List.map (fun p => USP.encode (fst p) +:+ "=" +:+ USP.encode (snd p)) (p0 :: ps)).
  change (String "&" "") with (String "&"%char "") in *.
  rewrite splitOn_join.
  - subst pieces. rewrite (filter_ext_in nonEmpty (fun _ => true)), filter_all.
    + rewrite List.map_map. rewrite <- (List.map_id (p0 :: ps)) at 2.
      apply List.map_ext. intros [n v]. cbn [fst snd]. unfold USP.parsePair.
      rewrite cutAtEquals_plain by apply encode_plain.
      now rewrite !decode_encode.
    + reflexivity.
    + intros x Hx. apply in_map_iff in Hx as ([n v] & <- & _).
      apply append_nonEmpty. reflexivity.
  - subst pieces. discriminate.
  - subst pieces. intros x Hx. apply in_map_iff in Hx as ([n v] & <- & _). apply pair_plain.
Qed.

Lemma encode_nonDefaults f : encodeFiltersToQuery f = USP.toString (nonDefaults f).
Proof.
  unfold encodeFiltersToQuery, nonDefaults, setIf. cbv zeta.
  destruct (nonEmpty (q f)), (differs (district f) "All"), (differs (cadaster f) "All"),
    (differs (siteStatus f) "All"), (differs (phoneStatus f) "All"), (differs (qc f) "All");
    reflexivity.
Qed.

(** The query of a share link reads back as the criteria that are not at
    their default, whatever characters they hold. *)
Lemma ofString_shareSearch f : USP.ofString (shareSearch f) = nonDefaults f.
Proof.
  unfold shareSearch. rewrite encode_nonDefaults.
  destruct (nonEmpty (USP.toString (nonDefaults f))) eqn:E.
  - rewrite append_cons, append_nil_l. cbn [USP.ofString].
    apply parse_toString.
  - apply nonEmpty_false in E. change (USP.ofString "") with (USP.parse "").
    rewrite <- E. apply parse_toString.
Qed.

Lemma get_nonDefaults f :
  USP.get (nonDefaults f) "q" = paramOf (nonEmpty (q f)) (q f) /\
  USP.get (nonDefaults f) "district" = paramOf (differs (district f) "All") (district f) /\
  USP.get (nonDefaults f) "cadaster" = paramOf (differs (cadaster f) "All") (cadaster f) /\
  USP.get (nonDefaults f) "siteStatus" = paramOf (differs (siteStatus f) "All") (siteStatus f) /\
  USP.get (nonDefaults f) "phoneStatus" = paramOf (differs (phoneStatus f) "All") (phoneStatus f) /\
  USP.get (nonDefaults f) "qc" = paramOf (differs (qc f) "All") (qc f).
Proof.
  unfold nonDefaults, paramOf.
  destruct (nonEmpty (q f)), (differs (district f) "All"), (differs (cadaster f) "All"),
    (differs (siteStatus f) "All"), (differs (phoneStatus f) "All"), (differs (qc f) "All");
    repeat split; reflexivity.
Qed.

Lemma In_insertSorted cmp x (l : list string) y :
  In y (insertSorted cmp x l) <-> y = x \/ In y l.
Proof.
  induction l as [|z l IH]; simpl; [intuition|].
  destruct (cmp x z); simpl; rewrite ?IH; intuition.
Qed.

Lemma In_sortBy cmp (l : list string) y : In y (sortBy cmp l) <-> In y l.
Proof.
  induction l as [|x l IH]; simpl; [reflexivity|].
  rewrite In_insertSorted, IH. intuition.
Qed.

Lemma In_dedupe (l : list string) y : In y (dedupe l) <-> In y l.
Proof.
  induction l as [|x l IH]; simpl; [reflexivity|].
  rewrite filter_In, IH, differs_true. split.
  - intros [H | [H _]]; auto.
  - intros [H | H]; auto.
    destruct (string_dec x y); auto.
Qed.

Lemma In_uniqSorted cmp (values : list string) v :
  In v (uniqSorted cmp values) <-> In v values /\ v <> "" /\ v <> "—".
Proof.
  unfold uniqSorted. rewrite In_sortBy, In_dedupe, filter_In.
  rewrite andb_true_iff, nonEmpty_true, differs_true. reflexivity.
Qed.

Lemma existsb_eqb_In v (l : list string) : In v l -> existsb (String.eqb v) l = true.
Proof.
  intros H. apply existsb_exists. exists v. split; [exact H | apply String.eqb_refl].
Qed.

(** A freshly populated selector gives back the criterion it is sent. *)
Lemma select_roundtrip cmp (values : list string) v :
  offered v values ->
  orElse (current (assignSelect (paramOf (differs v "All") v)
                                (setSelectOptions (uniqSorted cmp values)))) "All" = v.
Proof.
  intros Hoff. unfold paramOf. destruct (differs v "All") eqn:D.
  - apply differs_true in D. destruct Hoff as [H | (Hin & Hne & Hd)]; [congruence|].
    cbn [assignSelect]. apply nonEmpty_true in Hne. rewrite Hne.
    unfold setValue. cbn [current options setSelectOptions].
    rewrite existsb_eqb_In by (right; apply In_uniqSorted; rewrite nonEmpty_true in Hne; auto).
    unfold orElse. now rewrite Hne.
  - apply differs_false in D. subst v. reflexivity.
Qed.

Lemma qc_roundtrip v :
  In v ["All"; "Any issue"; "No issues"] ->
  orElse (current (assignSelect (paramOf (differs v "All") v)
                     {| options := ["All"; "Any issue"; "No issues"]; current := "All" |}))
         "All" = v.
Proof. intros [<- | [<- | [<- | []]]]; reflexivity. Qed.

Lemma input_roundtrip (old v : string) :
  trim v = v -> existsb_char isLineBreak v = false -> (v = "" -> trim old = "") ->
  normText (VStr (assignInput (paramOf (nonEmpty v) v) old)) = v.
Proof.
  intros Ht Hl Hold. unfold paramOf, normText. cbn [isNullish toStr].
  destruct (nonEmpty v) eqn:N; cbn [assignInput].
  - rewrite N. unfold setInput. rewrite replaceAll_none; [exact Ht|].
    clear -Hl. induction v as [|c v IH]; [reflexivity|].
    simpl in *. apply orb_false_iff in Hl as [-> Hl]. now rewrite IH.
  - apply nonEmpty_false in N. subst v. now apply Hold.
Qed.

(** C9 (as amended).  Criteria that the controls can hold come back
    unchanged from their query string: each discrete criterion is ["All"]
    or a value the populated selector offers, the QC selector is one of
    its three options, the free text is trimmed and on one line (and the
    search box is blank when there is no free text).  The query string
    itself always reads back as exactly the criteria that are not at their
    default, reserved characters included; defaults are left out and
    restored. *)
Theorem shareLink_roundtrip (localeCompare : string -> string -> comparison)
    (rows : list record) (pg : page) (f : filters) :
  trim (q f) = q f ->
  existsb_char isLineBreak (q f) = false ->
  (q f = "" -> trim (searchInput pg) = "") ->
  offered (district f) (List.map __district rows) ->
  offered (cadaster f) (List.map __cadaster rows) ->
  offered (siteStatus f) (List.map __siteStatus rows) ->
  offered (phoneStatus f) (List.map __phoneStatus rows) ->
  In (qc f) ["All"; "Any issue"; "No issues"] ->
  snd (applyQueryToFilters (shareSearch f) (populateFilterControls localeCompare rows pg)) = f /\
  USP.ofString (shareSearch f) = nonDefaults f /\
  nonDefaults defaultFilters = [] /\
  shareSearch defaultFilters = "".
Proof.
  intros Hq Hl Hbox Hd Hc Hs Hp Hqc.
  split; [|split; [apply ofString_shareSearch | split; reflexivity]].
  unfold applyQueryToFilters. cbv zeta. cbn [snd].
  rewrite ofString_shareSearch.
  destruct (get_nonDefaults f) as (-> & -> & -> & -> & -> & ->).
  unfold readFiltersFromUI, populateFilterControls.
  cbn [searchInput districtFilter cadasterFilter siteStatusFilter phoneStatusFilter qcFilter].
  rewrite input_roundtrip by assumption.
  rewrite !select_roundtrip by assumption.
  rewrite qc_roundtrip by assumption.
  now destruct f.
Qed.

Lemma shareLink_roundtrip_witness :
  let f := {| q := "a&b=c d+e%?#/"; district := "Beirut"; cadaster := "All";
              siteStatus := "Active"; phoneStatus := "All"; qc := "Any issue" |} in
  let rows := parseWorkbook [[("District", VStr "Beirut"); ("Site Status", VStr "Active")]] in
  let pg := {| searchInput := ""; districtFilter := setSelectOptions [];
               cadasterFilter := setSelectOptions []; siteStatusFilter := setSelectOptions [];
               phoneStatusFilter := setSelectOptions []; qcFilter := setSelectOptions [] |} in
  snd (applyQueryToFilters (shareSearch f) (populateFilterControls String.compare rows pg)) = f.
Proof.
  intros f rows pg.
  apply (shareLink_roundtrip String.compare rows pg f); vm_compute.
  - reflexivity.
  - reflexivity.
  - discriminate.
  - right. repeat split; [now left | discriminate | discriminate].
  - now left.
  - right. repeat split; [now left | discriminate | discriminate].
  - now left.
  - right. now left.
Defined.

(** C9, as stated, fails: a district that the loaded records do not hold
    is no option of the selector, and the criterion decodes to ["All"]. *)
Lemma shareLink_lost_criterion :
  let f := {| q := ""; district := "Beirut"; cadaster := "All";
              siteStatus := "All"; phoneStatus := "All"; qc := "All" |} in
  let rows := parseWorkbook [[("District", VStr "Tripoli")]] in
  let pg := {| searchInput := ""; districtFilter := setSelectOptions [];
               cadasterFilter := setSelectOptions []; siteStatusFilter := setSelectOptions [];
               phoneStatusFilter := setSelectOptions []; qcFilter := setSelectOptions [] |} in
  shareSearch f = "?district=Beirut" /\
  snd (applyQueryToFilters (shareSearch f) (populateFilterControls String.compare rows pg))
    = defaultFilters /\
  snd (applyQueryToFilters (shareSearch f) (populateFilterControls String.compare rows pg))
    <> f.
Proof. vm_compute. repeat split; discriminate. Qed.

(** ** The scenario of the specification

    Row A: identifier 0001-01-001, phone call answered, site active, at
    33.5 / 35.5; row B: identifier 0002-01-002 and nothing else. *)

Lemma two_row_scenario :
  let rowA := [("PCode", VStr "0001-01-001"); ("Phone call status", VStr "Answer");
               ("Site Status", VStr "Active"); ("Latitude", VNum (Fin 33.5));
               ("Longitude", VNum (Fin 35.5));
               ("Total number of Households", VNum (Fin 10))] in
  let rowB := [("PCode", VStr "0002-01-002"); ("Phone call status", VStr "");
               ("Site Status", VStr ""); ("Latitude", VStr ""); ("Longitude", VStr "");
               ("Total number of Households", VStr "")] in
  let recs := parseWorkbook [rowA; rowB] in
  let res := setCoordsFromSpreadsheet recs in
  List.map __assessed recs = [true; false] /\
  List.map __siteStatus recs = ["Active"; "Not assessed"] /\
  List.map __phoneStatus recs = ["Answer"; "Not assessed"] /\
  latKey (names (snd res)) = Some "Latitude" /\
  lngKey (names (snd res)) = Some "Longitude" /\
  map_to_list (fst res) = [("0001-01-001", (33.5%Q, 35.5%Q))] /\
  mapped (snd res) = 1%nat /\ total (snd res) = 2%nat /\
  applyFilters defaultFilters recs = recs.
Proof. vm_compute. repeat split; reflexivity. Qed.

(** * Further properties of the script *)

(** ** Numeric coercion *)

Lemma toNum_finite (v : value) : exists x, toNum v = Fin x.
Proof.
  unfold toNum. destruct (isNullish v || isEmptyStr v); [now exists 0%Q|].
  destruct (toNumber v) as [| b | x]; cbn [isFinite]; eauto.
Qed.

Lemma toNum_Fin (x : Q) : toNum (VNum (Fin x)) = Fin x.
Proof. reflexivity. Qed.

Lemma toNum_idempotent (v : value) : toNum (VNum (toNum v)) = toNum v.
Proof. destruct (toNum_finite v) as [x ->]. apply toNum_Fin. Qed.

Lemma get_set_same (o : obj) k v : get (JS.set o k v) k = v.
Proof.
  induction o as [|[k0 v0] o IH]; simpl.
  - now rewrite String.eqb_refl.
  - destruct (String.eqb k0 k) eqn:E; simpl; rewrite E; [reflexivity | exact IH].
Qed.

Lemma get_coerced_field (fs : list string) (o : obj) f :
  In f fs ->
  get (fold_left (fun o f => JS.set o f (VNum (toNum (get o f)))) fs o) f =
  VNum (toNum (get o f)).
Proof.
  revert o. induction fs as [|g fs IH]; intros o Hin; [destruct Hin|].
  cbn [fold_left].
  destruct (in_dec string_dec f fs) as [Hf | Hf].
  - rewrite IH by assumption. destruct (string_dec g f) as [-> | Hne].
    + now rewrite get_set_same, toNum_idempotent.
    + now rewrite get_set_other.
  - destruct Hin as [-> | Hin]; [|contradiction].
    rewrite get_coerce_fields by assumption. apply get_set_same.
Qed.

(** X1.  [toNum] always gives a finite number, and coercing twice is
    coercing once; so the issue count of a record, which is coerced with
    the numeric fields and again when it is read, is the coerced raw
    cell. *)
Theorem toNum_finite_idempotent (v : value) (r : obj) :
  (exists x, toNum v = Fin x) /\
  toNum (VNum (toNum v)) = toNum v /\
  __qcIssueCount (normalizeRow r) = toNum (get r "QC - Issue count").
Proof.
  split; [apply toNum_finite|]. split; [apply toNum_idempotent|].
  unfold normalizeRow. cbn [__qcIssueCount]. unfold coerceNumFields.
  rewrite get_coerced_field by (vm_compute; tauto).
  apply toNum_idempotent.
Qed.

(** X2.  In a normalized record every numeric field holds a finite
    number, the coerced raw cell, and every other cell is the raw cell. *)
Theorem coerceNumFields_cells (r : obj) :
  (forall f, In f NUM_FIELDS ->
     get (fields (normalizeRow r)) f = VNum (toNum (get r f)) /\
     exists x, get (fields (normalizeRow r)) f = VNum (Fin x)) /\
  (forall k, ~ In k NUM_FIELDS -> get (fields (normalizeRow r)) k = get r k).
Proof.
  change (fields (normalizeRow r)) with (coerceNumFields r). unfold coerceNumFields. split.
  - intros f Hf. rewrite get_coerced_field by assumption. split; [reflexivity|].
    destruct (toNum_finite (get r f)) as [x ->]. now exists x.
  - intros k Hk. now apply get_coerce_fields.
Qed.

(** ** Derived fields *)

Lemma lowerChar_idempotent c : lowerChar (lowerChar c) = lowerChar c.
Proof. destruct c as [[] [] [] [] [] [] [] []]; reflexivity. Qed.

Lemma toLowerCase_idempotent s : toLowerCase (toLowerCase s) = toLowerCase s.
Proof.
  unfold toLowerCase. induction s as [|c s IH]; [reflexivity|].
  cbn [smap]. now rewrite lowerChar_idempotent, IH.
Qed.

Lemma toLowerCase_app a b : toLowerCase (a +:+ b) = toLowerCase a +:+ toLowerCase b.
Proof.
  unfold toLowerCase. induction a as [|c a IH]; [reflexivity|].
  rewrite append_cons. cbn [smap]. now rewrite IH.
Qed.

Lemma orElse_nonEmpty a b : b <> "" -> orElse a b <> "".
Proof.
  intros Hb. unfold orElse. destruct (nonEmpty a) eqn:E; [now apply nonEmpty_true | exact Hb].
Qed.

(** X3.  The derived fields of a record are never blank: district and
    cadaster fall back to the dash, site and phone status to their
    labels, the QC marker is Yes or No; the search text is in lower
    case. *)
Theorem normalizeRow_invariants (r : obj) :
  let rec := normalizeRow r in
  __district rec <> "" /\ __cadaster rec <> "" /\
  __siteStatus rec <> "" /\ __phoneStatus rec <> "" /\
  (__qcAny rec = "Yes" \/ __qcAny rec = "No") /\
  toLowerCase (__search rec) = __search rec.
Proof.
  intros rec. subst rec.
  split; [unfold normalizeRow; cbn [__district]; now apply orElse_nonEmpty|].
  split; [unfold normalizeRow; cbn [__cadaster]; now apply orElse_nonEmpty|].
  split.
  { rewrite siteStatus_eq.
    destruct (nonEmpty (normText (get r "Site Status"))) eqn:E.
    - now apply nonEmpty_true.
    - now destruct (__assessed (normalizeRow r)). }
  split.
  { rewrite phoneStatus_eq. destruct (__assessed (normalizeRow r)) eqn:E; [|discriminate].
    rewrite assessed_eq in E. apply negb_true_iff in E. now apply String.eqb_neq. }
  split.
  { rewrite qcAny_eq. destruct (String.eqb _ "Yes"); auto. }
  unfold normalizeRow. cbn [__search]. apply toLowerCase_idempotent.
Qed.

Lemma trimEnd_idempotent s : trimEnd (trimEnd s) = trimEnd s.
Proof.
  induction s as [|c s IH]; [reflexivity|]. cbn [trimEnd].
  destruct (trimEnd s) as [|d t] eqn:E.
  - destruct (isSpace c) eqn:Ec; [reflexivity|]. cbn [trimEnd]. now rewrite Ec.
  - cbn [trimEnd]. cbn [trimEnd] in IH. rewrite IH. reflexivity.
Qed.

Lemma trimEnd_head c s :
  isSpace c = false -> exists t, trimEnd (String c s) = String c t.
Proof.
  intros Hc. cbn [trimEnd]. destruct (trimEnd s); rewrite ?Hc; eauto.
Qed.

Lemma trimStart_head s :
  trimStart s = "" \/ exists c t, trimStart s = String c t /\ isSpace c = false.
Proof.
  induction s as [|c s IH]; [now left|]. cbn [trimStart].
  destruct (isSpace c) eqn:E; [exact IH | right; eauto].
Qed.

Lemma trim_idempotent s : trim (trim s) = trim s.
Proof.
  unfold trim. destruct (trimStart_head s) as [-> | (c & t & -> & Hc)]; [reflexivity|].
  destruct (trimEnd_head c t Hc) as [u Hu]. rewrite Hu.
  cbn [trimStart]. rewrite Hc. rewrite <- Hu. apply trimEnd_idempotent.
Qed.

Lemma normText_trimmed v : trim (normText v) = normText v.
Proof.
  unfold normText. destruct (isNullish v); [reflexivity | apply trim_idempotent].
Qed.

(** X4.  A record is found by the text of its own PCode, PCode Name,
    Local Name, District or Cadaster cell, typed in any letter case and
    with white space around it. *)
Theorem search_finds_own_text (r : obj) (column typed : string) :
  In column ["PCode"; "PCode Name"; "Local Name"; "District"; "Cadaster"] ->
  toLowerCase (trim typed) = toLowerCase (normText (get r column)) ->
  isSubstring (toLowerCase (trim typed)) (__search (normalizeRow r)) /\
  applyFilters {| q := typed; district := "All"; cadaster := "All";
                  siteStatus := "All"; phoneStatus := "All"; qc := "All" |}
               [normalizeRow r] = [normalizeRow r].
Proof.
  intros Hcol Htyped.
  assert (Hsub : isSubstring (toLowerCase (trim typed)) (__search (normalizeRow r))).
  { rewrite Htyped. unfold normalizeRow. cbn [__search]. repeat raw_cell.
    cbn [join]. rewrite !toLowerCase_app.
    set (a := toLowerCase (normText (get r "PCode"))).
    set (b := toLowerCase (normText (get r "PCode Name"))).
    set (c := toLowerCase (normText (get r "Local Name"))).
    set (d := toLowerCase (normText (get r "District"))).
    set (e := toLowerCase (normText (get r "Cadaster"))).
    change (toLowerCase " ") with " ".
    simpl in Hcol.
    destruct Hcol as [<- | [<- | [<- | [<- | [<- | []]]]]].
    - exists "", (" " +:+ b +:+ " " +:+ c +:+ " " +:+ d +:+ " " +:+ e). reflexivity.
    - exists (a +:+ " "), (" " +:+ c +:+ " " +:+ d +:+ " " +:+ e).
      now rewrite !append_assoc_s.
    - exists (a +:+ " " +:+ b +:+ " "), (" " +:+ d +:+ " " +:+ e).
      now rewrite !append_assoc_s.
    - exists (a +:+ " " +:+ b +:+ " " +:+ c +:+ " "), (" " +:+ e).
      now rewrite !append_assoc_s.
    - exists (a +:+ " " +:+ b +:+ " " +:+ c +:+ " " +:+ d +:+ " "), "".
      now rewrite !append_assoc_s, append_nil_r. }
  split; [exact Hsub|].
  set (f := {| q := typed; district := "All"; cadaster := "All";
               siteStatus := "All"; phoneStatus := "All"; qc := "All" |}).
  unfold applyFilters. cbn [List.filter].
  assert (keeps f (toLowerCase (trim (q f))) (normalizeRow r) = true) as ->; [|reflexivity].
  apply keeps_passes. unfold passes, meets. cbn [f district cadaster siteStatus phoneStatus qc q].
  repeat split; auto; discriminate.
Qed.

Lemma search_finds_own_text_witness :
  let r := [("PCode", VStr " 0001-01-AbC "); ("District", VStr "Zahle")] in
  applyFilters {| q := "  0001-01-abc"; district := "All"; cadaster := "All";
                  siteStatus := "All"; phoneStatus := "All"; qc := "All" |}
               [normalizeRow r] = [normalizeRow r].
Proof.
  intros r.
  apply (search_finds_own_text r "PCode" "  0001-01-abc"); [now left | reflexivity].
Defined.


(** ** Column detection *)

Lemma find_first {A} (p : A -> bool) (l : list A) x :
  In x l -> p x = true -> exists y, find p l = Some y.
Proof.
  intros Hin Hp. destruct (find p l) as [y|] eqn:E; [eauto|].
  now rewrite (find_none p l E x Hin) in Hp.
Qed.

(** X5.  The identifier column is never blank: it is a column of the
    sheet or the literal PCode.  A column whose trimmed, case-folded name
    is pcode wins over any other; a column whose name contains pcode is
    enough for a column to be chosen; with no columns the literal is
    used. *)
Theorem inferPcodeKey_spec (keys : list string) :
  let k := inferPcodeKey keys in
  k <> "" /\ (In k keys \/ k = "PCode") /\
  (forall k0, In k0 keys -> toLowerCase (trim k0) = "pcode" ->
     In k keys /\ toLowerCase (trim k) = "pcode") /\
  (forall k0, In k0 keys -> containsCI "pcode" k0 = true -> In k keys) /\
  inferPcodeKey [] = "PCode".
Proof.
  intros k. subst k. unfold inferPcodeKey. cbv zeta.
  destruct (find (fun k => String.eqb (toLowerCase (trim k)) "pcode") keys) as [e|] eqn:E.
  - apply find_some in E as [Hin He]. apply String.eqb_eq in He.
    split; [intros ->; discriminate He|]. split; [now left|].
    split; [now split|]. split; [trivial | reflexivity].
  - set (fz := fun k => test (Seq (chi "p") (Seq (Star space) (word "code"))) k
                        || test (word "pcode") k).
    destruct (find fz keys) as [z|] eqn:Z.
    + apply find_some in Z as [Hin Hz].
      assert (Hne : nonEmpty z = true).
      { destruct z; [vm_compute in Hz; discriminate | reflexivity]. }
      unfold orElse. rewrite Hne.
      split; [now apply nonEmpty_true|]. split; [now left|].
      split; [|split; [trivial | reflexivity]].
      intros k0 H0 Hk0. apply (find_none _ _ E) in H0.
      rewrite Hk0 in H0. discriminate.
    + split; [discriminate|]. split; [now right|].
      split; [|split; [|reflexivity]].
      * intros k0 H0 Hk0. apply (find_none _ _ E) in H0.
        rewrite Hk0 in H0. discriminate.
      * intros k0 H0 Hk0. apply (find_none _ _ Z) in H0. unfold fz in H0.
        rewrite test_word, Hk0, orb_true_r in H0. discriminate.
Qed.

Lemma orKey_Some a b k :
  orKey a b = Some k -> (a = Some k /\ k <> "") \/ b = Some k.
Proof.
  unfold orKey. destruct a as [s|]; [|now right].
  destruct (nonEmpty s) eqn:E; [|now right].
  intros [= ->]. left. split; [reflexivity | now apply nonEmpty_true].
Qed.

Lemma orKey_None_r a k : orKey a None = Some k -> a = Some k /\ k <> "".
Proof. intros H. now destruct (orKey_Some _ _ _ H) as [H'|H']. Qed.

Lemma bestAbove_In thr s cands k :
  bestAbove thr s cands = Some k -> In k cands /\ (thr <= s k)%Q.
Proof.
  intros H. apply bestAbove_iff in H as [(l1 & l2 & -> & _) Hk]. split; [|exact Hk].
  apply in_or_app. right. now left.
Qed.

Lemma otherThan_incl b ks k : In k (otherThan b ks) -> In k ks.
Proof. destruct b; cbn [otherThan]; [|trivial]. intros H. now apply filter_In in H. Qed.

Lemma selected_keys_nonEmpty (rows : list obj) lat lng :
  latKey (inferLatLngKeys rows) = Some lat -> lngKey (inferLatLngKeys rows) = Some lng ->
  lat <> "" /\ lng <> "".
Proof.
  destruct rows as [|first rest]; [discriminate|].
  destruct (inferLatLngKeys_eq first rest) as [Hlat Hlng]. cbv zeta in Hlat, Hlng.
  rewrite Hlat, Hlng. intros H1 H2. split.
  - apply orKey_Some in H1 as [[_ H] | H]; [exact H | now apply orKey_None_r in H].
  - apply orKey_Some in H2 as [[_ H] | H]; [exact H | now apply orKey_None_r in H].
Qed.

(** X6.  A column selected for the latitude or the longitude is a
    column of the first row, has a name, and at least a quarter of its
    sampled values that parse lie in the band of its axis; without rows
    nothing is selected. *)
Theorem inferLatLngKeys_columns (rows : list obj) (k : string) :
  (latKey (inferLatLngKeys rows) = Some k ->
     In k (columns rows) /\ k <> "" /\ (0.25 <= latBand rows k)%Q) /\
  (lngKey (inferLatLngKeys rows) = Some k ->
     In k (columns rows) /\ k <> "" /\ (0.25 <= lngBand rows k)%Q) /\
  (rows = [] -> latKey (inferLatLngKeys rows) = None /\ lngKey (inferLatLngKeys rows) = None).
Proof.
  destruct rows as [|first rest]; [repeat split; discriminate|].
  destruct (inferLatLngKeys_eq first rest) as [Hlat Hlng]. cbv zeta in Hlat, Hlng.
  rewrite Hlat, Hlng. cbn [columns]. split; [|split; [|discriminate]].
  - intros H. apply orKey_Some in H as [[H Hne] | H].
    + apply bestAbove_In in H as [Hin Hs]. apply filter_In in Hin as [Hin Hn].
      repeat split; assumption.
    + apply orKey_None_r in H as [H Hne]. apply bestAbove_In in H as [Hin Hs].
      repeat split; try assumption. lra.
  - intros H. apply orKey_Some in H as [[H Hne] | H].
    + apply bestAbove_In in H as [Hin Hs]. apply filter_In in Hin as [Hin Hn].
      repeat split; assumption.
    + apply orKey_None_r in H as [H Hne]. apply bestAbove_In in H as [Hin Hs].
      apply otherThan_incl in Hin. repeat split; try assumption. lra.
Qed.

Lemma inferLatLngKeys_columns_witness :
  let rows := [[("Y", VNum (Fin 33.5)); ("X", VNum (Fin 35.5))]] in
  In "Y" (columns rows) /\ "Y" <> "" /\ (0.25 <= latBand rows "Y")%Q.
Proof.
  intros rows. apply (inferLatLngKeys_columns rows "Y"). reflexivity.
Defined.

Lemma sampledRows_window (rows more : list obj) :
  (1200 <= List.length rows)%nat -> sampledRows (rows ++ more) = sampledRows rows.
Proof.
  intros H. unfold sampledRows. rewrite length_app.
  rewrite !Nat.min_l by lia. rewrite firstn_app.
  replace (1200 - List.length rows)%nat with 0%nat by lia.
  cbn [firstn]. apply app_nil_r.
Qed.

(** X7.  Rows after the first 1200 have no say in the score of a
    column. *)
Theorem scoreKeyInRange_window (rows more : list obj) (k : string) (lo hi : Q) :
  (1200 <= List.length rows)%nat ->
  scoreKeyInRange (rows ++ more) k lo hi = scoreKeyInRange rows k lo hi.
Proof.
  intros H. rewrite !score_counts. unfold parsedSample.
  now rewrite sampledRows_window.
Qed.

Lemma scoreKeyInRange_window_witness :
  let rows := repeat [("Lat", VNum (Fin 33.5))] 1200 in
  scoreKeyInRange (rows ++ [[("Lat", VStr "90")]]) "Lat" 32.0 35.9 =
  scoreKeyInRange rows "Lat" 32.0 35.9.
Proof.
  intros rows. apply (scoreKeyInRange_window rows).
  unfold rows. rewrite repeat_length. lia.
Defined.

(** X8.  Outside the degrees-minutes-seconds form [parseCoordinate]
    gives a finite number or NaN, never an infinity: a number passes
    when it is finite and gives NaN when it is not, and a text that has
    not the form of degrees, minutes and seconds goes through the
    finiteness test of the loose parse.  Null, undefined and blank text
    give NaN.  (The sum of the degrees-minutes-seconds branch is
    returned as it is.) *)
Theorem parseCoordinate_finite_or_NaN (v : value) :
  ((exists n, v = VNum n) \/ exec dmsRe (trim (toStr v)) = None ->
   parseCoordinate v = NaN \/ exists x, parseCoordinate v = Fin x) /\
  (forall x, parseCoordinate (VNum (Fin x)) = Fin x) /\
  (forall b, parseCoordinate (VNum (Inf b)) = NaN) /\
  parseCoordinate (VNum NaN) = NaN /\
  parseCoordinate VNull = NaN /\ parseCoordinate VUndefined = NaN /\
  (forall s, trim s = "" -> parseCoordinate (VStr s) = NaN).
Proof.
  split; [|repeat split; try reflexivity].
  - assert (Hnum : forall n, parseCoordinate (VNum n) = NaN \/
                             exists x, parseCoordinate (VNum n) = Fin x).
    { intros n. unfold parseCoordinate. cbn [isNullish isEmptyStr orb].
      destruct n; cbn [isFinite]; eauto. }
    intros [[n ->] | Hd]; [apply Hnum|].
    destruct v as [| | b | n | s]; try apply Hnum;
      unfold parseCoordinate;
      (destruct (isNullish _ || isEmptyStr _); [now left|]);
      (destruct (negb (nonEmpty (trim (toStr _)))); [now left|]);
      unfold parseDms; rewrite Hd; unfold looseDecimal; cbv zeta;
      (destruct (stringToNumber _) as [| b' | x]; cbn [isFinite]; eauto).
  - intros s Hs. unfold parseCoordinate.
    destruct (isNullish (VStr s) || isEmptyStr (VStr s)); [reflexivity|].
    cbn [toStr]. now rewrite Hs.
Qed.

(** ** Coordinates of a row *)

Lemma buildCoords_index src (rows : list obj) :
  let res := buildCoordsMapFromRows src rows in
  let ks := inferLatLngKeys rows in
  names (snd res) = ks /\
  forall p, fst res !! p =
    match latKey ks, lngKey ks with
    | Some lat, Some lng => if nonEmpty p then lastWith (pcodeKey ks) lat lng rows p else None
    | _, _ => None
    end.
Proof.
  cbv zeta. unfold buildCoordsMapFromRows. cbv zeta.
  destruct (latKey (inferLatLngKeys rows)) as [lat|]; [|split; [reflexivity | intros; apply lookup_empty]].
  destruct (lngKey (inferLatLngKeys rows)) as [lng|]; [|split; [reflexivity | intros; apply lookup_empty]].
  pose proof (index_fold (pcodeKey (inferLatLngKeys rows)) lat lng rows) as Hf.
  cbv zeta in Hf.
  destruct (fold_left _ rows (∅, 0%nat)) as [mp n]. cbn [fst snd names] in *.
  split; [reflexivity | apply Hf].
Qed.

Lemma lastWith_source pk lat lng rows p c :
  lastWith pk lat lng rows p = Some c ->
  exists r, In r rows /\ rowPcode pk r = p /\ coordsOf lat lng r = Some c.
Proof.
  unfold lastWith.
  destruct (find _ (rev rows)) as [r|] eqn:F; [|discriminate].
  apply find_some in F as [Hin Hp]. apply andb_true_iff in Hp as [Hp _].
  apply String.eqb_eq in Hp. apply in_rev in Hin. intros H. eauto.
Qed.

(** X9.  With the index and the description built from the rows
    [rows]: a row whose cells under the two detected columns are finite
    always gets a coordinate; a coordinate that is given is the row's own
    or that of an indexed row whose identifier is the row's PCode, never
    anything else; and when a column is missing no row gets one. *)
Theorem getCoordForRow_spec (src : string) (rows : list obj) (row : obj) :
  let st := buildCoordsMapFromRows src rows in
  let ks := inferLatLngKeys rows in
  let found := getCoordForRow (fst st) (snd st) row in
  (forall lat lng, latKey ks = Some lat -> lngKey ks = Some lng ->
     hasCoords lat lng row = true -> exists c, found = Some c) /\
  (forall c, found = Some c ->
     exists lat lng, latKey ks = Some lat /\ lngKey ks = Some lng /\
       (coordsOf lat lng row = Some c \/
        exists r, In r rows /\ coordsOf lat lng r = Some c /\
                  rowPcode (pcodeKey ks) r = rowPcode "PCode" row)) /\
  (latKey ks = None \/ lngKey ks = None -> found = None).
Proof.
  intros st ks found. subst st ks found.
  destruct (buildCoords_index src rows) as [Hn Hi]. cbv zeta in Hn, Hi.
  unfold getCoordForRow. cbv zeta. rewrite Hn.
  assert (Hp : trim (toStr (nullish (get row "PCode") (VStr ""))) = rowPcode "PCode" row).
  { unfold rowPcode. now destruct (get row "PCode"). }
  rewrite Hp. set (p := rowPcode "PCode" row).
  rewrite Hi.
  destruct (latKey (inferLatLngKeys rows)) as [lat|] eqn:Elat.
  2:{ destruct (nonEmpty p); (split; [discriminate|]); (split; [discriminate | reflexivity]). }
  destruct (lngKey (inferLatLngKeys rows)) as [lng|] eqn:Elng.
  2:{ destruct (nonEmpty p); (split; [discriminate|]); (split; [discriminate | reflexivity]). }
  assert (Hlat : nonEmpty lat = true).
  { apply nonEmpty_true. eapply (proj1 (selected_keys_nonEmpty rows lat lng Elat Elng)). }
  assert (Hlng : nonEmpty lng = true).
  { apply nonEmpty_true. eapply (proj2 (selected_keys_nonEmpty rows lat lng Elat Elng)). }
  rewrite Hlat, Hlng. cbn [andb].
  fold (coordsOf lat lng row).
  split; [|split].
  - intros lat' lng' [= <-] [= <-] Hh. unfold hasCoords in Hh.
    destruct (if nonEmpty p then _ else None) as [c|]; [eauto|].
    destruct (coordsOf lat lng row) as [c|]; [eauto | discriminate].
  - intros c Hc. exists lat, lng. split; [reflexivity|]. split; [reflexivity|].
    destruct (nonEmpty p) eqn:Ne.
    + destruct (lastWith _ lat lng rows p) as [c'|] eqn:L.
      * injection Hc as <-. right.
        apply lastWith_source in L as (r & Hin & Hid & Hco). eauto.
      * now left.
    + now left.
  - intros [H|H]; discriminate.
Qed.


(** ** Counting and summing by key *)

Lemma filter_snoc {A} (p : A -> bool) (l : list A) (x : A) :
  List.filter p (l ++ [x]) = List.filter p l ++ (if p x then [x] else []).
Proof. rewrite List.filter_app. cbn [List.filter]. now destruct (p x). Qed.

Lemma countBy_snoc {A} (rows : list A) (fnKey : A -> string) (r : A) :
  countBy (rows ++ [r]) fnKey =
  match countBy rows fnKey with
  | Some m =>
      let k := orElse (fnKey r) "—" in
      if inherited k then None
      else Some (<[k := S (match m !! k with Some n => n | None => 0%nat end)]> m)
  | None => None
  end.
Proof. unfold countBy. now rewrite fold_left_app. Qed.

Lemma sum_insert (m : gmap string nat) k n :
  map_fold (fun _ v s => (v + s)%nat) 0%nat (<[k := S n]> m) =
  (S n + map_fold (fun _ v s => (v + s)%nat) 0%nat m
   - match m !! k with Some v => v | None => 0 end)%nat.
Proof.
  destruct (m !! k) as [v|] eqn:E.
  - rewrite <- insert_delete_eq.
    rewrite map_fold_insert_L; [|intros; lia | apply lookup_delete_eq].
    rewrite (map_fold_delete_L _ _ k v m); [lia | intros; lia | exact E].
  - rewrite map_fold_insert_L; [lia | intros; lia | exact E].
Qed.

Lemma countBy_table {A : Type} (rows : list A) (fnKey : A -> string) :
  Forall (fun r => inherited (orElse (fnKey r) "—") = false) rows ->
  exists m, countBy rows fnKey = Some m /\
    (forall k, m !! k =
       match List.length (List.filter (fun r => String.eqb (orElse (fnKey r) "—") k) rows) with
       | O => None
       | S n => Some (S n)
       end) /\
    map_fold (fun _ v s => (v + s)%nat) 0%nat m = List.length rows.
Proof.
  set (keyOf := fun r => orElse (fnKey r) "—").
  induction rows as [|r rows IH] using rev_ind; intros Hall.
  - exists ∅. split; [reflexivity|]. split; [intros k; apply lookup_empty | reflexivity].
  - apply Forall_app in Hall as [Hall Hr]. apply Forall_inv in Hr.
    destruct (IH Hall) as (m & Hm & Hlook & Hsum).
    rewrite countBy_snoc, Hm. cbv zeta. fold (keyOf r). fold (keyOf r) in Hr. rewrite Hr.
    eexists. split; [reflexivity|]. split.
    + intros k. rewrite filter_snoc, length_app.
      change (orElse (fnKey r) "—") with (keyOf r).
      destruct (String.eqb (keyOf r) k) eqn:E.
      * apply String.eqb_eq in E. subst k. rewrite lookup_insert_eq.
        rewrite Hlook. cbn [List.length].
        destruct (List.length (List.filter _ rows)); cbn; f_equal; lia.
      * apply String.eqb_neq in E. rewrite lookup_insert_ne by assumption.
        rewrite Hlook. cbn [List.length]. now rewrite Nat.add_0_r.
    + rewrite sum_insert, Hsum, length_app. cbn [List.length].
      assert (Hle : (match m !! keyOf r with Some v => v | None => 0 end
                     <= List.length rows)%nat).
      { rewrite Hlook.
        pose proof (filter_length_le (fun r0 => String.eqb (keyOf r0) (keyOf r)) rows).
        destruct (List.length (List.filter _ rows)); lia. }
      lia.
Qed.

(** X10.  When no key is an inherited property name, [countBy] gives
    every key that occurs the number of rows that carry it (a blank key
    counts as the dash), gives no other key, and its counts add up to
    the number of rows; with an inherited name among the keys the
    result is no table of counts. *)
Theorem countBy_counts {A : Type} (rows : list A) (fnKey : A -> string) :
  let keyOf := fun r => orElse (fnKey r) "—" in
  (Forall (fun r => inherited (keyOf r) = false) rows ->
   exists m, countBy rows fnKey = Some m /\
     (forall k, m !! k =
        match List.length (List.filter (fun r => String.eqb (keyOf r) k) rows) with
        | O => None
        | S n => Some (S n)
        end) /\
     map_fold (fun _ v s => (v + s)%nat) 0%nat m = List.length rows) /\
  (Exists (fun r => inherited (keyOf r) = true) rows -> countBy rows fnKey = None).
Proof.
  intros keyOf. split; [apply countBy_table|].
  induction rows as [|r rows IH] using rev_ind; intros Hex.
  - inversion Hex.
  - rewrite countBy_snoc. destruct (countBy rows fnKey) as [m|] eqn:Hm; [|reflexivity].
    cbv zeta. fold (keyOf r). apply Exists_app in Hex as [Hex | Hex].
    + discriminate (IH Hex).
    + apply Exists_cons in Hex as [Hex | Hex]; [now rewrite Hex | inversion Hex].
Qed.

Lemma countBy_counts_witness :
  exists m, countBy ["Active"; ""; "Active"] (fun s => s) = Some m /\
    (forall k, m !! k =
       match List.length (List.filter (fun r => String.eqb (orElse r "—") k)
                                      ["Active"; ""; "Active"]) with
       | O => None
       | S n => Some (S n)
       end) /\
    map_fold (fun _ v s => (v + s)%nat) 0%nat m = 3%nat.
Proof.
  apply (proj1 (countBy_counts ["Active"; ""; "Active"] (fun s => s))).
  repeat constructor.
Defined.

Lemma sumQ_snoc (l : list Q) (a : Q) : (sumQ (l ++ [a]) == sumQ l + a)%Q.
Proof. induction l as [|x l IH]; cbn [sumQ app]; [ring | rewrite IH; ring]. Qed.

Lemma orZero_Fin (x : Q) : exists y, orZero (Fin x) = Fin y /\ (y == x)%Q.
Proof.
  cbn [orZero]. destruct (Qeq_bool x 0) eqn:E.
  - apply Qeq_bool_iff in E. exists 0%Q. split; [reflexivity | now symmetry].
  - exists x. split; reflexivity.
Qed.

Lemma groupSum_snoc {A} (rows : list A) (fnKey : A -> string) (fnVal : A -> jsnum) (r : A) :
  groupSum (rows ++ [r]) fnKey fnVal =
  match groupSum rows fnKey fnVal with
  | Some m =>
      let k := orElse (fnKey r) "—" in
      if inherited k then None
      else Some (<[k := jsAdd (match m !! k with Some v => orZero v | None => Fin 0 end)
                              (orZero (fnVal r))]> m)
  | None => None
  end.
Proof. unfold groupSum. now rewrite fold_left_app. Qed.

(** X11.  When no key is an inherited property name and every value is
    finite, [groupSum] gives every key that occurs the sum of the values
    of the rows that carry it (a blank key counts as the dash), and
    gives no other key. *)
Theorem groupSum_sums {A : Type} (rows : list A) (fnKey : A -> string) (fnVal : A -> jsnum) :
  let keyOf := fun r => orElse (fnKey r) "—" in
  Forall (fun r => inherited (keyOf r) = false /\ isFinite (fnVal r) = true) rows ->
  exists m, groupSum rows fnKey fnVal = Some m /\
    forall k,
      let group := List.filter (fun r => String.eqb (keyOf r) k) rows in
      match m !! k with
      | Some v => group <> [] /\
                  exists x, v = Fin x /\ (x == sumQ (List.map (fun r => numQ (fnVal r)) group))%Q
      | None => group = []
      end.
Proof.
  intros keyOf. induction rows as [|r rows IH] using rev_ind; intros Hall.
  - exists ∅. split; [reflexivity|]. intros k. cbv zeta. now rewrite lookup_empty.
  - apply Forall_app in Hall as [Hall Hr]. apply Forall_inv in Hr as [Hk Hv].
    destruct (IH Hall) as (m & Hm & Hlook).
    rewrite groupSum_snoc, Hm. cbv zeta. fold (keyOf r). rewrite Hk.
    eexists. split; [reflexivity|].
    intros k. rewrite filter_snoc.
    destruct (String.eqb (keyOf r) k) eqn:E.
    + apply String.eqb_eq in E. subst k. rewrite lookup_insert_eq.
      split; [now destruct (List.filter _ rows)|].
      destruct (fnVal r) as [| b | x] eqn:Ev; try discriminate Hv.
      destruct (orZero_Fin x) as (x' & -> & Hx').
      specialize (Hlook (keyOf r)). cbv zeta in Hlook.
      rewrite map_app. cbn [List.map]. rewrite Ev. cbn [numQ].
      destruct (m !! keyOf r) as [v|].
      * destruct Hlook as [_ (y & -> & Hy)].
        destruct (orZero_Fin y) as (y' & -> & Hy').
        cbn [jsAdd]. eexists. split; [reflexivity|].
        rewrite sumQ_snoc, Hy', Hx', Hy. reflexivity.
      * rewrite Hlook. cbn [jsAdd List.map app sumQ]. eexists. split; [reflexivity|].
        rewrite Hx'. ring.
    + apply String.eqb_neq in E. rewrite lookup_insert_ne by assumption.
      rewrite app_nil_r. apply Hlook.
Qed.

Lemma groupSum_sums_witness :
  exists m, groupSum [("Zahle", Fin 3); ("", Fin 0); ("Zahle", Fin 4)] fst snd = Some m /\
    forall k,
      let group := List.filter (fun r => String.eqb (orElse (fst r) "—") k)
                               [("Zahle", Fin 3); ("", Fin 0); ("Zahle", Fin 4)] in
      match m !! k with
      | Some v => group <> [] /\
                  exists x, v = Fin x /\ (x == sumQ (List.map (fun r => numQ (snd r)) group))%Q
      | None => group = []
      end.
Proof.
  apply (groupSum_sums [("Zahle", Fin 3); ("", Fin 0); ("Zahle", Fin 4)] fst snd).
  repeat constructor.
Defined.

(** ** Indicators *)

Lemma filter_filter_le {A} (p q' : A -> bool) (l : list A) :
  (List.length (List.filter p (List.filter q' l)) <= List.length (List.filter p l))%nat.
Proof.
  induction l as [|x l IH]; [reflexivity|]. cbn [List.filter].
  destruct (q' x); cbn [List.filter]; destruct (p x); cbn [List.length]; lia.
Qed.

Lemma ratio_unit (part : Z) (whole : nat) :
  (0 <= part <= Z.of_nat whole)%Z -> (0 <= ratio part whole <= 1)%Q.
Proof.
  intros H. unfold ratio. destruct whole as [|n].
  - split; unfold Qle; simpl; lia.
  - split; unfold Qle; cbn [Qnum Qden]; rewrite ?Zpos_of_nat_S; lia.
Qed.

(** X12.  The indicators of a filtered view are consistent: the record
    count and the counts of assessed, active and flagged records are at
    most those of the whole data set and at most the record count;
    assessed and pending records add up to the record count, so pending
    is never negative; every share lies between 0 and 1, the assessed
    and pending shares add up to 1 on a view that is not empty; the four
    totals are 0 on a view without an active record; and with the
    default criteria the view is the whole data set. *)
Theorem updateKpis_consistent (f : filters) (rawRows : list record) :
  let k := updateKpis (applyFilters f rawRows) rawRows in
  (Kpi.total k <= Kpi.totalRaw k /\ Kpi.assessed k <= Kpi.assessedRaw k /\
   Kpi.active k <= Kpi.activeRaw k /\ Kpi.qcRecords k <= Kpi.qcRaw k)%nat /\
  (Kpi.assessed k <= Kpi.total k /\ Kpi.active k <= Kpi.total k /\
   Kpi.qcRecords k <= Kpi.total k)%nat /\
  (0 <= Kpi.pending k /\ Z.of_nat (Kpi.assessed k) + Kpi.pending k = Z.of_nat (Kpi.total k))%Z /\
  (0 <= Kpi.assessedShare k <= 1 /\ 0 <= Kpi.activeShare k <= 1 /\
   0 <= Kpi.qcShare k <= 1 /\ 0 <= Kpi.pendingPct k <= 1)%Q /\
  (Kpi.total k <> 0%nat -> Kpi.assessedShare k + Kpi.pendingPct k == 1)%Q /\
  (Kpi.active k = 0%nat ->
   Kpi.hh k = Fin 0 /\ Kpi.ind k = Fin 0 /\ Kpi.structures k = Fin 0 /\ Kpi.latrines k = Fin 0) /\
  (f = defaultFilters -> Kpi.total k = Kpi.totalRaw k).
Proof.
  intros k. subst k. unfold updateKpis. cbv zeta.
  cbn [Kpi.total Kpi.totalRaw Kpi.assessed Kpi.assessedRaw Kpi.active Kpi.activeRaw
       Kpi.qcRecords Kpi.qcRaw Kpi.hh Kpi.ind Kpi.structures Kpi.latrines
       Kpi.assessedShare Kpi.activeShare Kpi.qcShare Kpi.pending Kpi.pendingPct].
  set (rows := applyFilters f rawRows).
  pose proof (filter_length_le __assessed rows) as Ha.
  pose proof (filter_length_le isActive rows) as Hb.
  pose proof (filter_length_le hasIssue rows) as Hc.
  split.
  { unfold rows, applyFilters. repeat split;
      [apply filter_length_le | apply filter_filter_le ..]. }
  split; [repeat split; assumption|].
  split; [lia|].
  split; [repeat split; apply ratio_unit; lia|].
  split.
  { intros Hn. unfold ratio. destruct (List.length rows) as [|n] eqn:E; [contradiction|].
    unfold Qeq, Qplus. cbn [Qnum Qden]. rewrite !Pos2Z.inj_mul, !Zpos_of_nat_S. nia. }
  split.
  { intros H0. apply length_zero_iff_nil in H0. rewrite H0. now repeat split. }
  subst rows. intros ->. unfold applyFilters. f_equal. apply filter_all.
  intros x. apply (keeps_passes defaultFilters). unfold passes, meets.
  cbn [defaultFilters district cadaster siteStatus phoneStatus qc q].
  repeat split; auto; discriminate.
Qed.

(** ** Charts *)

Lemma orElse_eq_other a d k :
  d <> k -> k <> "" -> String.eqb (orElse a d) k = String.eqb a k.
Proof.
  intros Hd Hk. unfold orElse. destruct (nonEmpty a) eqn:E; [reflexivity|].
  apply nonEmpty_false in E. subst a.
  apply String.eqb_neq in Hd. rewrite Hd. symmetry. apply String.eqb_neq.
  intros H. now apply Hk.
Qed.

(** X13.  The charts agree with the indicators: when no status is an
    inherited property name, the bars of the site-status chart add up
    to the record count and its Active bar, present only when there is
    an active record, is the active count; the bars of the phone chart
    add up to the assessed count. *)
Theorem charts_agree_with_kpis (rows rawRows : list record) :
  Forall (fun r => inherited (orElse (__siteStatus r) "—") = false /\
                   inherited (orElse (__phoneStatus r) "—") = false) rows ->
  let k := updateKpis rows rawRows in
  exists statusCounts phoneCounts,
    countBy rows __siteStatus = Some statusCounts /\
    countBy (List.filter __assessed rows) __phoneStatus = Some phoneCounts /\
    map_fold (fun _ v s => (v + s)%nat) 0%nat statusCounts = Kpi.total k /\
    statusCounts !! "Active" =
      match Kpi.active k with O => None | S n => Some (S n) end /\
    map_fold (fun _ v s => (v + s)%nat) 0%nat phoneCounts = Kpi.assessed k.
Proof.
  intros Hall k. subst k.
  destruct (countBy_table rows __siteStatus) as (sc & Hsc & Hlook & Hsum).
  { eapply List.Forall_impl; [|exact Hall]. now intros r [H _]. }
  destruct (countBy_table (List.filter __assessed rows) __phoneStatus) as (pc & Hpc & _ & Hps).
  { apply List.Forall_forall. intros r Hr. apply filter_In in Hr as [Hr _].
    rewrite List.Forall_forall in Hall. now apply Hall. }
  exists sc, pc. unfold updateKpis. cbv zeta. cbn [Kpi.total Kpi.active Kpi.assessed].
  repeat split; try assumption.
  rewrite Hlook.
  rewrite (filter_ext_in _ isActive); [reflexivity|].
  intros r _. unfold isActive. apply orElse_eq_other; discriminate.
Qed.

Lemma charts_agree_with_kpis_witness :
  let rows := List.map normalizeRow
                [[("Site Status", VStr "Active"); ("Phone call status", VStr "Answer")];
                 [("Site Status", VStr "Closed")]] in
  let k := updateKpis rows rows in
  exists statusCounts phoneCounts,
    countBy rows __siteStatus = Some statusCounts /\
    countBy (List.filter __assessed rows) __phoneStatus = Some phoneCounts /\
    map_fold (fun _ v s => (v + s)%nat) 0%nat statusCounts = Kpi.total k /\
    statusCounts !! "Active" =
      match Kpi.active k with O => None | S n => Some (S n) end /\
    map_fold (fun _ v s => (v + s)%nat) 0%nat phoneCounts = Kpi.assessed k.
Proof.
  intros rows. apply (charts_agree_with_kpis rows rows).
  repeat constructor.
Defined.

Lemma fold_count {A} (p : A -> bool) (l : list A) (n : nat) :
  fold_left (fun s r => (s + (if p r then 1 else 0))%nat) l n =
  (n + List.length (List.filter p l))%nat.
Proof.
  revert n. induction l as [|x l IH]; intros n; cbn [fold_left List.filter].
  - cbn. lia.
  - rewrite IH. destruct (p x); cbn [List.length]; lia.
Qed.

Lemma cell_raw (r : record) (k : string) :
  forallb (differs k) derivedNames = true -> cell r k = get (fields r) k.
Proof.
  intros H. apply notIn_forallb in H. unfold cell, rowObject. cbv zeta.
  repeat (rewrite get_set_other; [|intros <-; apply H; vm_compute; tauto]).
  reflexivity.
Qed.

Lemma existsb_label {A} (g : A -> string) (p : A -> bool) (l : list A) (x : A) :
  List.NoDup (List.map g l) -> In x l ->
  existsb (String.eqb (g x)) (List.map g (List.filter p l)) = p x.
Proof.
  induction l as [|y l IH]; intros Hnd Hin; [destruct Hin|].
  cbn [List.map] in Hnd. apply List.NoDup_cons_iff in Hnd as [Hy Hnd].
  cbn [List.filter]. destruct Hin as [-> | Hin].
  - destruct (p x) eqn:Ep.
    + cbn [List.map existsb]. now rewrite String.eqb_refl.
    + destruct (existsb _ _) eqn:E; [|reflexivity].
      apply existsb_exists in E as (s & Hs & Heq). apply String.eqb_eq in Heq. subst s.
      apply in_map_iff in Hs as (z & Hz & Hin). apply filter_In in Hin as [Hin _].
      exfalso. apply Hy. rewrite <- Hz. now apply in_map.
  - assert (Hne : String.eqb (g x) (g y) = false).
    { apply String.eqb_neq. intros Heq. apply Hy. rewrite <- Heq. now apply in_map. }
    destruct (p y); cbn [List.map existsb]; rewrite ?Hne; now apply IH.
Qed.

Lemma labels_NoDup : List.NoDup (List.map label QC_RULES).
Proof.
  repeat (apply List.NoDup_cons; [vm_compute; intuition discriminate|]). apply List.NoDup_nil.
Qed.

(** X14.  The QC chart has one bar per rule, and the bar of a rule
    counts exactly the records whose flag list holds the label of the
    rule; no bar exceeds the number of records. *)
Theorem qcCounts_flags (raws : list obj) :
  let rows := List.map normalizeRow raws in
  qcCounts rows =
    List.map (fun rule =>
                List.length (List.filter
                  (fun r => existsb (String.eqb (label rule)) (__qcFlags r)) rows))
             QC_RULES /\
  List.length (qcCounts rows) = List.length QC_RULES /\
  Forall (fun n => (n <= List.length rows)%nat) (qcCounts rows).
Proof.
  intros rows. unfold qcCounts. split; [|split].
  - apply map_ext_in. intros rule Hrule. rewrite fold_count. cbn [Nat.add]. f_equal.
    apply filter_ext_in. intros r Hr. unfold rows in Hr.
    apply in_map_iff in Hr as (raw & <- & _).
    rewrite cell_raw.
    + unfold normalizeRow. cbn [fields __qcFlags]. rewrite collectFlags_eq.
      symmetry.
      apply (existsb_label label (fun rl => truthy (get (coerceNumFields raw) (col rl)))
                           QC_RULES rule labels_NoDup Hrule).
    + revert rule Hrule. apply List.Forall_forall.
      repeat (constructor; [vm_compute; reflexivity|]). constructor.
  - apply length_map.
  - apply List.Forall_forall. intros n Hn. apply in_map_iff in Hn as (rule & <- & _).
    rewrite fold_count. cbn [Nat.add]. apply filter_length_le.
Qed.


(** ** Markup *)

Lemma replaceAll_app p by_ a b :
  replaceAll p by_ (a +:+ b) = replaceAll p by_ a +:+ replaceAll p by_ b.
Proof.
  induction a as [|c a IH]; [reflexivity|].
  rewrite append_cons. cbn [replaceAll]. rewrite IH.
  destruct (p c); [now rewrite append_assoc_s | now rewrite append_cons].
Qed.

Lemma escapeHtml_app a b :
  escapeHtml (VStr (a +:+ b)) = escapeHtml (VStr a) +:+ escapeHtml (VStr b).
Proof. unfold escapeHtml. cbn [nullish isNullish toStr]. now rewrite !replaceAll_app. Qed.

Lemma escapeHtml_char c : escapeHtml (VStr (String c "")) = escapeChar c.
Proof. destruct c as [[] [] [] [] [] [] [] []]; reflexivity. Qed.

Lemma escapeHtml_each s : escapeHtml (VStr s) = escapeEach s.
Proof.
  induction s as [|c s IH]; [reflexivity|].
  change (String c s) with (String c "" +:+ s).
  rewrite escapeHtml_app, escapeHtml_char, IH. reflexivity.
Qed.

Lemma escapeChar_cases c :
  (exists t, escapeChar c = String "&" t /\
             In t ["amp;"; "lt;"; "gt;"; "quot;"; "#039;"] /\
             (markupChar c = true \/ c = "&"%char)) \/
  (escapeChar c = String c "" /\ markupChar c = false /\ c <> "&"%char).
Proof.
  destruct c as [[] [] [] [] [] [] [] []];
    try (right; split; [reflexivity | split; [reflexivity | discriminate]]);
    left; eexists; (split; [reflexivity|]); (split; [vm_compute; tauto|]);
    first [left; reflexivity | right; reflexivity].
Qed.

Lemma escapeChar_safe c : allChars (fun x => negb (markupChar x)) (escapeChar c) = true.
Proof. destruct c as [[] [] [] [] [] [] [] []]; reflexivity. Qed.

Lemma escapeChar_inj c d r1 r2 :
  escapeChar c +:+ r1 = escapeChar d +:+ r2 -> c = d /\ r1 = r2.
Proof.
  destruct (escapeChar_cases c) as [(t & Hc & Ht & Hmc) | (Hc & Hmc & Hac)];
  destruct (escapeChar_cases d) as [(u & Hd & Hu & Hmd) | (Hd & Hmd & Had)];
  rewrite Hc, Hd, !append_cons.
  - revert Hc Hd. clear Ht Hu Hmc Hmd.
    destruct c as [[] [] [] [] [] [] [] []]; try discriminate;
    destruct d as [[] [] [] [] [] [] [] []]; try discriminate;
    cbv; intros [= <-] [= <-]; intros H; try discriminate H;
    (split; [reflexivity | now injection H]).
  - intros [= <- _]. contradiction.
  - intros [= -> _]. contradiction.
  - rewrite !append_nil_l. intros [= -> ->]. now split.
Qed.

(** X15.  [escapeHtml] is the character-by-character replacement of the
    ampersand, the two angle brackets and the two quotes by their
    entities: the five passes never escape an entity twice.  Its result
    holds no angle bracket and no quote, different texts stay
    different, and null and undefined give the empty text. *)
Theorem escapeHtml_spec (s : string) :
  escapeHtml (VStr s) = escapeEach s /\
  allChars (fun c => negb (markupChar c)) (escapeHtml (VStr s)) = true /\
  (forall s', escapeHtml (VStr s) = escapeHtml (VStr s') -> s = s') /\
  escapeHtml VNull = "" /\ escapeHtml VUndefined = "".
Proof.
  split; [apply escapeHtml_each|]. split; [|split; [|split; reflexivity]].
  - rewrite escapeHtml_each. induction s as [|c s IH]; [reflexivity|].
    cbn [escapeEach]. now rewrite allChars_app, escapeChar_safe, IH.
  - intros s'. rewrite !escapeHtml_each. revert s'.
    induction s as [|c s IH]; intros [|d s'] H.
    + reflexivity.
    + cbn [escapeEach] in H.
      destruct (escapeChar_cases d) as [(t & Hd & _) | (Hd & _)];
        rewrite Hd, append_cons in H; discriminate H.
    + cbn [escapeEach] in H.
      destruct (escapeChar_cases c) as [(t & Hc & _) | (Hc & _)];
        rewrite Hc, append_cons in H; discriminate H.
    + cbn [escapeEach] in H. apply escapeChar_inj in H as [-> H].
      f_equal. now apply IH.
Qed.

(** ** Hash of a category *)

Lemma toInt32_range x : (- 2 ^ 31 <= toInt32 x < 2 ^ 31)%Z.
Proof. unfold toInt32. pose proof (Z.mod_pos_bound (x + 2 ^ 31) (2 ^ 32)). lia. Qed.

Lemma toInt32_congr x : exists k, (toInt32 x = x + k * 2 ^ 32)%Z.
Proof.
  exists (- ((x + 2 ^ 31) / 2 ^ 32))%Z. unfold toInt32.
  pose proof (Z.div_mod (x + 2 ^ 31) (2 ^ 32)). lia.
Qed.

Lemma toInt32_shift x k : toInt32 (x + k * 2 ^ 32) = toInt32 x.
Proof.
  unfold toInt32. f_equal.
  replace (x + k * 2 ^ 32 + 2 ^ 31)%Z with (x + 2 ^ 31 + k * 2 ^ 32)%Z by lia.
  apply Z_mod_plus_full.
Qed.

Lemma hash_loop (units : list Z) (h j : Z) :
  (exists k, h = j + k * 2 ^ 32)%Z ->
  exists k, (fold_left (fun h c => toInt32 (toInt32 h * 2 ^ 5) - h + c) units h =
             fold_left (fun h c => 31 * h + c) units j + k * 2 ^ 32)%Z.
Proof.
  revert h j. induction units as [|c units IH]; intros h j [k Hk]; cbn [fold_left].
  - now exists k.
  - apply IH.
    destruct (toInt32_congr h) as [k1 H1].
    destruct (toInt32_congr (toInt32 h * 2 ^ 5)) as [k2 H2].
    exists (32 * k1 + k2 + 31 * k)%Z. rewrite H2, H1, Hk. lia.
Qed.

Lemma hash_bound (units : list Z) (h : Z) :
  Forall (fun c => 0 <= c < 2 ^ 16)%Z units ->
  (Z.abs (fold_left (fun h c => toInt32 (toInt32 h * 2 ^ 5) - h + c) units h)
   <= Z.abs h + Z.of_nat (List.length units) * (2 ^ 31 + 2 ^ 16))%Z.
Proof.
  revert h. induction units as [|c units IH]; intros h Hall; cbn [fold_left List.length].
  - lia.
  - apply Forall_cons in Hall as [Hc Hall].
    specialize (IH (toInt32 (toInt32 h * 2 ^ 5) - h + c)%Z Hall).
    pose proof (toInt32_range (toInt32 h * 2 ^ 5)). lia.
Qed.

(** X16.  [hashCode] is the polynomial hash with multiplier 31 of the
    code units, reduced to a signed 32-bit integer; the hue derived from
    it lies between 0 and 359.  On code units the running value stays
    below 2^53 in size for texts of up to two million units, so that
    the number arithmetic of the loop is exact. *)
Theorem hashCode_spec (units : list Z) :
  hashCode units = toInt32 (polyHash units) /\
  (- 2 ^ 31 <= hashCode units < 2 ^ 31)%Z /\
  (0 <= hue units < 360)%Z /\
  (Forall (fun c => 0 <= c < 2 ^ 16)%Z units -> (Z.of_nat (List.length units) <= 2000000)%Z ->
   forall n, (n <= List.length units)%nat ->
     (Z.abs (fold_left (fun h c => toInt32 (toInt32 h * 2 ^ 5) - h + c)
                       (firstn n units) 0) < 2 ^ 53)%Z).
Proof.
  split; [|split; [apply toInt32_range | split]].
  - unfold hashCode, polyHash.
    destruct (hash_loop units 0 0) as [k ->]; [now exists 0%Z|].
    apply toInt32_shift.
  - unfold hue. apply Z.mod_pos_bound. lia.
  - intros Hall Hlen n Hn.
    pose proof (hash_bound (firstn n units) 0) as Hb.
    rewrite length_firstn, Nat.min_l in Hb by exact Hn.
    assert (Hf : Forall (fun c => 0 <= c < 2 ^ 16)%Z (firstn n units)).
    { apply List.Forall_forall. intros c Hc. rewrite List.Forall_forall in Hall.
      apply Hall. rewrite <- (firstn_skipn n units). apply in_or_app. now left. }
    specialize (Hb Hf). cbn [Z.abs] in Hb.
    assert (Z.of_nat n <= 2000000)%Z by lia.
    assert (2 ^ 53 = 9007199254740992)%Z as -> by reflexivity.
    assert (2 ^ 31 + 2 ^ 16 = 2147549184)%Z as E by reflexivity.
    rewrite E in Hb. nia.
Qed.


(** ** Sheet selection *)

Lemma indexOf_Some (l : list string) x i : indexOf l x = Some i -> nth_error l i = Some x.
Proof.
  revert i. induction l as [|y l IH]; intros i; cbn [indexOf]; [discriminate|].
  destruct (String.eqb y x) eqn:E.
  - intros [= <-]. apply String.eqb_eq in E. now subst.
  - destruct (indexOf l x) as [j|]; [|discriminate]. intros [= <-]. now apply IH.
Qed.

Lemma indexOf_None (l : list string) x : indexOf l x = None -> ~ In x l.
Proof.
  induction l as [|y l IH]; cbn [indexOf]; [tauto|].
  destruct (String.eqb y x) eqn:E; [discriminate|].
  destruct (indexOf l x); [discriminate|]. intros _ [H | H].
  - subst. now rewrite String.eqb_refl in E.
  - now apply IH.
Qed.

Lemma indexOf_first (l1 l2 : list string) x :
  ~ In x l1 -> indexOf (l1 ++ x :: l2) x = Some (List.length l1).
Proof.
  induction l1 as [|y l1 IH]; intros Hx; cbn [app indexOf List.length].
  - now rewrite String.eqb_refl.
  - destruct (String.eqb y x) eqn:E.
    + apply String.eqb_eq in E. exfalso. apply Hx. now left.
    + rewrite IH; [reflexivity|]. intros H. apply Hx. now right.
Qed.

(** X17.  [pickSheet] returns the preferred name when the workbook has
    a sheet under it; else the first sheet name that is the preferred
    one in another letter case; else the first sheet name.  It gives
    nothing only for a workbook without sheet names, and never a name
    from elsewhere. *)
Theorem pickSheet_spec {sheet : Type} (wb : workbook sheet) :
  (forall ws, Sheets wb !! PREFERRED_SHEET_NAME = Some ws ->
     pickSheet wb = Some PREFERRED_SHEET_NAME) /\
  (Sheets wb !! PREFERRED_SHEET_NAME = None ->
   forall before n after,
     SheetNames wb = before ++ n :: after ->
     toLowerCase n = toLowerCase PREFERRED_SHEET_NAME ->
     (forall n0, In n0 before -> toLowerCase n0 <> toLowerCase PREFERRED_SHEET_NAME) ->
     pickSheet wb = Some n) /\
  (Sheets wb !! PREFERRED_SHEET_NAME = None ->
   (forall n0, In n0 (SheetNames wb) ->
      toLowerCase n0 <> toLowerCase PREFERRED_SHEET_NAME) ->
   pickSheet wb = hd_error (SheetNames wb)) /\
  (pickSheet wb = None <->
     Sheets wb !! PREFERRED_SHEET_NAME = None /\ SheetNames wb = []) /\
  (forall n, pickSheet wb = Some n -> n = PREFERRED_SHEET_NAME \/ In n (SheetNames wb)) /\
  (forall n0, In n0 (SheetNames wb) ->
     toLowerCase n0 = toLowerCase PREFERRED_SHEET_NAME ->
     exists n, pickSheet wb = Some n /\ toLowerCase n = toLowerCase PREFERRED_SHEET_NAME).
Proof.
  unfold pickSheet. cbv zeta.
  destruct (Sheets wb !! PREFERRED_SHEET_NAME) as [ws|] eqn:Hs.
  { split; [reflexivity|]. split; [discriminate|]. split; [discriminate|].
    split; [split; [discriminate | now intros [? _]]|].
    split; [intros n [= <-]; now left|].
    intros; now exists PREFERRED_SHEET_NAME. }
  split; [discriminate|]. split.
  { intros _ before n after Hnames Hlow Hbefore. rewrite Hnames, map_app. cbn [List.map].
    rewrite Hlow, indexOf_first.
    - rewrite length_map, nth_error_app2 by lia. now rewrite Nat.sub_diag.
    - intros Hin. apply in_map_iff in Hin as (x & Hx & Hin). now apply (Hbefore x). }
  destruct (indexOf _ _) as [idx|] eqn:Hi.
  - apply indexOf_Some in Hi. rewrite nth_error_map in Hi.
    destruct (nth_error (SheetNames wb) idx) as [x|] eqn:Hx; [|discriminate].
    injection Hi as Hlow.
    split.
    { intros _ Hno. exfalso. apply (Hno x); [eapply nth_error_In; eauto | exact Hlow]. }
    split; [split; [discriminate | intros [_ H]; rewrite H in Hx; now destruct idx]|].
    split; [intros n [= <-]; right; eapply nth_error_In; eauto|].
    intros; now exists x.
  - apply indexOf_None in Hi.
    split; [intros _ _; now destruct (SheetNames wb)|].
    split.
    { destruct (SheetNames wb); cbn [nth_error]; split; try discriminate; auto.
      now intros [_ ?]. }
    split; [intros n Hn; right; eapply nth_error_In; eauto|].
    intros n0 Hin Hlow. exfalso. apply Hi. rewrite <- Hlow. now apply in_map.
Qed.

Lemma pickSheet_spec_witness :
  let wb := {| SheetNames := ["Summary"; "IAMP Sites Mapping"; "iamp sites mapping"];
               Sheets := {["Summary" := tt; "IAMP Sites Mapping" := tt;
                           "iamp sites mapping" := tt]} : gmap string unit |} in
  pickSheet wb = Some "IAMP Sites Mapping".
Proof.
  intros wb.
  destruct (pickSheet_spec wb) as (_ & Hfirst & _).
  apply (Hfirst eq_refl ["Summary"] "IAMP Sites Mapping" ["iamp sites mapping"]).
  - reflexivity.
  - reflexivity.
  - intros n0 [<- | []]. discriminate.
Defined.

(** ** Auto refresh *)

(** X18.  Without a source address auto-refresh is off (interval 0);
    with one the interval is the typed number of minutes in
    milliseconds, and one minute whenever the box is blank, holds no
    number or holds less than 1: it is never shorter than a minute. *)
Theorem applyRefresh_spec (refreshMinutes sourceUrl : string) :
  (sourceUrl = "" -> applyRefresh refreshMinutes sourceUrl = Fin 0) /\
  (sourceUrl <> "" ->
   exists mins ms,
     toNum (VStr refreshMinutes) = Fin mins /\
     applyRefresh refreshMinutes sourceUrl = Fin ms /\
     (60000 <= ms)%Q /\
     (1 <= mins -> ms == mins * 60000)%Q /\
     (mins < 1 -> ms == 60000)%Q).
Proof.
  unfold applyRefresh. cbv zeta. split.
  - now intros ->.
  - intros Hne. apply nonEmpty_true in Hne. rewrite Hne. cbn [negb].
    destruct (toNum_finite (VStr refreshMinutes)) as [m ->].
    exists m. cbn [max1]. destruct (Qle_bool 1 m) eqn:E; cbn [times].
    + apply Qle_bool_iff in E. eexists. split; [reflexivity|]. split; [reflexivity|].
      split; [lra|]. split; [intros _; ring | intros H; lra].
    + assert (Hlt : (m < 1)%Q).
      { apply Qnot_le_lt. intros H. apply Qle_bool_iff in H. congruence. }
      eexists. split; [reflexivity|]. split; [reflexivity|].
      split; [lra|]. split; [intros H; lra | intros _; ring].
Qed.

(** ** Data flow *)

Lemma onDataLoaded_state cmp search (rows : list record) (st : App.state) :
  let st' := onDataLoaded cmp search rows st in
  let pg := snd (applyQueryToFilters search (populateFilterControls cmp rows (App.dom st))) in
  App.raw st' = rows /\
  App.coordsByPcode st' = fst (setCoordsFromSpreadsheet rows) /\
  App.coordsMeta st' = snd (setCoordsFromSpreadsheet rows) /\
  App.filters st' = snd (applyQueryToFilters search (populateFilterControls cmp rows (App.dom st))) /\
  App.filtered st' = applyFilters (App.filters st') rows.
Proof.
  cbv zeta. unfold onDataLoaded.
  destruct (setCoordsFromSpreadsheet rows) as [mp meta].
  unfold applyQueryToFilters. cbv zeta. unfold updateAll. cbv zeta.
  cbn [App.raw App.coordsByPcode App.coordsMeta App.filters App.filtered App.dom fst snd].
  repeat split.
Qed.

Lemma selector_after_load cmp (values : list string) (p : option string) :
  let v := orElse (current (assignSelect p (setSelectOptions (uniqSorted cmp values)))) "All" in
  (v = "All" \/ (In v values /\ p = Some v)) /\ (p = None -> v = "All").
Proof.
  cbv zeta. destruct p as [v|]; [|split; [now left | reflexivity]].
  split; [|discriminate]. cbn [assignSelect].
  destruct (nonEmpty v) eqn:Ne; [|now left].
  unfold setValue. cbn [current options setSelectOptions].
  destruct (existsb (String.eqb v) ("All" :: uniqSorted cmp values)) eqn:E.
  - unfold orElse. rewrite Ne. apply existsb_exists in E as (x & Hx & Heq).
    apply String.eqb_eq in Heq. subst x. destruct Hx as [<- | Hx]; [now left|].
    apply In_uniqSorted in Hx as [Hx _]. right. now split.
  - now left.
Qed.

Lemma qc_after_load (p : option string) :
  let v := orElse (current (assignSelect p
             {| options := ["All"; "Any issue"; "No issues"]; current := "All" |})) "All" in
  In v ["All"; "Any issue"; "No issues"] /\ (p = None -> v = "All").
Proof.
  cbv zeta. destruct p as [v|]; [|split; [now left | reflexivity]].
  split; [|discriminate]. cbn [assignSelect].
  destruct (nonEmpty v) eqn:Ne; [|now left].
  unfold setValue. cbn [current options].
  destruct (existsb (String.eqb v) ["All"; "Any issue"; "No issues"]) eqn:E.
  - unfold orElse. rewrite Ne. apply existsb_exists in E as (x & Hx & Heq).
    apply String.eqb_eq in Heq. now subst x.
  - now left.
Qed.

(** X19.  After a load the view is the loaded records filtered by the
    criteria read from the controls, and no discrete criterion holds a
    value the loaded records lack: each is All or a district, cadaster,
    site status or phone status of some record, the QC selector is one
    of its three options.  Without parameters in the address every
    selector is at All and only the text of the search box is kept,
    trimmed. *)
Theorem onDataLoaded_view (localeCompare : string -> string -> comparison) (search : string)
    (rows : list record) (st : App.state) :
  let st' := onDataLoaded localeCompare search rows st in
  let f := App.filters st' in
  App.raw st' = rows /\
  App.filtered st' = applyFilters f rows /\
  (district f = "All" \/ In (district f) (List.map __district rows)) /\
  (cadaster f = "All" \/ In (cadaster f) (List.map __cadaster rows)) /\
  (siteStatus f = "All" \/ In (siteStatus f) (List.map __siteStatus rows)) /\
  (phoneStatus f = "All" \/ In (phoneStatus f) (List.map __phoneStatus rows)) /\
  In (qc f) ["All"; "Any issue"; "No issues"] /\
  (search = "" ->
   f = {| q := trim (searchInput (App.dom st)); district := "All"; cadaster := "All";
          siteStatus := "All"; phoneStatus := "All"; qc := "All" |}).
Proof.
  intros st' f. subst st' f.
  destruct (onDataLoaded_state localeCompare search rows st) as (Hraw & _ & _ & Hf & Hview).
  cbv zeta in Hraw, Hf, Hview. rewrite Hview, Hraw, Hf.
  split; [reflexivity|]. split; [reflexivity|].
  unfold applyQueryToFilters. cbv zeta. cbn [snd].
  unfold readFiltersFromUI, populateFilterControls.
  cbn [searchInput districtFilter cadasterFilter siteStatusFilter phoneStatusFilter qcFilter
       q district cadaster siteStatus phoneStatus qc].
  set (ps := USP.ofString search).
  pose proof (selector_after_load localeCompare (List.map __district rows) (USP.get ps "district")) as H1.
  pose proof (selector_after_load localeCompare (List.map __cadaster rows) (USP.get ps "cadaster")) as H2.
  pose proof (selector_after_load localeCompare (List.map __siteStatus rows) (USP.get ps "siteStatus")) as H3.
  pose proof (selector_after_load localeCompare (List.map __phoneStatus rows) (USP.get ps "phoneStatus")) as H4.
  pose proof (qc_after_load (USP.get ps "qc")) as H5.
  cbv zeta in H1, H2, H3, H4, H5.
  split; [destruct H1 as [[H | [H _]] _]; auto|].
  split; [destruct H2 as [[H | [H _]] _]; auto|].
  split; [destruct H3 as [[H | [H _]] _]; auto|].
  split; [destruct H4 as [[H | [H _]] _]; auto|].
  split; [apply H5|].
  intros ->. subst ps. reflexivity.
Qed.

Lemma selector_reset (sel : select) : orElse (current (setValue sel "All")) "All" = "All".
Proof.
  unfold setValue. cbn [current]. now destruct (existsb _ _).
Qed.

(** X20.  Reset always ends at the default criteria and shows every
    loaded record, whatever the controls held and whatever options the
    selectors have. *)
Theorem resetFilters_all (st : App.state) :
  let st' := resetFilters st in
  App.filters st' = defaultFilters /\
  App.filtered st' = App.raw st /\
  App.raw st' = App.raw st.
Proof.
  cbv zeta. unfold resetFilters, updateAll. cbv zeta.
  cbn [App.raw App.filters App.filtered App.dom].
  assert (Hf : readFiltersFromUI
                 {| searchInput := setInput "";
                    districtFilter := setValue (districtFilter (App.dom st)) "All";
                    cadasterFilter := setValue (cadasterFilter (App.dom st)) "All";
                    siteStatusFilter := setValue (siteStatusFilter (App.dom st)) "All";
                    phoneStatusFilter := setValue (phoneStatusFilter (App.dom st)) "All";
                    qcFilter := setValue (qcFilter (App.dom st)) "All" |} = defaultFilters).
  { unfold readFiltersFromUI.
    cbn [searchInput districtFilter cadasterFilter siteStatusFilter phoneStatusFilter qcFilter].
    now rewrite !selector_reset. }
  rewrite Hf. split; [reflexivity|]. split; [|reflexivity].
  unfold applyFilters. apply filter_all.
  intros x. apply (keeps_passes defaultFilters). unfold passes, meets.
  cbn [defaultFilters district cadaster siteStatus phoneStatus qc q].
  repeat split; auto; discriminate.
Qed.


(** ** Map *)

Lemma index_empty_iff src (rows : list obj) :
  let ks := inferLatLngKeys rows in
  size (fst (buildCoordsMapFromRows src rows)) = 0%nat <->
  (forall lat lng, latKey ks = Some lat -> lngKey ks = Some lng ->
     forall r, In r rows -> mappable (pcodeKey ks) lat lng r = false).
Proof.
  cbv zeta. destruct (buildCoords_index src rows) as [_ Hi]. cbv zeta in Hi.
  rewrite map_size_empty_iff. split.
  - intros He lat lng Hlat Hlng r Hin.
    destruct (mappable _ lat lng r) eqn:Hm; [|reflexivity]. exfalso.
    unfold mappable in Hm. apply andb_true_iff in Hm as [Hne Hco].
    specialize (Hi (rowPcode (pcodeKey (inferLatLngKeys rows)) r)).
    rewrite He, lookup_empty, Hlat, Hlng, Hne in Hi. unfold lastWith in Hi.
    destruct (find_first
                (fun r0 => String.eqb (rowPcode (pcodeKey (inferLatLngKeys rows)) r0)
                                      (rowPcode (pcodeKey (inferLatLngKeys rows)) r)
                           && hasCoords lat lng r0) (rev rows) r) as [y Hy].
    + now apply in_rev in Hin.
    + now rewrite String.eqb_refl, Hco.
    + rewrite Hy in Hi. apply find_some in Hy as [_ Hy].
      apply andb_true_iff in Hy as [_ Hy]. unfold hasCoords in Hy.
      destruct (coordsOf lat lng y); discriminate.
  - intros Hno. apply map_eq. intros p. rewrite lookup_empty, Hi.
    destruct (latKey (inferLatLngKeys rows)) as [lat|]; [|reflexivity].
    destruct (lngKey (inferLatLngKeys rows)) as [lng|]; [|reflexivity].
    destruct (nonEmpty p) eqn:Ne; [|reflexivity].
    destruct (lastWith _ lat lng rows p) as [c|] eqn:L; [|reflexivity].
    apply lastWith_source in L as (r & Hin & Hid & Hco).
    specialize (Hno lat lng eq_refl eq_refl r Hin).
    unfold mappable, hasCoords in Hno. rewrite Hid, Ne, Hco in Hno. discriminate.
Qed.

Lemma getCoordForRow_own src (rows : list obj) (row : obj) lat lng :
  latKey (inferLatLngKeys rows) = Some lat -> lngKey (inferLatLngKeys rows) = Some lng ->
  hasCoords lat lng row = true ->
  exists c, getCoordForRow (fst (buildCoordsMapFromRows src rows))
                           (snd (buildCoordsMapFromRows src rows)) row = Some c.
Proof.
  intros Hlat Hlng Hh.
  destruct (buildCoords_index src rows) as [Hn _]. cbv zeta in Hn.
  unfold getCoordForRow. cbv zeta. rewrite Hn, Hlat, Hlng.
  destruct (if nonEmpty _ then _ else None) as [c|]; [eauto|].
  destruct (selected_keys_nonEmpty rows lat lng Hlat Hlng) as [H1 H2].
  apply nonEmpty_true in H1, H2. rewrite H1, H2. cbn [andb].
  unfold hasCoords, coordsOf in Hh.
  destruct (parseCoordinate (get row lat)); try discriminate.
  destruct (parseCoordinate (get row lng)); try discriminate. eauto.
Qed.

Lemma place_fold (st : App.state) mode (rows : list record) (v : mapView) :
  let coord := fun r => getCoordForRow (App.coordsByPcode st) (App.coordsMeta st) (rowObject r) in
  fold_left (placeRow st mode) rows v =
  {| mappedPoints :=
       mappedPoints v ++
       flat_map (fun r => match coord r with
                          | Some c => [(r, c, getCategory r mode)]
                          | None => []
                          end) rows;
     missing :=
       missing v ++
       List.filter (fun r => match coord r with Some _ => false | None => true end) rows |}.
Proof.
  cbv zeta. revert v. induction rows as [|r rows IH]; intros v; cbn [fold_left flat_map List.filter].
  - rewrite !app_nil_r. now destruct v.
  - rewrite IH. unfold placeRow.
    destruct (getCoordForRow _ _ (rowObject r)); cbn [mappedPoints missing].
    + now rewrite <- app_assoc.
    + now rewrite <- app_assoc.
Qed.

Lemma getCategory_nonEmpty r mode : getCategory r mode <> "".
Proof.
  unfold getCategory. destruct (String.eqb mode "QC").
  - now destruct (String.eqb (__qcAny r) "Yes").
  - destruct (String.eqb mode "Phone call status"); now apply orElse_nonEmpty.
Qed.

(** X21.  After a load, [updateMap] shows the hint instead of markers
    exactly when no loaded record has both an identifier and two finite
    coordinates under the detected columns.  Otherwise the placed and
    the missing rows add up to the rows of the view, every placed row
    is a row of the view with a category that is not blank, and every
    row of the view with two finite coordinates of its own is placed. *)
Theorem updateMap_spec (localeCompare : string -> string -> comparison) (search : string)
    (recs : list record) (st0 : App.state) (mode : string) :
  let st := onDataLoaded localeCompare search recs st0 in
  let ks := inferLatLngKeys (List.map rowObject recs) in
  let rows := App.filtered st in
  (updateMap st mode rows = None <->
   forall lat lng, latKey ks = Some lat -> lngKey ks = Some lng ->
     forall r, In r recs -> mappable (pcodeKey ks) lat lng (rowObject r) = false) /\
  (forall v, updateMap st mode rows = Some v ->
     (List.length (mappedPoints v) + List.length (missing v) = List.length rows)%nat /\
     (forall r c cat, In (r, c, cat) (mappedPoints v) ->
        In r rows /\ cat = getCategory r mode /\ cat <> "") /\
     (forall r lat lng, In r rows -> latKey ks = Some lat -> lngKey ks = Some lng ->
        hasCoords lat lng (rowObject r) = true ->
        In r (List.map (fun x => fst (fst x)) (mappedPoints v)))).
Proof.
  intros st ks rows.
  destruct (onDataLoaded_state localeCompare search recs st0) as (_ & Hmp & Hmeta & _ & _).
  cbv zeta in Hmp, Hmeta. fold st in Hmp, Hmeta.
  unfold setCoordsFromSpreadsheet in Hmp, Hmeta.
  unfold updateMap. rewrite place_fold. cbv zeta. cbn [mappedPoints missing app].
  rewrite Hmp, Hmeta.
  pose proof (index_empty_iff "sheet" (List.map rowObject recs)) as He. cbv zeta in He.
  fold ks in He.
  set (mp := fst (buildCoordsMapFromRows "sheet" (List.map rowObject recs))) in *.
  set (meta := snd (buildCoordsMapFromRows "sheet" (List.map rowObject recs))) in *.
  split.
  - destruct (0 <? size mp)%nat eqn:E; cbn [negb].
    + split; [discriminate|]. intros H. apply Nat.ltb_lt in E.
      assert (size mp = 0%nat); [|lia].
      apply He. intros lat lng Hlat Hlng r Hr.
      apply in_map_iff in Hr as (r0 & <- & Hr0). now apply (H lat lng).
    + split; [|reflexivity]. intros _ lat lng Hlat Hlng r Hr.
      apply Nat.ltb_ge in E. assert (Hz : size mp = 0%nat) by lia.
      apply (proj1 He Hz lat lng Hlat Hlng). now apply in_map.
  - intros v Hv. destruct (0 <? size mp)%nat; [|discriminate]. cbn [negb] in Hv.
    injection Hv as <-. cbn [mappedPoints missing].
    split; [|split].
    + clear. induction rows as [|r rows IH]; [reflexivity|].
      cbn [flat_map List.filter].
      destruct (getCoordForRow mp meta (rowObject r)); cbn [app List.length]; lia.
    + intros r c cat Hin. apply in_flat_map in Hin as (r0 & Hr0 & Hin).
      destruct (getCoordForRow mp meta (rowObject r0)); [|destruct Hin].
      destruct Hin as [[= <- <- <-] | []].
      split; [exact Hr0|]. split; [reflexivity | apply getCategory_nonEmpty].
    + intros r lat lng Hr Hlat Hlng Hh.
      apply in_map_iff.
      destruct (getCoordForRow_own "sheet" (List.map rowObject recs) (rowObject r) lat lng
                  Hlat Hlng Hh) as [c Hc].
      exists (r, c, getCategory r mode). split; [reflexivity|].
      apply in_flat_map. exists r. split; [exact Hr|].
      fold mp meta in Hc. rewrite Hc. now left.
Qed.


(** ** CSV export, read back *)

Lemma csv_at_end st acc row done tl :
  st = FieldStart \/ st = Unquoted \/ st = QuoteSeen ->
  terminator tl -> csvRun st acc row done tl = fieldEnd row done acc tl.
Proof.
  intros Hst Ht. destruct tl as [|c r]; [now destruct st|].
  cbn [terminator] in Ht. cbn [fieldEnd csvRun].
  destruct Ht as [-> | ->]; destruct Hst as [-> | [-> | ->]]; reflexivity.
Qed.

Lemma csv_run_unquoted acc row done s tl :
  existsb_char needsQuoting s = false ->
  existsb_char (Ascii.eqb carriageReturn) s = false ->
  terminator tl ->
  csvRun Unquoted acc row done (s +:+ tl) = fieldEnd row done (acc +:+ s) tl.
Proof.
  revert acc. induction s as [|c s IH]; intros acc H Hcr Ht.
  - rewrite append_nil_l, append_nil_r. apply csv_at_end; auto.
  - cbn [existsb_char] in H, Hcr.
    apply orb_false_iff in H as [Hc Hs]. apply orb_false_iff in Hcr as [Hc' Hs'].
    rewrite append_cons.
    rewrite csv_data_char; [| auto | exact Hc | left; now rewrite Ascii.eqb_sym].
    rewrite IH by assumption. now rewrite snoc_append.
Qed.

Lemma csv_run_plain row done s tl :
  existsb_char needsQuoting s = false ->
  existsb_char (Ascii.eqb carriageReturn) s = false ->
  terminator tl ->
  csvRun FieldStart "" row done (s +:+ tl) = fieldEnd row done s tl.
Proof.
  intros H Hcr Ht. destruct s as [|c s].
  - rewrite append_nil_l. apply csv_at_end; auto.
  - cbn [existsb_char] in H, Hcr.
    apply orb_false_iff in H as [Hc Hs]. apply orb_false_iff in Hcr as [Hc' Hs'].
    rewrite append_cons.
    rewrite csv_data_char; [| auto | exact Hc | left; now rewrite Ascii.eqb_sym].
    now rewrite csv_run_unquoted.
Qed.

Lemma csv_run_quoted acc row done s tl :
  terminator tl ->
  csvRun Quoted acc row done
    (replaceAll (Ascii.eqb dquote) (String dquote (String dquote "")) s +:+ String dquote tl)
  = fieldEnd row done (acc +:+ s) tl.
Proof.
  intros Ht. revert acc. induction s as [|c s IH]; intros acc.
  - cbn [replaceAll]. rewrite append_nil_l, append_nil_r. cbn [csvRun].
    rewrite Ascii.eqb_refl. apply csv_at_end; auto.
  - cbn [replaceAll]. destruct (Ascii.eqb dquote c) eqn:E.
    + apply Ascii.eqb_eq in E as <-. rewrite !append_cons, append_nil_l.
      cbn [csvRun]. rewrite Ascii.eqb_refl.
      rewrite IH. now rewrite snoc_append.
    + rewrite append_cons. cbn [csvRun]. rewrite Ascii.eqb_sym, E.
      rewrite IH. now rewrite snoc_append.
Qed.

Lemma csv_run_field v row done tl :
  unquotedCR (cellText v) = false -> terminator tl ->
  csvRun FieldStart "" row done (esc v +:+ tl) = fieldEnd row done (cellText v) tl.
Proof.
  intros Hcr Ht. rewrite esc_cases. unfold unquotedCR in Hcr.
  destruct (existsb_char needsQuoting (cellText v)) eqn:E.
  - unfold quoted. rewrite append_cons, append_assoc_s, append_cons, append_nil_l.
    cbn [csvRun]. rewrite Ascii.eqb_refl. now rewrite csv_run_quoted.
  - cbn [negb] in Hcr. rewrite andb_true_r in Hcr. now apply csv_run_plain.
Qed.

Lemma csv_run_line (vs : list value) row done tl :
  vs <> [] -> Forall (fun v => unquotedCR (cellText v) = false) vs ->
  tl = "" \/ (exists r, tl = String newline r) ->
  csvRun FieldStart "" row done (join "," (List.map esc vs) +:+ tl) =
  match tl with
  | EmptyString => done ++ [row ++ List.map cellText vs]
  | String _ r => csvRun FieldStart "" [] (done ++ [row ++ List.map cellText vs]) r
  end.
Proof.
  intros Hne Hall Htl. revert row. induction vs as [|v vs IH]; intros row; [contradiction|].
  apply Forall_cons in Hall as [Hv Hall].
  destruct vs as [|v' vs].
  - cbn [List.map join]. rewrite csv_run_field.
    + destruct Htl as [-> | [r ->]]; reflexivity.
    + exact Hv.
    + destruct Htl as [-> | [r ->]]; cbn; auto.
  - change (join "," (List.map esc (v :: v' :: vs)))
      with (esc v +:+ "," +:+ join "," (List.map esc (v' :: vs))).
    rewrite append_assoc_s, ?append_cons, ?append_nil_l.
    rewrite csv_run_field; [| exact Hv | cbn; auto].
    cbn [fieldEnd]. change (Ascii.eqb "," comma) with true. cbv iota.
    rewrite IH by (discriminate || assumption).
    change (List.map cellText (v :: v' :: vs))
      with ([cellText v] ++ List.map cellText (v' :: vs)).
    now rewrite !app_assoc.
Qed.

Lemma csv_run_table (ls : list (list value)) done :
  ls <> [] ->
  Forall (fun vs => vs <> [] /\ Forall (fun v => unquotedCR (cellText v) = false) vs) ls ->
  csvRun FieldStart "" [] done
    (join (String newline "") (List.map (fun vs => join "," (List.map esc vs)) ls)) =
  done ++ List.map (List.map cellText) ls.
Proof.
  intros Hne Hall. revert done. induction ls as [|l ls IH]; intros done; [contradiction|].
  apply Forall_cons in Hall as [[Hl Hcr] Hall].
  destruct ls as [|l' ls].
  - cbn [List.map join]. rewrite <- (append_nil_r (join "," (List.map esc l))).
    now rewrite csv_run_line by auto.
  - change (join (String newline "")
              (List.map (fun vs => join "," (List.map esc vs)) (l :: l' :: ls)))
      with (join "," (List.map esc l) +:+ String newline "" +:+
            join (String newline "")
              (List.map (fun vs => join "," (List.map esc vs)) (l' :: ls))).
    rewrite ?append_cons, ?append_nil_l.
    rewrite csv_run_line by eauto.
    rewrite IH by (discriminate || assumption).
    cbn [app List.map]. now rewrite <- app_assoc.
Qed.

Lemma toCSV_parse (rows : list obj) (columns : list string) :
  columns <> [] ->
  Forall (fun c => unquotedCR c = false) columns ->
  Forall (fun r => Forall (fun c => unquotedCR (cellText (get r c)) = false) columns) rows ->
  parseCsv (toCSV rows columns) =
  columns :: List.map (fun r => List.map (fun c => cellText (get r c)) columns) rows.
Proof.
  intros Hne Hcols Hcells. unfold toCSV, parseCsv. cbv zeta.
  assert (E : join "," (List.map (fun c => esc (VStr c)) columns)
              :: List.map (fun r => join "," (List.map (fun c => esc (get r c)) columns)) rows
            = List.map (fun vs => join "," (List.map esc vs))
                (List.map VStr columns :: List.map (fun r => List.map (get r) columns) rows)).
  { cbn [List.map]. rewrite !List.map_map. f_equal.
    apply map_ext. intros r. now rewrite List.map_map. }
  rewrite E. rewrite csv_run_table.
  - cbn [app List.map]. rewrite !List.map_map. f_equal.
    + change (fun x => cellText (VStr x)) with (fun x : string => x). apply map_id.
    + apply map_ext. intros r. now rewrite List.map_map.
  - discriminate.
  - constructor.
    + split; [destruct columns; [contradiction | discriminate]|].
      apply List.Forall_forall. intros v Hv. apply in_map_iff in Hv as (c & <- & Hc).
      rewrite List.Forall_forall in Hcols. now apply Hcols.
    + apply List.Forall_forall. intros vs Hvs. apply in_map_iff in Hvs as (r & <- & Hr).
      split; [destruct columns; [contradiction | discriminate]|].
      apply List.Forall_forall. intros v Hv. apply in_map_iff in Hv as (c & <- & Hc).
      rewrite List.Forall_forall in Hcells. specialize (Hcells r Hr).
      rewrite List.Forall_forall in Hcells. now apply Hcells.
Qed.

(** A carriage return is not among the characters [esc] quotes: at the
    end of a line it joins the line feed that follows, and the cell
    reads back without it. *)
Lemma toCSV_carriage_return_lost :
  let x := String "x" (String carriageReturn "") in
  toCSV [[("a", VStr x)]; [("a", VStr "y")]] ["a"] =
    String "a" (String newline (x +:+ String newline "y")) /\
  parseCsv (toCSV [[("a", VStr x)]; [("a", VStr "y")]] ["a"]) = [["a"]; ["x"]; ["y"]].
Proof. split; reflexivity. Qed.

(** X22.  A table written by [toCSV] with at least one column, in which
    no name or cell that is written without quotes holds a carriage
    return, reads back by the standard rules as the header line with the
    column names followed by one line per row with the texts of its
    cells, an empty text for a missing cell: quotes, commas and line
    feeds in names and cells change neither the number of lines nor the
    number of fields.  (Lemma [toCSV_carriage_return_lost] shows what a
    carriage return does.) *)
Theorem toCSV_roundtrip (rows : list obj) (columns : list string) :
  columns <> [] ->
  Forall (fun c => unquotedCR c = false) columns ->
  Forall (fun r => Forall (fun c => unquotedCR (cellText (get r c)) = false) columns) rows ->
  parseCsv (toCSV rows columns) =
    columns :: List.map (fun r => List.map (fun c => cellText (get r c)) columns) rows /\
  List.length (parseCsv (toCSV rows columns)) = S (List.length rows) /\
  Forall (fun line => List.length line = List.length columns) (parseCsv (toCSV rows columns)).
Proof.
  intros Hne Hcols Hcells. rewrite toCSV_parse by assumption. split; [reflexivity|]. split.
  - cbn [List.length]. now rewrite length_map.
  - constructor; [reflexivity|]. apply List.Forall_forall. intros line Hl.
    apply in_map_iff in Hl as (r & <- & _). apply length_map.
Qed.

Lemma toCSV_roundtrip_witness :
  let cr := String carriageReturn "" in
  let rows := [[("a", VStr "x,y"); ("b", VNull)];
               [("a", VStr ("line 1" +:+ cr +:+ String newline "line 2"));
                ("b", VStr (String dquote ""))]] in
  parseCsv (toCSV rows ["a"; "b"]) =
    ["a"; "b"] :: List.map (fun r => List.map (fun c => cellText (get r c)) ["a"; "b"]) rows /\
  List.length (parseCsv (toCSV rows ["a"; "b"])) = S (List.length rows) /\
  Forall (fun line => List.length line = List.length ["a"; "b"]) (parseCsv (toCSV rows ["a"; "b"])).
Proof.
  intros cr rows. apply (toCSV_roundtrip rows ["a"; "b"]).
  - discriminate.
  - repeat constructor.
  - repeat constructor.
Defined.

Lemma numberToString_nonEmpty x : numberToString (Fin x) <> "".
Proof.
  unfold numberToString. cbv zeta.
  destruct (Qlt_le_dec x 0); [discriminate|].
  destruct (N.to_uint (Z.to_N (Qfloor (Qabs x)))); discriminate.
Qed.

Lemma get_rowObject (r : record) (k : string) :
  forallb (differs k) derivedNames = true -> get (rowObject r) k = get (fields r) k.
Proof.
  intros H. apply notIn_forallb in H. unfold rowObject. cbv zeta.
  repeat (rewrite get_set_other; [|intros <-; apply H; vm_compute; tauto]).
  reflexivity.
Qed.

(** X23.  When no exported text that is written without quotes holds a
    carriage return, the exported file reads back as the 18 column names
    followed by one line of 18 fields per record of the view.  The last
    field of a record is its flag list joined by a semicolon and a
    space, and a numeric column holds the printed number of the record,
    never an empty text. *)
Theorem exportCsv_roundtrip (rows : list record) :
  Forall (fun r => Forall (fun c => unquotedCR (cellText (get (sanitizeForExport r) c)) = false)
                          exportColumns) rows ->
  parseCsv (exportCsv rows) =
    exportColumns ::
    List.map (fun r => List.map (fun c => cellText (get (sanitizeForExport r) c))
                                exportColumns) rows /\
  List.length (parseCsv (exportCsv rows)) = S (List.length rows) /\
  Forall (fun line => List.length line = 18%nat) (parseCsv (exportCsv rows)) /\
  (forall r, cellText (get (sanitizeForExport r) "__qcFlagsText") = join "; " (__qcFlags r)) /\
  (forall raw c,
     In c ["Total number of Structures"; "Total number of Households";
           "Total number of Individuals"; "Number of Latrines"; "QC - Issue count"] ->
     cellText (get (sanitizeForExport (normalizeRow raw)) c) =
       numberToString (toNum (get raw c)) /\
     cellText (get (sanitizeForExport (normalizeRow raw)) c) <> "").
Proof.
  intros Hcr. unfold exportCsv.
  assert (Hne : exportColumns <> []) by discriminate.
  assert (Hcols : Forall (fun c => unquotedCR c = false) exportColumns)
    by (repeat constructor).
  assert (Hcells : Forall (fun r => Forall (fun c => unquotedCR (cellText (get r c)) = false)
                                           exportColumns)
                          (List.map sanitizeForExport rows)).
  { apply List.Forall_forall. intros o Ho. apply in_map_iff in Ho as (r & <- & Hr).
    rewrite List.Forall_forall in Hcr. now apply Hcr. }
  rewrite (toCSV_parse _ _ Hne Hcols Hcells). rewrite List.map_map.
  split; [reflexivity|]. split; [cbn [List.length]; now rewrite length_map|].
  split.
  { constructor; [reflexivity|]. apply List.Forall_forall. intros line Hl.
    apply in_map_iff in Hl as (r & <- & _). reflexivity. }
  split.
  { intros r. unfold sanitizeForExport. now rewrite get_set_same. }
  intros raw c Hc.
  assert (Hcell : get (sanitizeForExport (normalizeRow raw)) c = VNum (toNum (get raw c))).
  { unfold sanitizeForExport.
    rewrite get_set_other by (intros <-; revert Hc; vm_compute; intuition discriminate).
    assert (Hd : forallb (differs c) derivedNames = true)
      by (destruct Hc as [<- | [<- | [<- | [<- | [<- | []]]]]]; reflexivity).
    rewrite (get_rowObject (normalizeRow raw) c Hd).
    change (fields (normalizeRow raw)) with (coerceNumFields raw). unfold coerceNumFields.
    apply get_coerced_field.
    destruct Hc as [<- | [<- | [<- | [<- | [<- | []]]]]]; vm_compute; tauto. }
  rewrite Hcell. split; [reflexivity|].
  destruct (toNum_finite (get raw c)) as [x ->].
  cbn [cellText isNullish toStr]. intros H.
  pose proof (numberToString_nonEmpty x) as Hn. congruence.
Qed.

Lemma exportCsv_roundtrip_witness :
  let rows := parseWorkbook
                [[("PCode", VStr "0001-01-001"); ("Local Name", VStr "Camp A, north");
                  ("QC - Totals mismatch", VStr "Yes"); ("Total number of Households", VStr "12")];
                 [("PCode", VStr "0002-01-002")]] in
  parseCsv (exportCsv rows) =
    exportColumns ::
    List.map (fun r => List.map (fun c => cellText (get (sanitizeForExport r) c))
                                exportColumns) rows /\
  List.length (parseCsv (exportCsv rows)) = 3%nat.
Proof.
  intros rows.
  destruct (exportCsv_roundtrip rows) as (H1 & H2 & _).
  - repeat constructor.
  - split; [exact H1 | exact H2].
Defined.

(** ** Selector options *)

Lemma NoDup_insertSorted cmp x (l : list string) :
  ~ In x l -> List.NoDup l -> List.NoDup (insertSorted cmp x l).
Proof.
  induction l as [|y l IH]; intros Hx Hnd; cbn [insertSorted].
  - constructor; [tauto | constructor].
  - apply List.NoDup_cons_iff in Hnd as [Hy Hnd].
    destruct (cmp x y); try (constructor; [exact Hx | now constructor]);
      (constructor;
       [rewrite In_insertSorted; intros [H | H];
        [subst; apply Hx; now left | contradiction]
       | apply IH; [intros H; apply Hx; now right | exact Hnd]]).
Qed.

Lemma NoDup_sortBy cmp (l : list string) : List.NoDup l -> List.NoDup (sortBy cmp l).
Proof.
  induction l as [|x l IH]; intros Hnd; [constructor|].
  apply List.NoDup_cons_iff in Hnd as [Hx Hnd]. cbn [sortBy fold_right].
  apply NoDup_insertSorted; [|now apply IH].
  fold (sortBy cmp l). now rewrite In_sortBy.
Qed.

Lemma NoDup_dedupe (l : list string) : List.NoDup (dedupe l).
Proof.
  induction l as [|x l IH]; [constructor|]. cbn [dedupe]. constructor.
  - rewrite filter_In. intros [_ H]. apply differs_true in H. congruence.
  - now apply List.NoDup_filter.
Qed.

(** X24.  A selector filled from the records offers All first and
    selected, then every value that occurs, once each; the blank value
    and the dash are never offered, nor any value no record has. *)
Theorem uniqSorted_options (localeCompare : string -> string -> comparison)
    (values : list string) :
  let sel := setSelectOptions (uniqSorted localeCompare values) in
  options sel = "All" :: uniqSorted localeCompare values /\
  current sel = "All" /\
  List.NoDup (uniqSorted localeCompare values) /\
  (forall v, In v (uniqSorted localeCompare values) <->
             In v values /\ v <> "" /\ v <> "—").
Proof.
  cbv zeta. split; [reflexivity|]. split; [reflexivity|]. split.
  - unfold uniqSorted. apply NoDup_sortBy, NoDup_dedupe.
  - intros v. apply In_uniqSorted.
Qed.

(** ** Share link, end to end *)

Lemma existsb_allChars p s :
  existsb_char p s = false <-> allChars (fun c => negb (p c)) s = true.
Proof.
  induction s as [|c s IH]; cbn [existsb_char allChars]; [tauto|].
  rewrite orb_false_iff, andb_true_iff, negb_true_iff, IH. reflexivity.
Qed.

Lemma setInput_one_line v : existsb_char isLineBreak (setInput v) = false.
Proof.
  unfold setInput. induction v as [|c v IH]; [reflexivity|]. cbn [replaceAll].
  destruct (isLineBreak c) eqn:E.
  - now rewrite append_nil_l.
  - cbn [existsb_char]. now rewrite E, IH.
Qed.

Lemma selector_offered cmp (values : list string) (p : option string) :
  offered (orElse (current (assignSelect p (setSelectOptions (uniqSorted cmp values)))) "All")
          values.
Proof.
  destruct p as [v|]; [|now left]. cbn [assignSelect].
  destruct (nonEmpty v) eqn:Ne; [|now left].
  unfold setValue. cbn [current options setSelectOptions].
  destruct (existsb (String.eqb v) ("All" :: uniqSorted cmp values)) eqn:E; [|now left].
  unfold orElse. rewrite Ne. apply existsb_exists in E as (x & Hx & Heq).
  apply String.eqb_eq in Heq. subst x. destruct Hx as [<- | Hx]; [now left|].
  right. now apply In_uniqSorted in Hx.
Qed.

Lemma reload_filters cmp (rows : list record) (pg : page) (f : filters) :
  trim (q f) = q f ->
  existsb_char isLineBreak (q f) = false ->
  (q f = "" -> trim (searchInput pg) = "") ->
  offered (district f) (List.map __district rows) ->
  offered (cadaster f) (List.map __cadaster rows) ->
  offered (siteStatus f) (List.map __siteStatus rows) ->
  offered (phoneStatus f) (List.map __phoneStatus rows) ->
  In (qc f) ["All"; "Any issue"; "No issues"] ->
  snd (applyQueryToFilters (shareSearch f) (populateFilterControls cmp rows pg)) = f.
Proof.
  intros Hq Hl Hbox Hd Hc Hs Hp Hqc.
  unfold applyQueryToFilters. cbv zeta. cbn [snd].
  rewrite ofString_shareSearch.
  destruct (get_nonDefaults f) as (-> & -> & -> & -> & -> & ->).
  unfold readFiltersFromUI, populateFilterControls.
  cbn [searchInput districtFilter cadasterFilter siteStatusFilter phoneStatusFilter qcFilter].
  rewrite input_roundtrip by assumption.
  rewrite !select_roundtrip by assumption.
  rewrite qc_roundtrip by assumption.
  now destruct f.
Qed.

(** X25.  The link copied from the view of a load opens to the same
    view: with the same records loaded and an empty search box, the
    criteria read back are those of the view the link was copied from,
    and so are the records shown.  The search box the link was copied
    from holds one line of text. *)
Theorem shareLink_reopens (localeCompare : string -> string -> comparison) (search : string)
    (rows : list record) (st st2 : App.state) :
  existsb_char isLineBreak (searchInput (App.dom st)) = false ->
  trim (searchInput (App.dom st2)) = "" ->
  let st' := onDataLoaded localeCompare search rows st in
  let st'' := onDataLoaded localeCompare (shareSearch (App.filters st')) rows st2 in
  App.filters st'' = App.filters st' /\ App.filtered st'' = App.filtered st'.
Proof.
  intros Hline Hblank st' st''.
  destruct (onDataLoaded_state localeCompare search rows st) as (_ & _ & _ & Hf & Hv).
  destruct (onDataLoaded_state localeCompare (shareSearch (App.filters st')) rows st2)
    as (_ & _ & _ & Hf2 & Hv2).
  cbv zeta in Hf, Hv, Hf2, Hv2. fold st' in Hf, Hv, Hf2, Hv2. fold st'' in Hf2, Hv2.
  assert (E : App.filters st'' = App.filters st'); [|split; [exact E | now rewrite Hv2, Hv, E]].
  rewrite Hf2. apply reload_filters; rewrite Hf;
    unfold applyQueryToFilters; cbv zeta; cbn [snd];
    unfold readFiltersFromUI, populateFilterControls;
    cbn [searchInput districtFilter cadasterFilter siteStatusFilter phoneStatusFilter qcFilter
         q district cadaster siteStatus phoneStatus qc].
  - apply normText_trimmed.
  - unfold normText. cbn [isNullish toStr]. apply existsb_allChars, allChars_trim.
    apply existsb_allChars. unfold assignInput.
    destruct (USP.get _ "q") as [v|]; [|exact Hline].
    destruct (nonEmpty v); [apply setInput_one_line | exact Hline].
  - intros _. exact Hblank.
  - apply selector_offered.
  - apply selector_offered.
  - apply selector_offered.
  - apply selector_offered.
  - apply qc_after_load.
Qed.

Lemma shareLink_reopens_witness :
  let rows := parseWorkbook [[("District", VStr "Beirut"); ("Site Status", VStr "Active")];
                             [("District", VStr "Zahle")]] in
  let pg := {| searchInput := "camp"; districtFilter := setSelectOptions [];
               cadasterFilter := setSelectOptions []; siteStatusFilter := setSelectOptions [];
               phoneStatusFilter := setSelectOptions []; qcFilter := setSelectOptions [] |} in
  let blank := {| searchInput := ""; districtFilter := setSelectOptions [];
                  cadasterFilter := setSelectOptions []; siteStatusFilter := setSelectOptions [];
                  phoneStatusFilter := setSelectOptions []; qcFilter := setSelectOptions [] |} in
  let st0 := fun pg => {| App.raw := []; App.filtered := []; App.coordsByPcode := ∅;
                          App.coordsMeta := {| source := "sheet";
                                               names := {| pcodeKey := "PCode"; latKey := None;
                                                           lngKey := None |};
                                               mapped := 0; total := 0 |};
                          App.filters := defaultFilters; App.dom := pg |} in
  let st' := onDataLoaded String.compare "?district=Beirut&qc=Any+issue" rows (st0 pg) in
  let st'' := onDataLoaded String.compare (shareSearch (App.filters st')) rows (st0 blank) in
  App.filters st'' = App.filters st' /\ App.filtered st'' = App.filtered st'.
Proof.
  intros rows pg blank st0.
  apply (shareLink_reopens String.compare "?district=Beirut&qc=Any+issue" rows (st0 pg) (st0 blank));
    reflexivity.
Defined.


(** ** Characters of the share link *)

Lemma encodeByte_urlSafe c : allChars urlSafe (USP.encodeByte c) = true.
Proof. destruct c as [[] [] [] [] [] [] [] []]; reflexivity. Qed.

Lemma encode_urlSafe s : allChars urlSafe (USP.encode s) = true.
Proof.
  induction s as [|c s IH]; [reflexivity|].
  cbn [USP.encode]. now rewrite allChars_app, encodeByte_urlSafe, IH.
Qed.

Lemma join_allChars p sep (l : list string) :
  allChars p sep = true -> Forall (fun x => allChars p x = true) l ->
  allChars p (join sep l) = true.
Proof.
  intros Hsep. induction l as [|x l IH]; intros Hall; [reflexivity|].
  apply Forall_cons in Hall as [Hx Hl]. destruct l as [|y l]; [exact Hx|].
  change (join sep (x :: y :: l)) with (x +:+ sep +:+ join sep (y :: l)).
  rewrite !allChars_app, Hx, Hsep. now apply IH.
Qed.

(** X26.  Whatever the criteria hold, the search part of the share
    link is empty or a question mark followed by the query, and it is
    made of ASCII letters, digits and the marks [*-._+%&=?] only: no
    space, no number sign, no control or non-ASCII byte is written as
    it is. *)
Theorem shareSearch_urlSafe (f : filters) :
  allChars urlSafe (shareSearch f) = true /\
  (shareSearch f = "" \/ shareSearch f = "?" +:+ encodeFiltersToQuery f) /\
  (shareSearch f = "" <-> nonDefaults f = []).
Proof.
  assert (Hq : allChars urlSafe (encodeFiltersToQuery f) = true).
  { rewrite encode_nonDefaults. unfold USP.toString.
    apply join_allChars; [reflexivity|].
    apply List.Forall_forall. intros x Hx. apply in_map_iff in Hx as ([n v] & <- & _).
    cbn [fst snd]. now rewrite !allChars_app, !encode_urlSafe. }
  unfold shareSearch. cbv zeta.
  destruct (nonEmpty (encodeFiltersToQuery f)) eqn:E.
  - split; [rewrite append_cons, append_nil_l; cbn [allChars]; now rewrite Hq|].
    split; [now right|]. split; [discriminate|].
    intros Hn. rewrite encode_nonDefaults, Hn in E. discriminate.
  - split; [reflexivity|]. split; [now left|]. split; [|reflexivity]. intros _.
    apply nonEmpty_false in E. rewrite encode_nonDefaults in E.
    destruct (nonDefaults f) as [|[n v] ps]; [reflexivity|]. exfalso.
    unfold USP.toString in E. cbn [List.map fst snd] in E.
    assert (Hne : nonEmpty (USP.encode n +:+ "=" +:+ USP.encode v) = true)
      by (apply append_nonEmpty; reflexivity).
    destruct (List.map _ ps) as [|y ys]; cbn [join] in E.
    + now rewrite E in Hne.
    + destruct (USP.encode n +:+ "=" +:+ USP.encode v); [discriminate Hne | discriminate E].
Qed.

(** ** Points and mapped rows *)

Lemma index_size pk lat lng (rows : list obj) :
  let res := fold_left (indexStep pk lat lng) rows (∅, 0%nat) in
  (size (fst res) <= snd res)%nat /\
  (List.NoDup (List.map (rowPcode pk) (List.filter (mappable pk lat lng) rows)) ->
   size (fst res) = snd res).
Proof.
  induction rows as [|r rows IH] using rev_ind.
  - split; [|intros _]; cbn [fold_left fst snd]; rewrite map_size_empty; lia.
  - cbv zeta in *. rewrite fold_left_app. cbn [fold_left].
    destruct (index_fold pk lat lng rows) as [Hlook _]. cbv zeta in Hlook.
    destruct (fold_left (indexStep pk lat lng) rows (∅, 0%nat)) as [mp n].
    cbn [fst snd] in *. destruct IH as [IHle IHeq].
    rewrite indexStep_cases, filter_snoc, map_app. cbn [fst snd].
    destruct (mappable pk lat lng r) eqn:Hm.
    + pose proof Hm as Hm'. unfold mappable, hasCoords in Hm'.
      apply andb_true_iff in Hm' as [Hne Hco].
      destruct (coordsOf lat lng r) as [v|] eqn:Ec; [|discriminate]. cbn [fst snd List.map].
      split.
      * rewrite map_size_insert. destruct (mp !! rowPcode pk r); cbn; lia.
      * intros Hnd. apply List.NoDup_remove in Hnd as [Hnd Hnotin].
        rewrite app_nil_r in Hnd, Hnotin.
        rewrite map_size_insert_None; [now rewrite IHeq|].
        rewrite Hlook, Hne.
        destruct (lastWith pk lat lng rows (rowPcode pk r)) as [c|] eqn:L; [|reflexivity].
        exfalso. apply Hnotin.
        apply lastWith_source in L as (r0 & Hin & Hid & Hc0).
        rewrite <- Hid. apply in_map. apply filter_In. split; [exact Hin|].
        unfold mappable, hasCoords. now rewrite Hid, Hne, Hc0.
    + cbn [List.map]. rewrite app_nil_r. split; assumption.
Qed.

(** X27.  The index never holds more points than rows were counted as
    mapped, and never more rows are counted than there are: the mapped
    count is a count of rows.  The two agree when no two mapped rows
    share an identifier; two rows with one identifier give one point
    and a mapped count of two. *)
Theorem mapped_counts_rows (src : string) (rows : list obj) :
  let res := buildCoordsMapFromRows src rows in
  let ks := inferLatLngKeys rows in
  (size (fst res) <= mapped (snd res) <= total (snd res))%nat /\
  (forall lat lng, latKey ks = Some lat -> lngKey ks = Some lng ->
     List.NoDup (List.map (rowPcode (pcodeKey ks))
                          (List.filter (mappable (pcodeKey ks) lat lng) rows)) ->
     size (fst res) = mapped (snd res)) /\
  (let twice := [[("PCode", VStr "A"); ("Latitude", VNum (Fin 33.5));
                  ("Longitude", VNum (Fin 35.5))];
                 [("PCode", VStr "A"); ("Latitude", VNum (Fin 33.6));
                  ("Longitude", VNum (Fin 35.6))]] in
   size (fst (buildCoordsMapFromRows src twice)) = 1%nat /\
   mapped (snd (buildCoordsMapFromRows src twice)) = 2%nat).
Proof.
  cbv zeta. split; [|split; [|split; reflexivity]].
  - unfold buildCoordsMapFromRows. cbv zeta.
    destruct (latKey (inferLatLngKeys rows)) as [lat|];
      [|cbn [fst snd mapped total]; rewrite map_size_empty; lia].
    destruct (lngKey (inferLatLngKeys rows)) as [lng|];
      [|cbn [fst snd mapped total]; rewrite map_size_empty; lia].
    pose proof (index_size (pcodeKey (inferLatLngKeys rows)) lat lng rows) as [Hle _].
    pose proof (index_fold (pcodeKey (inferLatLngKeys rows)) lat lng rows) as [_ Hn].
    cbv zeta in Hle, Hn.
    destruct (fold_left _ rows (∅, 0%nat)) as [mp n]. cbn [fst snd mapped total] in *.
    split; [exact Hle|]. rewrite Hn. apply filter_length_le.
  - intros lat lng Hlat Hlng Hnd. unfold buildCoordsMapFromRows. cbv zeta.
    rewrite Hlat, Hlng.
    pose proof (index_size (pcodeKey (inferLatLngKeys rows)) lat lng rows) as [_ Heq].
    cbv zeta in Heq.
    destruct (fold_left _ rows (∅, 0%nat)) as [mp n]. cbn [fst snd mapped] in *.
    now apply Heq.
Qed.
